(** * Bulk-Email-GmailAPI: a shallow embedding of [app/__init__.py] and
      [app/mail/message.py]

    The program is sequential Python with files, logging, sleeping and calls
    to external services.  It is embedded as functions in a state-and-exception
    monad over a [World] (file system, a counter of external calls, and the
    trace of observable events, and the store of [email.message] objects
    under construction).  Library functions whose code is not part of
    the repository (csv tokenising, PIL rendering, [str.format], MIME
    serialisation, the Gmail client) are the fields of an environment
    record, [Env], that every function of the program takes. *)

From Stdlib Require Import ZArith NArith Ascii String List Lia.
From stdpp Require Import base option list gmap strings.

Open Scope string_scope.

(** ** Python values and strings *)

(** A Python [str] (and [bytes]) is modelled as a Rocq [string]: a sequence of
    code units below 256. *)

Definition code (c : ascii) : nat := nat_of_ascii c.

Definition CR : ascii := ascii_of_nat 13.
Definition LF : ascii := ascii_of_nat 10.

(** [str.isspace] on one character, for the code points below 256. *)
Definition is_space (c : ascii) : bool :=
  let n := code c in
  (((9 <=? n) && (n <=? 13)) || ((28 <=? n) && (n <=? 32))
   || (n =? 133) || (n =? 160))%nat.

Fixpoint lstrip (s : string) : string :=
  match s with
  | EmptyString => EmptyString
  | String c s' => if is_space c then lstrip s' else s
  end.

Fixpoint rstrip (s : string) : string :=
  match s with
  | EmptyString => EmptyString
  | String c s' =>
      match rstrip s' with
      | EmptyString => if is_space c then EmptyString else String c EmptyString
      | r => String c r
      end
  end.

(** [str.strip()] with no argument. *)
Definition strip (s : string) : string := rstrip (lstrip s).

(** Reading a file opened in text mode with the default [newline=None]
    translates every ["\r\n"] and every lone ["\r"] into ["\n"]. *)
Fixpoint universal_newlines (s : string) : string :=
  match s with
  | EmptyString => EmptyString
  | String c s' =>
      if Ascii.eqb c CR then
        match s' with
        | String c' s'' =>
            if Ascii.eqb c' LF then String LF (universal_newlines s'')
            else String LF (universal_newlines s')
        | EmptyString => String LF EmptyString
        end
      else String c (universal_newlines s')
  end.

(** Truth value of a [str] or [bytes] object: non-empty. *)
Definition truthy (s : string) : bool :=
  match s with EmptyString => false | _ => true end.

(** The values a [csv.DictReader] row holds under a header: the cell, or
    [None] where the row is shorter than the header. *)
Inductive pyval : Type :=
| PStr (s : string)
| PNone.

#[global] Instance pyval_eq_dec : EqDecision pyval.
Proof. solve_decision. Defined.

(** [str(v)], as an f-string formats it. *)
Definition py_str (v : pyval) : string :=
  match v with PStr s => s | PNone => "None" end.

(** [v == s] for a [str] [s]. *)
Definition py_eq_str (v : pyval) (s : string) : bool :=
  match v with PStr s' => String.eqb s' s | PNone => false end.

(** ** Exceptions, results, events *)

Inductive exn : Type :=
| KeyError (key : string)
| IndexError
| TypeError
| ValueError (msg : string)
| FileNotFoundError (path : string)
| ConfigError (msg : string)
| LibraryError (what : string).   (* any exception of an external library *)

(** The three ways a Python call ends here: a value, an exception that
    [except Exception] can catch, or [sys.exit(code)] ([SystemExit], which
    [except Exception] does not catch). *)
Inductive res (A : Type) : Type :=
| Ok (a : A)
| Raise (e : exn)
| Exit (status : Z).
Arguments Ok {A} a.
Arguments Raise {A} e.
Arguments Exit {A} status.

Inductive level : Type := DEBUG | INFO | ERROR.

(** One constructor per logging call of the source, holding the values its
    f-string interpolates. *)
Inductive logmsg : Type :=
| MsgConfigLoaded
| MsgConfigurationError (e : exn)
| MsgRecipientsNotFound (csv_file : string)
| MsgMissingHeaders
| MsgLoaded (n : nat) (csv_file : string)
| MsgLastSentRetrieved (last_email : string)
| MsgLastSentEmpty
| MsgSetLastSent (email : pyval)
| MsgGeneratedGif (email : pyval)
| MsgFailedImage (email : pyval) (e : exn)
| MsgFailedTemplate (e : exn)
| MsgAttached (filename : string)
| MsgFailedAttach (filename : string) (e : exn)
| MsgSending (destination : pyval)
| MsgMessageSent (destination : pyval) (id : pyval)
| MsgFailedSend (destination : pyval) (e : exn)
| MsgStarting
| MsgMissingKey (key : string)
| MsgAllSent
| MsgPreparing (n : nat)
| MsgNoTestEmail
| MsgTestSent (test_email : string)
| MsgFailedTest (test_email : string) (e : exn)
| MsgEmailSent (n total : nat) (email : pyval)
| MsgHourlyLimit
| MsgWaiting
| MsgFailedEmail (email : pyval) (e : exn)
| MsgCompleted.

Inductive event : Type :=
| ELog (l : level) (m : logmsg)
| EOpenW (path : string)                   (* open(path, 'w'): truncates *)
| EWrite (path : string) (data : string)   (* f.write(data) *)
| ESleep (seconds : Z)                     (* time.sleep *)
| EApiSend (raw : string).                 (* users().messages().send(...) *)

(** ** MIME objects

    [email.message.Message] objects are mutable and shared: [build_message]
    attaches [msg_alternative] to [msg_root] and only afterwards attaches the
    HTML text to [msg_alternative].  Objects therefore live in a store and
    refer to their parts by address. *)

Record header : Type := mkHeader {
  h_name : string;
  h_value : pyval;
  h_params : list (string * string)   (* keyword parameters of add_header *)
}.

Inductive body : Type :=
| BText (payload : string)        (* set_payload of a non-multipart message *)
| BParts (children : list nat).   (* addresses of the attached parts *)

Record node : Type := mkNode {
  n_headers : list header;
  n_body : body
}.

(** A message with its parts resolved: what a serialiser sees. *)
#[warnings="-register-all"]
Inductive mime : Type :=
| MLeaf (hs : list header) (payload : string)
| MMulti (hs : list header) (parts : list mime).

Fixpoint snapshot (fuel : nat) (h : list node) (id : nat) : option mime :=
  match fuel with
  | O => None
  | S fuel' =>
      match h !! id with
      | None => None
      | Some n =>
          match n_body n with
          | BText s => Some (MLeaf (n_headers n) s)
          | BParts ids =>
              match mapM (snapshot fuel' h) ids with
              | Some ps => Some (MMulti (n_headers n) ps)
              | None => None
              end
          end
      end
  end.

Definition mime_headers (m : mime) : list header :=
  match m with MLeaf hs _ => hs | MMulti hs _ => hs end.

Definition mime_parts (m : mime) : list mime :=
  match m with MLeaf _ _ => [] | MMulti _ ps => ps end.

Definition lower (c : ascii) : ascii :=
  let n := code c in
  if ((65 <=? n) && (n <=? 90))%nat then ascii_of_nat (n + 32) else c.

Fixpoint lower_str (s : string) : string :=
  match s with
  | EmptyString => EmptyString
  | String c s' => String (lower c) (lower_str s')
  end.

(** [msg[name]]: the value of the first header of that name, names compared
    without regard to case. *)
Definition get_header (name : string) (m : mime) : option pyval :=
  h_value <$> List.find (fun h => String.eqb (lower_str (h_name h)) (lower_str name))
                        (mime_headers m).

(** [m] itself or one of its parts, at any depth, is a non-multipart message
    with the given main content type and payload. *)
Definition has_content_type (ct : string) (hs : list header) : bool :=
  existsb (fun h => String.eqb (h_name h) "Content-Type"
                    && bool_decide (h_value h = PStr ct)) hs.

Fixpoint contains_leaf (ct payload : string) (m : mime) : bool :=
  match m with
  | MLeaf hs p => has_content_type ct hs && String.eqb p payload
  | MMulti _ ps => existsb (contains_leaf ct payload) ps
  end.

(** The number of non-multipart parts of main content type [ct]. *)
Fixpoint count_leaves (ct : string) (m : mime) : nat :=
  match m with
  | MLeaf hs _ => if has_content_type ct hs then 1 else 0
  | MMulti _ ps => list_sum (List.map (count_leaves ct) ps)
  end.

(** ** The world and the monad *)

Record World : Type := mkWorld {
  fs : gmap string string;   (* path -> contents of the file *)
  clock : nat;               (* external calls made so far *)
  trace : list event;        (* oldest event first *)
  heap : list node           (* the message objects, by address *)
}.

Definition M (A : Type) : Type := World -> res A * World.

#[global] Instance M_ret : MRet M := fun A a w => (Ok a, w).
#[global] Instance M_bind : MBind M := fun A B f m w =>
  match m w with
  | (Ok a, w') => f a w'
  | (Raise e, w') => (Raise e, w')
  | (Exit c, w') => (Exit c, w')
  end.

Definition raise {A} (e : exn) : M A := fun w => (Raise e, w).
Definition sys_exit {A} (status : Z) : M A := fun w => (Exit status, w).

(** The outcome of a library call that touches nothing in the world. *)
Definition of_sum {A} (r : exn + A) : M A :=
  match r with
  | inl e => raise e
  | inr a => mret a
  end.

(** [try: body  except Exception as e: handler e] *)
Definition try_except {A} (body : M A) (handler : exn -> M A) : M A :=
  fun w =>
    match body w with
    | (Raise e, w') => handler e w'
    | r => r
    end.

(** [try: body  except Exception as e: handler e; raise] *)
Definition try_reraise {A} (body : M A) (handler : exn -> M unit) : M A :=
  try_except body (fun e => handler e ;; raise e).

(** [for x in xs: f x] *)
Fixpoint for_each {A} (xs : list A) (f : A -> M unit) : M unit :=
  match xs with
  | [] => mret tt
  | x :: xs' => f x ;; for_each xs' f
  end.

Definition emit (e : event) : M unit :=
  fun w => (Ok tt, mkWorld (fs w) (clock w) (trace w ++ [e]) (heap w)).

Definition logging (l : level) (m : logmsg) : M unit := emit (ELog l m).

Definition time_sleep (seconds : Z) : M unit := emit (ESleep seconds).

(** An external call: the environment's answer may depend on how many
    external calls came before. *)
Definition external {A} (f : nat -> exn + A) : M A :=
  fun w =>
    let w' := mkWorld (fs w) (S (clock w)) (trace w) (heap w) in
    match f (clock w) with
    | inl e => (Raise e, w')
    | inr a => (Ok a, w')
    end.

(** [os.path.exists(path)] *)
Definition path_exists (path : string) : M bool :=
  fun w => (Ok (bool_decide (is_Some (fs w !! path))), w).

(** [open(path, 'r').read()] and [open(path, 'rb').read()].  A file holds
    code units below 256, and reading it as text gives them back with the
    line ends translated: that is what the code does on ASCII text.  A file
    that the codec cannot decode, on which [read] raises
    [UnicodeDecodeError], and text beyond code point 255 are outside this
    model: what is proved of a text file is proved of a file that holds
    text of this kind, ASCII text in particular. *)
Definition read_text (path : string) : M string :=
  fun w =>
    match fs w !! path with
    | Some s => (Ok (universal_newlines s), w)
    | None => (Raise (FileNotFoundError path), w)
    end.

Definition read_bytes (path : string) : M string :=
  fun w =>
    match fs w !! path with
    | Some s => (Ok s, w)
    | None => (Raise (FileNotFoundError path), w)
    end.

(** [open(path, 'w')]: creates or truncates the file. *)
Definition open_w (path : string) : M unit :=
  fun w => (Ok tt, mkWorld (<[path := ""]> (fs w)) (clock w)
                           (trace w ++ [EOpenW path]) (heap w)).

(** [f.write(v)] on a file opened with ['w']: a [str] is appended, anything
    else is a [TypeError].  Line ends are written as they are (POSIX). *)
Definition file_write (path : string) (v : pyval) : M unit :=
  match v with
  | PStr s => fun w =>
      (Ok tt, mkWorld (<[path := default "" (fs w !! path) ++ s]> (fs w))
                      (clock w) (trace w ++ [EWrite path s]) (heap w))
  | PNone => raise TypeError
  end.

(** Allocation of a message object; its address is returned. *)
Definition new_message (n : node) : M nat :=
  fun w => (Ok (length (heap w)),
            mkWorld (fs w) (clock w) (trace w) (heap w ++ [n])).

Definition update_message (id : nat) (f : node -> node) : M unit :=
  fun w => (Ok tt, mkWorld (fs w) (clock w) (trace w)
                           (alter f id (heap w))).

(** [msg[name] = value] and [msg.add_header(name, value, **params)]: a header
    is appended. *)
Definition add_header (id : nat) (name : string) (value : pyval)
    (params : list (string * string)) : M unit :=
  update_message id (fun n =>
    mkNode (n_headers n ++ [mkHeader name value params]) (n_body n)).

Definition set_item (id : nat) (name : string) (value : pyval) : M unit :=
  add_header id name value [].

(** [msg.attach(part)]: only a multipart message takes parts. *)
Definition attach (id part : nat) : M unit :=
  fun w =>
    match heap w !! id with
    | Some (mkNode hs (BParts l)) =>
        update_message id (fun _ => mkNode hs (BParts (l ++ [part]))) w
    | _ => (Raise (LibraryError "MultipartConversionError"), w)
    end.

(** The constructors of [email.mime]: each sets [Content-Type] and
    [MIME-Version]; the non-multipart ones also set their payload and its
    [Content-Transfer-Encoding].  The payload is kept as given; its transfer
    encoding is the serialiser's business. *)
Definition is_ascii (s : string) : bool :=
  forallb (fun c => (code c <? 128)%nat) (list_ascii_of_string s).

Definition multipart_headers (subtype : string) : list header :=
  [mkHeader "Content-Type" (PStr ("multipart/" ++ subtype)) [];
   mkHeader "MIME-Version" (PStr "1.0") []].

Definition text_headers (text subtype : string) : list header :=
  let ascii := is_ascii text in
  [mkHeader "Content-Type" (PStr ("text/" ++ subtype))
     [("charset", if ascii then "us-ascii" else "utf-8")];
   mkHeader "MIME-Version" (PStr "1.0") [];
   mkHeader "Content-Transfer-Encoding"
     (PStr (if ascii then "7bit" else "base64")) []].

Definition image_headers (subtype : string) : list header :=
  [mkHeader "Content-Type" (PStr ("image/" ++ subtype)) [];
   mkHeader "MIME-Version" (PStr "1.0") [];
   mkHeader "Content-Transfer-Encoding" (PStr "base64") []].

Definition base_headers (maintype subtype : string) : list header :=
  [mkHeader "Content-Type" (PStr (maintype ++ "/" ++ subtype)) [];
   mkHeader "MIME-Version" (PStr "1.0") []].

Definition MIMEMultipart (subtype : string) : M nat :=
  new_message (mkNode (multipart_headers subtype) (BParts [])).

Definition MIMEText (text subtype : string) : M nat :=
  new_message (mkNode (text_headers text subtype) (BText text)).

Definition MIMEImage (data subtype : string) : M nat :=
  new_message (mkNode (image_headers subtype) (BText data)).

Definition MIMEBase (maintype subtype : string) : M nat :=
  new_message (mkNode (base_headers maintype subtype) (BText "")).

Definition set_payload (id : nat) (data : string) : M unit :=
  update_message id (fun n => mkNode (n_headers n) (BText data)).

(** [encoders.encode_base64(msg)] *)
Definition encode_base64 (id : nat) : M unit :=
  set_item id "Content-Transfer-Encoding" (PStr "base64").

(** ** Constants of [app/__init__.py] *)

Definition RECIPIENTS_CSV : string := "recipients.csv".
Definition LAST_SENT_FILE : string := "last_sent.txt".
Definition GIF_TEMPLATE_PATH : string := "static/template.gif".
Definition FONT_PATH : string := "static/arial.ttf".

(** ** Checkpoint store: [get_last_sent], [set_last_sent] *)

Definition get_last_sent : M (option string) :=
  ex ← path_exists LAST_SENT_FILE;
  if ex : bool then
    content ← read_text LAST_SENT_FILE;
    let last_email := strip content in
    if truthy last_email then
      logging INFO (MsgLastSentRetrieved last_email) ;;
      mret (Some last_email)
    else
      logging INFO MsgLastSentEmpty ;;
      mret None
  else mret None.

Definition set_last_sent (email : pyval) : M unit :=
  open_w LAST_SENT_FILE ;;
  file_write LAST_SENT_FILE email ;;
  logging DEBUG (MsgSetLastSent email).

(** ** Transport encoding: [base64.urlsafe_b64encode]

    RFC 4648, section 5: three bytes become four characters of the alphabet
    [A-Z a-z 0-9 - _]; a final group of one or two bytes is padded with [=]. *)

Definition b64_char (n : N) : ascii :=
  (if n <? 26 then ascii_of_N (65 + n)
   else if n <? 52 then ascii_of_N (97 + (n - 26))
   else if n <? 62 then ascii_of_N (48 + (n - 52))
   else if n =? 62 then "-"%char
   else "_"%char)%N.

Definition b64_index (c : ascii) : option N :=
  (let n := N_of_ascii c in
   if (65 <=? n) && (n <=? 90) then Some (n - 65)
   else if (97 <=? n) && (n <=? 122) then Some (n - 97 + 26)
   else if (48 <=? n) && (n <=? 57) then Some (n - 48 + 52)
   else if n =? 45 then Some 62
   else if n =? 95 then Some 63
   else None)%N.

Definition b64_pad : ascii := "="%char.

Definition enc3 (a b c : ascii) : string :=
  (let n := N_of_ascii a * 65536 + N_of_ascii b * 256 + N_of_ascii c in
   String (b64_char (n / 262144))
     (String (b64_char ((n / 4096) mod 64))
        (String (b64_char ((n / 64) mod 64))
           (String (b64_char (n mod 64)) EmptyString))))%N.

Definition enc2 (a b : ascii) : string :=
  (let n := N_of_ascii a * 65536 + N_of_ascii b * 256 in
   String (b64_char (n / 262144))
     (String (b64_char ((n / 4096) mod 64))
        (String (b64_char ((n / 64) mod 64))
           (String b64_pad EmptyString))))%N.

Definition enc1 (a : ascii) : string :=
  (let n := N_of_ascii a * 65536 in
   String (b64_char (n / 262144))
     (String (b64_char ((n / 4096) mod 64))
        (String b64_pad (String b64_pad EmptyString))))%N.

Fixpoint urlsafe_b64encode (s : string) : string :=
  match s with
  | EmptyString => EmptyString
  | String a EmptyString => enc1 a
  | String a (String b EmptyString) => enc2 a b
  | String a (String b (String c rest)) => enc3 a b c ++ urlsafe_b64encode rest
  end.

(** The inverse direction, [base64.urlsafe_b64decode] on padded input. *)
Definition dec_group (c1 c2 c3 c4 : ascii) : option string :=
  (i1 ← b64_index c1;
   i2 ← b64_index c2;
   if Ascii.eqb c3 b64_pad then
     if Ascii.eqb c4 b64_pad then
       let n := i1 * 262144 + i2 * 4096 in
       Some (String (ascii_of_N (n / 65536)) EmptyString)
     else None
   else
     i3 ← b64_index c3;
     if Ascii.eqb c4 b64_pad then
       let n := i1 * 262144 + i2 * 4096 + i3 * 64 in
       Some (String (ascii_of_N (n / 65536))
               (String (ascii_of_N ((n / 256) mod 256)) EmptyString))
     else
       i4 ← b64_index c4;
       let n := i1 * 262144 + i2 * 4096 + i3 * 64 + i4 in
       Some (String (ascii_of_N (n / 65536))
               (String (ascii_of_N ((n / 256) mod 256))
                  (String (ascii_of_N (n mod 256)) EmptyString))))%N.

Fixpoint urlsafe_b64decode (s : string) : option string :=
  match s with
  | EmptyString => Some EmptyString
  | String c1 (String c2 (String c3 (String c4 rest))) =>
      g ← dec_group c1 c2 c3 c4;
      if Ascii.eqb c4 b64_pad then
        match rest with EmptyString => Some g | _ => None end
      else
        r ← urlsafe_b64decode rest;
        Some (g ++ r)
  | _ => None
  end.

(** ** Recipients: the rows of [csv.DictReader] *)

(** A row is a [dict] from header names to cells.  A row longer than the
    header keeps its surplus cells under the key [None] ([restkey]); a shorter
    one has [None] ([restval]) under the headers it does not reach. *)
Record Recipient : Type := mkRecipient {
  fields : gmap string pyval;
  rest : option (list string)
}.

(** [dict(zip(fieldnames, row))]: a repeated name keeps its last cell. *)
Definition dict_zip (fieldnames row : list string) : gmap string pyval :=
  foldl (fun d p => <[p.1 := PStr p.2]> d) ∅ (zip fieldnames row).

(** The body of [DictReader.__next__] for one non-blank row. *)
Definition dict_of_row (fieldnames row : list string) : Recipient :=
  let d := dict_zip fieldnames row in
  let lf := length fieldnames in
  let lr := length row in
  if (lf <? lr)%nat then mkRecipient d (Some (drop lf row))
  else if (lr <? lf)%nat then
    mkRecipient (foldl (fun d k => <[k := PNone]> d) d (drop lr fieldnames)) None
  else mkRecipient d None.

Definition is_blank (row : list string) : bool :=
  match row with [] => true | _ => false end.

(** The rows a [DictReader] yields after the header row: blank rows are
    skipped. *)
Definition dict_rows (fieldnames : list string) (data : list (list string))
  : list Recipient :=
  List.map (dict_of_row fieldnames) (List.filter (fun r => negb (is_blank r)) data).

(** [recipient[key]] *)
Definition getitem (r : Recipient) (key : string) : M pyval :=
  match fields r !! key with
  | Some v => mret v
  | None => raise (KeyError key)
  end.

(** [recipients[i]] *)
Definition list_getitem (rs : list Recipient) (i : nat) : M Recipient :=
  match rs !! i with
  | Some r => mret r
  | None => raise IndexError
  end.

Definition required_headers : list string :=
  ["First Name"; "Last Name"; "Email"; "Phone"; "Address"; "Profession";
   "Stage"; "Industry"; "LinkedIn"].

(** [required_headers.issubset(fieldnames)] *)
Definition issubset (required fieldnames : list string) : bool :=
  forallb (fun h => bool_decide (h ∈ fieldnames)) required.

(** ** Run configuration *)

(** Modelled from the spec: the [Config] class of [app/config.py], which is
    not among the sources.  The spec describes a structured document exposing
    [subject] (string), [test] (boolean), [test_email_recipient] (string) and
    [sender_email] (string); a key that is missing is [None] here and
    [config[key]] raises [KeyError] for it. *)
Record Config : Type := mkConfig {
  cfg_subject : option string;
  cfg_test : option bool;
  cfg_test_email_recipient : option string;
  cfg_sender_email : option string
}.

Definition config_get {A} (key : string) (v : option A) : M A :=
  match v with
  | Some a => mret a
  | None => raise (KeyError key)
  end.

(** ** Paths and small string helpers *)

Definition dquote : string := String (ascii_of_nat 34) EmptyString.
Definition slash : ascii := ascii_of_nat 47.

(** [os.path.join(dir, name)] on POSIX. *)
Definition path_join (dir name : string) : string :=
  match name with
  | String c _ => if Ascii.eqb c slash then name else dir ++ "/" ++ name
  | EmptyString => dir ++ "/"
  end.

(** [os.path.basename(p)]: what follows the last slash. *)
Fixpoint basename_aux (acc s : string) : string :=
  match s with
  | EmptyString => acc
  | String c s' =>
      if Ascii.eqb c slash then basename_aux s' s' else basename_aux acc s'
  end.
Definition basename (p : string) : string := basename_aux p p.

(** [s.split('/', 1)] when it has two parts. *)
Fixpoint split_slash (s : string) : option (string * string) :=
  match s with
  | EmptyString => None
  | String c s' =>
      if Ascii.eqb c slash then Some (EmptyString, s')
      else match split_slash s' with
           | Some (a, b) => Some (String c a, b)
           | None => None
           end
  end.

(** ** The environment: library and service calls outside the repository *)

Record Env : Type := mkEnv {
  (* csv.reader over the file's text: the rows it yields, and the error that
     ends the iteration if there is one *)
  csv_reader : string -> list (list string) * option exn;
  (* the parser behind Config(path) *)
  config_parse : string -> exn + Config;
  (* PIL: Image.open(GIF_TEMPLATE_PATH), then drawing the text on every frame
     and saving the GIF *)
  pil_open : nat -> exn + unit;
  pil_render : nat -> string -> exn + string;
  (* template.format(first_name=..., email=..., dynamic_image=...) *)
  str_format : string -> pyval -> pyval -> string -> exn + string;
  (* app.mail.authentication.authenticate() *)
  authenticate : nat -> exn + unit;
  (* users().messages().send(userId="me", body=...).execute(), then .get('id') *)
  api_send : nat -> string -> exn + pyval;
  (* Message.as_bytes() *)
  msg_as_bytes : nat -> mime -> exn + string;
  (* mimetypes.guess_type and bytes.decode *)
  guess_mime_type : string -> option string * option string;
  bytes_decode : string -> exn + string
}.

(** [msg.as_bytes()] on the object at [id], with its parts as they are now. *)
Definition as_bytes (env : Env) (id : nat) : M string :=
  fun w =>
    match snapshot (S (length (heap w))) (heap w) id with
    | Some m => external (fun n => msg_as_bytes env n m) w
    | None => (Raise (LibraryError "RecursionError"), w)
    end.

(** The dict [{'raw': ...}] handed to the Gmail client. *)
Record envelope : Type := mkEnvelope { raw : string }.

(** ** [app/__init__.py] *)

Section App.
Context (env : Env).

(** Modelled from the spec: [Config(path)] of [app/config.py], which is not
    among the sources.  The spec makes a missing file and an unusable document
    configuration errors. *)
Definition Config_init (path : string) : M Config :=
  fun w =>
    match fs w !! path with
    | None => (Raise (ConfigError "missing file"), w)
    | Some s => of_sum (config_parse env s) w
    end.

Definition load_config : M Config :=
  try_except
    (config ← Config_init "config.json";
     logging INFO MsgConfigLoaded ;;
     mret config)
    (fun e =>
       match e with
       | ConfigError _ => logging ERROR (MsgConfigurationError e) ;; sys_exit 1
       | _ => raise e
       end).

Definition load_recipients (csv_file : string) : M (list Recipient) :=
  ex ← path_exists csv_file;
  if negb ex then
    logging ERROR (MsgRecipientsNotFound csv_file) ;; sys_exit 1
  else
    content ← read_bytes csv_file;
    let '(rows, err) := csv_reader env content in
    match rows with
    | [] =>
        (* reader.fieldnames: the first row fails to parse, or there is none
           and fieldnames is None, which issubset cannot iterate *)
        match err with Some e => raise e | None => raise TypeError end
    | fieldnames :: data =>
        if negb (issubset required_headers fieldnames) then
          logging ERROR MsgMissingHeaders ;; sys_exit 1
        else
          let recipients := dict_rows fieldnames data in
          match err with
          | Some e => raise e
          | None =>
              logging INFO (MsgLoaded (length recipients) csv_file) ;;
              mret recipients
          end
    end.

Definition funny_text (first_name : pyval) : string :=
  "Look at you, " ++ py_str first_name
  ++ "! Working harder than Sparky to be sustainable!".

Definition generate_funny_image (recipient : Recipient) : M string :=
  try_reraise
    (external (pil_open env) ;;
     first_name ← getitem recipient "First Name";
     gif_data ← external (fun n => pil_render env n (funny_text first_name));
     email ← getitem recipient "Email";
     logging DEBUG (MsgGeneratedGif email) ;;
     mret gif_data)
    (fun e =>
       email ← getitem recipient "Email";
       logging ERROR (MsgFailedImage email e)).

Definition dynamic_image_tag (image_cid : string) : string :=
  "<img src=" ++ dquote ++ "cid:" ++ image_cid ++ dquote
  ++ " alt=" ++ dquote ++ "Sparky doing push-ups" ++ dquote ++ ">".

Definition generate_email_body (recipient : Recipient) (image_cid : string)
  : M string :=
  try_reraise
    (template ← read_text "template.html";
     let dynamic_image := dynamic_image_tag image_cid in
     first_name ← getitem recipient "First Name";
     email ← getitem recipient "Email";
     of_sum (str_format env template first_name email dynamic_image))
    (fun e => logging ERROR (MsgFailedTemplate e)).

Definition add_attachment (message : nat) (filename : string) : M unit :=
  try_reraise
    (let path := path_join "attachments" filename in
     data ← read_bytes path;
     part ← MIMEBase "application" "octet-stream";
     set_payload part data ;;
     encode_base64 part ;;
     add_header part "Content-Disposition"
       (PStr ("attachment; filename=" ++ dquote ++ filename ++ dquote)) [] ;;
     attach message part ;;
     logging DEBUG (MsgAttached filename))
    (fun e => logging ERROR (MsgFailedAttach filename e)).

Definition build_message (destination : pyval) (subject body gif_data gif_cid : string)
    (attachments : option (list string)) (config : option Config) : M envelope :=
  match config with
  | None => raise (ValueError "A config instance must be provided to build_message.")
  | Some config =>
      msg_root ← MIMEMultipart "related";
      set_item msg_root "To" destination ;;
      sender ← config_get "sender_email" (cfg_sender_email config);
      set_item msg_root "From" (PStr sender) ;;
      set_item msg_root "Subject" (PStr subject) ;;
      msg_alternative ← MIMEMultipart "alternative";
      attach msg_root msg_alternative ;;
      msg_text ← MIMEText body "html";
      attach msg_alternative msg_text ;;
      (if truthy gif_data && truthy gif_cid then
         msg_image ← MIMEImage gif_data "gif";
         add_header msg_image "Content-ID" (PStr ("<" ++ gif_cid ++ ">")) [] ;;
         add_header msg_image "Content-Disposition" (PStr "inline")
           [("filename", "funny_sparky.gif")] ;;
         attach msg_root msg_image
       else mret tt) ;;
      (match attachments with
       | Some ((_ :: _) as l) => for_each l (add_attachment msg_root)
       | _ => mret tt   (* None and the empty list are falsy *)
       end) ;;
      bytes ← as_bytes env msg_root;
      mret (mkEnvelope (urlsafe_b64encode bytes))
  end.

Definition send_message (destination : pyval) (subject body gif_data gif_cid : string)
    (attachments : option (list string)) (config : option Config) : M pyval :=
  match config with
  | None => raise (ValueError "A config instance must be passed to send_message.")
  | Some _ =>
      logging INFO (MsgSending destination) ;;
      try_reraise
        (external (authenticate env) ;;
         message_body ← build_message destination subject body gif_data gif_cid
                          attachments config;
         emit (EApiSend (raw message_body)) ;;
         id ← external (fun n => api_send env n (raw message_body));
         logging INFO (MsgMessageSent destination id) ;;
         mret id)
        (fun e => logging ERROR (MsgFailedSend destination e))
  end.

(** The scan of [start] for the checkpoint:
    [for i, recipient in enumerate(recipients): if ...: start_index = i + 1; break],
    with [start_index = 0] before it. *)
Fixpoint find_start (i : nat) (recipients : list Recipient) (last_sent_email : string)
  : M nat :=
  match recipients with
  | [] => mret 0
  | recipient :: recipients' =>
      email ← getitem recipient "Email";
      if py_eq_str email last_sent_email then mret (i + 1)
      else find_start (S i) recipients' last_sent_email
  end.

Definition resume_offset (recipients : list Recipient) (last_sent_email : option string)
  : M nat :=
  match last_sent_email with
  | Some e => if truthy e then find_start 0 recipients e else mret 0
  | None => mret 0
  end.

Definition gif_cid : string := "funny_image".

(** The test-mode branch of [start]. *)
Definition test_send (config : Config) (subject test_email : string)
    (recipients : list Recipient) : M unit :=
  (if negb (truthy test_email) then
     logging ERROR MsgNoTestEmail ;; sys_exit 1
   else mret tt) ;;
  test_recipient ← list_getitem recipients 0;
  try_except
    (gif_data ← generate_funny_image test_recipient;
     body ← generate_email_body test_recipient gif_cid;
     send_message (PStr test_email) subject body gif_data gif_cid None (Some config) ;;
     logging INFO (MsgTestSent test_email))
    (fun e => logging ERROR (MsgFailedTest test_email e)).

(** The pause after a send; [n] is [i - start_index + 1]. *)
Definition pace (n : nat) : M unit :=
  if (n mod 6 =? 0)%nat then
    logging DEBUG MsgHourlyLimit ;; time_sleep 3600
  else
    logging DEBUG MsgWaiting ;; time_sleep 600.

(** The [try] block of the sending loop for the recipient at index [i]. *)
Definition send_one (config : Config) (subject : string) (start_index total i : nat)
    (recipient : Recipient) : M unit :=
  gif_data ← generate_funny_image recipient;
  body ← generate_email_body recipient gif_cid;
  destination ← getitem recipient "Email";
  send_message destination subject body gif_data gif_cid None (Some config) ;;
  email ← getitem recipient "Email";
  logging INFO (MsgEmailSent (i + 1) total email) ;;
  email ← getitem recipient "Email";
  set_last_sent email ;;
  pace (i - start_index + 1).

(** [for i in range(start_index, total_recipients): ...], over the indices
    still to visit; the [except] clause logs and breaks. *)
Fixpoint send_loop (config : Config) (subject : string)
    (recipients : list Recipient) (start_index total : nat) (indices : list nat)
  : M unit :=
  match indices with
  | [] => mret tt
  | i :: indices' =>
      recipient ← list_getitem recipients i;
      continue ← try_except
        (send_one config subject start_index total i recipient ;; mret true)
        (fun e =>
           email ← getitem recipient "Email";
           logging ERROR (MsgFailedEmail email e) ;;
           mret false);
      if continue : bool
      then send_loop config subject recipients start_index total indices'
      else mret tt
  end.

(** [start] from [get_last_sent()] on: the resume offset, the check that
    something is left to send, and the two modes. *)
Definition resume_and_send (config : Config) (subject : string) (test_mode : bool)
    (test_email : string) (recipients : list Recipient) : M unit :=
  last_sent_email ← get_last_sent;
  start_index ← resume_offset recipients last_sent_email;
  let total_recipients := length recipients in
  if (total_recipients <=? start_index)%nat then
    logging INFO MsgAllSent
  else
    logging INFO (MsgPreparing (total_recipients - start_index)) ;;
    if test_mode then
      test_send config subject test_email recipients
    else
      send_loop config subject recipients start_index total_recipients
        (seq start_index (total_recipients - start_index)) ;;
      logging INFO MsgCompleted.

(** [config[key]] in [start]: a missing key is logged and ends the process. *)
Definition required_key {A} (key : string) (v : option A) : M A :=
  try_except (config_get key v)
    (fun e => match e with
              | KeyError _ => logging ERROR (MsgMissingKey key) ;; sys_exit 1
              | _ => raise e
              end).

(** [start] after the configuration and the recipients are loaded. *)
Definition run (config : Config) (recipients : list Recipient) : M unit :=
  subject ← required_key "subject" (cfg_subject config);
  test_mode ← required_key "test" (cfg_test config);
  test_email ← required_key "test_email_recipient"
                  (cfg_test_email_recipient config);
  resume_and_send config subject test_mode test_email recipients.

Definition start : M unit :=
  logging INFO MsgStarting ;;
  config ← load_config;
  recipients ← load_recipients RECIPIENTS_CSV;
  run config recipients.

End App.

(** ** [app/mail/message.py] *)

Module mail_message.
Section Message.
Context (env : Env).

Definition add_attachment (message : nat) (filename : string) : M unit :=
  let '(content_type, encoding) := guess_mime_type env filename in
  let content_type :=
    match content_type, encoding with
    | Some ct, None => ct
    | _, _ => "application/octet-stream"
    end in
  '(main_type, sub_type) ←
     match split_slash content_type with
     | Some p => mret p
     | None => raise (ValueError "not enough values to unpack")
     end;
  file_data ← read_bytes filename;
  msg ← (if String.eqb main_type "text" then
           text ← of_sum (bytes_decode env file_data);
           MIMEText text sub_type
         else
           msg ← MIMEBase main_type sub_type;
           set_payload msg file_data ;;
           mret msg);
  let filename := basename filename in
  add_header msg "Content-Disposition" (PStr "attachment") [("filename", filename)] ;;
  attach message msg.

Definition build_message (destination : pyval) (subject body : string)
    (attachments : option (list string)) (config : option Config) : M envelope :=
  match config with
  | None => raise (ValueError "A config instance must be provided to build_message.")
  | Some config =>
      message ←
        match attachments with
        | Some ((_ :: _) as l) =>
            message ← MIMEMultipart "mixed";
            text ← MIMEText body "html";
            attach message text ;;
            for_each l (add_attachment message) ;;
            mret message
        | _ => MIMEText body "html"
        end;
      set_item message "to" destination ;;
      sender ← config_get "sender_email" (cfg_sender_email config);
      set_item message "from" (PStr sender) ;;
      set_item message "subject" (PStr subject) ;;
      bytes ← as_bytes env message;
      mret (mkEnvelope (urlsafe_b64encode bytes))
  end.

End Message.
End mail_message.

(** ** A small environment to run the program on *)

Definition csv_header : list string :=
  ["First Name"; "Last Name"; "Email"; "Phone"; "Address"; "Profession";
   "Stage"; "Industry"; "LinkedIn"].

(** A tokeniser for the simplest files: lines end in a line feed, cells are
    separated by commas, nothing is quoted. *)
Fixpoint split_on (sep : ascii) (cur s : string) : list string :=
  match s with
  | EmptyString => [cur]
  | String c s' =>
      if Ascii.eqb c sep then cur :: split_on sep EmptyString s'
      else split_on sep (cur ++ String c EmptyString) s'
  end.

Definition simple_csv (content : string) : list (list string) * option exn :=
  (List.map (fun line => match line with
                         | EmptyString => []
                         | _ => split_on ","%char EmptyString line
                         end)
     (match content with
      | EmptyString => []
      | _ => split_on LF EmptyString content
      end), None).

(** A flat serialiser: the headers, then the payloads of the parts, each
    between brackets. *)
Fixpoint flat_bytes (m : mime) : string :=
  match m with
  | MLeaf hs p =>
      String.concat ";" (List.map (fun h => h_name h ++ ":" ++ py_str (h_value h)) hs)
      ++ "[" ++ p ++ "]"
  | MMulti hs ps =>
      String.concat ";" (List.map (fun h => h_name h ++ ":" ++ py_str (h_value h)) hs)
      ++ "[" ++ String.concat "" (List.map flat_bytes ps) ++ "]"
  end.

Definition demo_config : Config :=
  mkConfig (Some "Hello") (Some false) (Some "test@example.org")
           (Some "me@example.org").

(** Every service answers; the template is returned with the first name in
    front. *)
Definition demo_env : Env := {|
  csv_reader := simple_csv;
  config_parse := fun _ => inr demo_config;
  pil_open := fun _ => inr tt;
  pil_render := fun _ text => inr ("GIF:" ++ text);
  str_format := fun template first_name email image =>
                  inr (py_str first_name ++ template ++ image);
  authenticate := fun _ => inr tt;
  api_send := fun n _ => inr (PStr "id");
  msg_as_bytes := fun _ m => inr (flat_bytes m);
  guess_mime_type := fun _ => (None, None);
  bytes_decode := fun s => inr s
|}.

(** The same, but the Gmail call fails from the [k]-th external call on. *)
Definition failing_env (k : nat) : Env := {|
  csv_reader := simple_csv;
  config_parse := fun _ => inr demo_config;
  pil_open := fun _ => inr tt;
  pil_render := fun _ text => inr ("GIF:" ++ text);
  str_format := fun template first_name email image =>
                  inr (py_str first_name ++ template ++ image);
  authenticate := fun _ => inr tt;
  api_send := fun n _ => if (k <=? n)%nat then inl (LibraryError "HttpError")
                         else inr (PStr "id");
  msg_as_bytes := fun _ m => inr (flat_bytes m);
  guess_mime_type := fun _ => (None, None);
  bytes_decode := fun s => inr s
|}.

Definition recipient_of (first email : string) : Recipient :=
  dict_of_row csv_header [first; "L"; email; ""; ""; ""; ""; ""; ""].

Definition world_of (files : list (string * string)) : World :=
  mkWorld (list_to_map files) 0 [] [].

(** ** Predicates used in the statements *)

Fixpoint last_char (s : string) : option ascii :=
  match s with
  | EmptyString => None
  | String c EmptyString => Some c
  | String _ s' => last_char s'
  end.

Definition first_char (s : string) : option ascii :=
  match s with
  | EmptyString => None
  | String c _ => Some c
  end.

Definition all_space (s : string) : bool :=
  forallb is_space (list_ascii_of_string s).

Definition no_cr (s : string) : bool :=
  forallb (fun c => negb (Ascii.eqb c CR)) (list_ascii_of_string s).

(** A value that survives the store unchanged: not empty, no carriage
    return, no white space at either end. *)
Definition clean (s : string) : bool :=
  no_cr s
  && match first_char s with Some c => negb (is_space c) | None => false end
  && match last_char s with Some c => negb (is_space c) | None => false end.

(** What [get_last_sent] returns, as a function of the file. *)
Definition stored_value (content : option string) : option string :=
  match content with
  | Some c =>
      let v := strip (universal_newlines c) in
      if truthy v then Some v else None
  | None => None
  end.

(** The recipient's [Email] is the string [c]. *)
Definition has_email (c : string) (r : Recipient) : Prop :=
  fields r !! "Email" = Some (PStr c).

(** The recipient has an [Email] entry, as every row has once the headers
    are checked. *)
Definition has_email_key (r : Recipient) : Prop :=
  is_Some (fields r !! "Email").

(** [k] is the first index of [recipients] whose [Email] is [c]. *)
Definition first_match (recipients : list Recipient) (c : string) (k : nat) : Prop :=
  (exists r, recipients !! k = Some r /\ has_email c r)
  /\ forall j r, j < k -> recipients !! j = Some r ->
       has_email_key r /\ ~ has_email c r.

(** No recipient's [Email] is [c]. *)
Definition no_match (recipients : list Recipient) (c : string) : Prop :=
  Forall (fun r => has_email_key r /\ ~ has_email c r) recipients.

(** The Gmail calls recorded in a trace. *)
Definition api_sends (t : list event) : list string :=
  omap (fun e => match e with EApiSend raw => Some raw | _ => None end) t.

(** The calls of [send_message] recorded in a trace, by destination. *)
Definition send_calls (t : list event) : list pyval :=
  omap (fun e => match e with
                 | ELog INFO (MsgSending d) => Some d
                 | _ => None
                 end) t.

(** The pauses recorded in a trace. *)
Definition sleeps (t : list event) : list Z :=
  omap (fun e => match e with ESleep z => Some z | _ => None end) t.

(** The operations on files recorded in a trace. *)
Definition file_ops (t : list event) : list event :=
  List.filter (fun e => match e with
                        | EOpenW _ | EWrite _ _ => true
                        | _ => false
                        end) t.

(** What [get_last_sent] logs, as a function of the file. *)
Definition checkpoint_log (content : option string) : list event :=
  match content with
  | Some c =>
      let v := strip (universal_newlines c) in
      if truthy v then [ELog INFO (MsgLastSentRetrieved v)]
      else [ELog INFO MsgLastSentEmpty]
  | None => []
  end.

(** ** The message [build_message] assembles, as a value

    What [app/__init__.py]'s [build_message] hands to [as_bytes]: the
    [multipart/related] root with the [To], [From] and [Subject] headers, the
    [multipart/alternative] part holding the HTML text, the inline image if
    both its data and its content identifier are non-empty, then one part per
    attachment. *)

Definition root_headers (destination : pyval) (sender subject : string)
  : list header :=
  multipart_headers "related"
  ++ [mkHeader "To" destination [];
      mkHeader "From" (PStr sender) [];
      mkHeader "Subject" (PStr subject) []].

Definition html_part (body : string) : mime :=
  MLeaf (text_headers body "html") body.

Definition alternative_part (body : string) : mime :=
  MMulti (multipart_headers "alternative") [html_part body].

Definition image_part (gif_data gif_cid : string) : mime :=
  MLeaf (image_headers "gif"
         ++ [mkHeader "Content-ID" (PStr ("<" ++ gif_cid ++ ">")) [];
             mkHeader "Content-Disposition" (PStr "inline")
               [("filename", "funny_sparky.gif")]])
        gif_data.

Definition attachment_headers (filename : string) : list header :=
  base_headers "application" "octet-stream"
  ++ [mkHeader "Content-Transfer-Encoding" (PStr "base64") [];
      mkHeader "Content-Disposition"
        (PStr ("attachment; filename=" ++ dquote ++ filename ++ dquote)) []].

Definition attachment_part (filename data : string) : mime :=
  MLeaf (attachment_headers filename) data.

Definition image_parts (gif_data gif_cid : string) : list mime :=
  if truthy gif_data && truthy gif_cid then [image_part gif_data gif_cid] else [].

Definition message_tree (destination : pyval) (sender subject body gif_data gif_cid : string)
    (files : list (string * string)) : mime :=
  MMulti (root_headers destination sender subject)
    ((alternative_part body :: image_parts gif_data gif_cid)
     ++ List.map (fun p => attachment_part p.1 p.2) files)%list.

(** The attachments as a list: [None] and the empty list are both falsy. *)
Definition attachment_names (attachments : option (list string)) : list string :=
  default [] attachments.

(** The files [add_attachment] reads, with their contents, if all exist. *)
Definition attachment_files (files : gmap string string) (names : list string)
  : option (list (string * string)) :=
  mapM (fun name => data ← files !! path_join "attachments" name; Some (name, data))
       names.

(** The object [add_attachment] allocates for a file, and what it logs. *)
Definition attachment_node (p : string * string) : node :=
  mkNode (attachment_headers p.1) (BText p.2).

Definition attached_log (p : string * string) : event :=
  ELog DEBUG (MsgAttached p.1).

(** ** The message [app/mail/message.py]'s [build_message] assembles *)

Definition mail_content_type (env : Env) (filename : string) : string :=
  match guess_mime_type env filename with
  | (Some ct, None) => ct
  | _ => "application/octet-stream"
  end.

(** The object [mail_message.add_attachment] allocates for a file, or the
    exception it raises. *)
Definition mail_attachment (env : Env) (files : gmap string string)
    (filename : string) : exn + node :=
  match split_slash (mail_content_type env filename) with
  | None => inl (ValueError "not enough values to unpack")
  | Some (main_type, sub_type) =>
      match files !! filename with
      | None => inl (FileNotFoundError filename)
      | Some file_data =>
          let disposition :=
            mkHeader "Content-Disposition" (PStr "attachment")
              [("filename", basename filename)] in
          if String.eqb main_type "text" then
            match bytes_decode env file_data with
            | inl e => inl e
            | inr text =>
                inr (mkNode (text_headers text sub_type ++ [disposition])%list
                            (BText text))
            end
          else
            inr (mkNode (base_headers main_type sub_type ++ [disposition])%list
                        (BText file_data))
      end
  end.

Fixpoint mail_attachments (env : Env) (files : gmap string string)
    (names : list string) : exn + list node :=
  match names with
  | [] => inr []
  | name :: names' =>
      match mail_attachment env files name with
      | inl e => inl e
      | inr nd =>
          match mail_attachments env files names' with
          | inl e => inl e
          | inr nds => inr (nd :: nds)
          end
      end
  end.

Definition node_tree (n : node) : mime :=
  match n_body n with
  | BText s => MLeaf (n_headers n) s
  | BParts _ => MMulti (n_headers n) []
  end.

Definition mail_headers (destination : pyval) (sender subject : string)
  : list header :=
  [mkHeader "to" destination [];
   mkHeader "from" (PStr sender) [];
   mkHeader "subject" (PStr subject) []].

(** Without attachments the message is the HTML text itself; with
    attachments it is a [multipart/mixed] message whose first part is the
    HTML text. *)
Definition mail_tree (destination : pyval) (sender subject body : string)
    (parts : option (list node)) : mime :=
  match parts with
  | None => MLeaf (text_headers body "html" ++ mail_headers destination sender subject)%list
                  body
  | Some nds =>
      MMulti (multipart_headers "mixed" ++ mail_headers destination sender subject)%list
             (html_part body :: List.map node_tree nds)
  end.

(** ** Observations on a trace *)

(** The events the statements below speak of: file operations, pauses, Gmail
    calls, and the log lines that mark a call of [send_message], a confirmed
    send, and the failure of a recipient or of the test send.  The other log
    lines are left out. *)
Definition observable (e : event) : bool :=
  match e with
  | ELog _ (MsgSending _) | ELog _ (MsgMessageSent _ _)
  | ELog _ (MsgFailedEmail _ _) | ELog _ (MsgTestSent _)
  | ELog _ (MsgFailedTest _ _) => true
  | ELog _ _ => false
  | _ => true
  end.

Definition obs (t : list event) : list event := List.filter observable t.

(** [w'] is [w] with [delta] appended to the trace and the files untouched. *)
Definition appended (w w' : World) (delta : list event) : Prop :=
  trace w' = (trace w ++ delta)%list /\ fs w' = fs w.

(** The pause after the [n]-th send of a run, in seconds. *)
Definition pause (n : nat) : Z :=
  if (n mod 6 =? 0)%nat then 3600%Z else 600%Z.

(** The destinations of the confirmed sends recorded in a trace. *)
Definition confirmed (t : list event) : list pyval :=
  omap (fun e => match e with
                 | ELog INFO (MsgMessageSent d _) => Some d
                 | _ => None
                 end) t.

(** The envelope [raw] is what [build_message] makes of these arguments. *)
Definition built (env : Env) (config : Config) (destination : pyval)
    (subject body gif_data gif_cid raw : string) : Prop :=
  exists sender n bytes,
    cfg_sender_email config = Some sender
    /\ msg_as_bytes env n
         (message_tree destination sender subject body gif_data gif_cid [])
       = inr bytes
    /\ raw = urlsafe_b64encode bytes.

(** [raw] is the envelope of a message to [destination] whose image and HTML
    body were rendered from [recipient]'s first name and Email. *)
Definition rendered_for (env : Env) (config : Config) (subject : string)
    (recipient : Recipient) (destination : pyval) (raw : string) : Prop :=
  exists first_name email gif_data body template k,
    fields recipient !! "First Name" = Some first_name
    /\ fields recipient !! "Email" = Some email
    /\ pil_render env k (funny_text first_name) = inr gif_data
    /\ str_format env template first_name email (dynamic_image_tag gif_cid)
       = inr body
    /\ built env config destination subject body gif_data gif_cid raw.

(** The rendering and sending steps shared by the test send and by the loop:
    image, body, destination, [send_message]. *)
Definition render_and_send (env : Env) (config : Config) (subject : string)
    (recipient : Recipient) (destination : M pyval) : M pyval :=
  gif_data ← generate_funny_image env recipient;
  body ← generate_email_body env recipient gif_cid;
  d ← destination;
  send_message env d subject body gif_data gif_cid None (Some config).

(** ** The shape of a run of the sending loop *)

(** What an attempt that fails leaves in the observable trace: nothing if the
    image or the body could not be made, the [send_message] line if the
    message could not be authenticated or built, and the Gmail call as well
    if Gmail refused it. *)
Inductive failed_attempt (d : pyval) : list event -> Prop :=
| failed_before_send : failed_attempt d []
| failed_in_send : failed_attempt d [ELog INFO (MsgSending d)]
| failed_at_gateway raw :
    failed_attempt d [ELog INFO (MsgSending d); EApiSend raw].

(** What a successful iteration leaves: the call, the Gmail call, its
    confirmation, the checkpoint write, the pause. *)
Definition sent_block (e raw : string) (id : pyval) (n : nat) : list event :=
  [ELog INFO (MsgSending (PStr e)); EApiSend raw;
   ELog INFO (MsgMessageSent (PStr e) id);
   EOpenW LAST_SENT_FILE; EWrite LAST_SENT_FILE e; ESleep (pause n)].

Inductive loop_shape (recipients : list Recipient) (start_index : nat)
  : list nat -> list event -> Prop :=
| shape_end : loop_shape recipients start_index [] []
| shape_sent i r e raw id rest tail :
    recipients !! i = Some r -> has_email e r ->
    loop_shape recipients start_index rest tail ->
    loop_shape recipients start_index (i :: rest)
      (sent_block e raw id (i - start_index + 1) ++ tail)%list
| shape_failed i r e x pre rest :
    recipients !! i = Some r -> has_email e r ->
    failed_attempt (PStr e) pre ->
    loop_shape recipients start_index (i :: rest)
      (pre ++ [ELog ERROR (MsgFailedEmail (PStr e) x)])%list.

(** Every recipient's Email is a string, as the spec's data model has it. *)
Definition emails_are_strings (recipients : list Recipient) : Prop :=
  Forall (fun r => exists e, has_email e r) recipients.

(** The data written to the checkpoint file, in order. *)
Definition checkpoint_writes (t : list event) : list string :=
  omap (fun e => match e with
                 | EWrite p s => if String.eqb p LAST_SENT_FILE then Some s else None
                 | _ => None
                 end) t.

(** The file system after the checkpoint was set to each of [ws] in turn. *)
Definition checkpointed (files : gmap string string) (ws : list string)
  : gmap string string :=
  foldl (fun f s => <[LAST_SENT_FILE := s]> f) files ws.

(** ** Checks on the observable trace of a run *)

(** The checkpoint is written exactly after a confirmed send, and with that
    send's destination: every confirmation is followed at once by the opening
    of the checkpoint file and the write of the destination, and no file is
    opened or written anywhere else. *)
Fixpoint writes_follow_sends (l : list event) : bool :=
  match l with
  | [] => true
  | ELog _ (MsgMessageSent d _) :: l1 =>
      match l1 with
      | EOpenW p :: EWrite p' s :: l2 =>
          String.eqb p LAST_SENT_FILE && String.eqb p' LAST_SENT_FILE
          && bool_decide (d = PStr s) && writes_follow_sends l2
      | _ => false
      end
  | EOpenW _ :: _ => false
  | EWrite _ _ :: _ => false
  | _ :: l' => writes_follow_sends l'
  end.

(** Nothing observable comes after the log line of a failed recipient. *)
Fixpoint stops_at_failure (l : list event) : bool :=
  match l with
  | [] => true
  | ELog _ (MsgFailedEmail _ _) :: l' =>
      match l' with [] => true | _ => false end
  | _ :: l' => stops_at_failure l'
  end.

(** The pacing schedule, [k] sends of the run being confirmed so far: the
    next confirmed send is followed, after its checkpoint write, by the pause
    of send number [k + 1], and there is no other pause. *)
Fixpoint paced (k : nat) (l : list event) : bool :=
  match l with
  | [] => true
  | ELog _ (MsgMessageSent _ _) :: l1 =>
      match l1 with
      | EOpenW _ :: EWrite _ _ :: ESleep z :: l2 =>
          Z.eqb z (pause (S k)) && paced (S k) l2
      | _ => false
      end
  | ESleep _ :: _ => false
  | _ :: l' => paced k l'
  end.

(** The schedule the claim C4 describes for [n] sends that all succeed: a
    pause after each send but the last. *)
Definition schedule_without_last_pause (n : nat) : list Z :=
  List.map pause (seq 1 (n - 1)).

(** ** Test mode *)

(** What the test send leaves in the observable trace: the one call of
    [send_message] for the test address with content rendered for
    [recipient], confirmed and logged; or a failed attempt and its log
    line. *)
Inductive test_outcome (env : Env) (config : Config) (subject test_email : string)
    (recipient : Recipient) : list event -> Prop :=
| test_sent raw id :
    rendered_for env config subject recipient (PStr test_email) raw ->
    test_outcome env config subject test_email recipient
      [ELog INFO (MsgSending (PStr test_email)); EApiSend raw;
       ELog INFO (MsgMessageSent (PStr test_email) id);
       ELog INFO (MsgTestSent test_email)]
| test_failed pre x :
    failed_attempt (PStr test_email) pre ->
    (forall raw, EApiSend raw ∈ pre ->
       rendered_for env config subject recipient (PStr test_email) raw) ->
    test_outcome env config subject test_email recipient
      (pre ++ [ELog ERROR (MsgFailedTest test_email x)])%list.

(** Two worlds that differ at most in the checkpoint file and in what was
    logged so far. *)
Definition same_but_checkpoint (w1 w2 : World) : Prop :=
  clock w1 = clock w2 /\ heap w1 = heap w2
  /\ forall p, p <> LAST_SENT_FILE -> fs w1 !! p = fs w2 !! p.

(** [m] does not look at the checkpoint file: from two such worlds it gives
    the same result, appends the same events, and leaves two such worlds. *)
Definition insensitive {A} (m : M A) : Prop :=
  forall w1 w2, same_but_checkpoint w1 w2 ->
    (m w1).1 = (m w2).1
    /\ same_but_checkpoint (m w1).2 (m w2).2
    /\ exists delta,
         trace (m w1).2 = (trace w1 ++ delta)%list
         /\ trace (m w2).2 = (trace w2 ++ delta)%list.

(** The demo configuration with the test flag set. *)
Definition test_config : Config :=
  mkConfig (Some "Hello") (Some true) (Some "test@example.org")
           (Some "me@example.org").

(** The parts [mail_message.build_message] attaches after the HTML text:
    none without attachments, else the objects made for the files. *)
Definition mail_parts (env : Env) (files : gmap string string)
    (names : list string) : exn + option (list node) :=
  match names with
  | [] => inr None
  | _ =>
      match mail_attachments env files names with
      | inl e => inl e
      | inr nds => inr (Some nds)
      end
  end.

(** ** Further environments and predicates *)

(** An environment whose tokeniser stops with an error after two rows. *)
Definition broken_csv_env : Env := {|
  csv_reader := fun _ =>
    ([csv_header; ["A"; "L"; "a@x"; ""; ""; ""; ""; ""; ""]],
     Some (LibraryError "csv.Error"));
  config_parse := config_parse demo_env;
  pil_open := pil_open demo_env;
  pil_render := pil_render demo_env;
  str_format := str_format demo_env;
  authenticate := authenticate demo_env;
  api_send := api_send demo_env;
  msg_as_bytes := msg_as_bytes demo_env;
  guess_mime_type := guess_mime_type demo_env;
  bytes_decode := bytes_decode demo_env
|}.

(** The log lines of [add_attachment]. *)
Definition is_attach_log (e : event) : bool :=
  match e with
  | ELog _ (MsgAttached _) | ELog _ (MsgFailedAttach _ _) => true
  | _ => false
  end.

(** Log lines, whatever they say. *)
Definition is_log (e : event) : bool :=
  match e with ELog _ _ => true | _ => false end.

(** Log lines and calls of the Gmail client. *)
Definition is_log_or_send (e : event) : bool :=
  match e with ELog _ _ | EApiSend _ => true | _ => false end.

(** Two file systems that differ at most in the checkpoint file. *)
Definition off_checkpoint (f f' : gmap string string) : Prop :=
  forall p, p <> LAST_SENT_FILE -> f' !! p = f !! p.

#[global] Instance off_checkpoint_refl : Reflexive off_checkpoint.
Proof. intros f p _. reflexivity. Qed.

#[global] Instance off_checkpoint_trans : Transitive off_checkpoint.
Proof. intros f g h H1 H2 p Hp. rewrite (H2 p Hp). apply H1, Hp. Qed.

(** [m] keeps to [R] and [P]: it never ends the process, the files it leaves
    are related by [R] to those it found, the count of external calls does not
    go down, and it appends to the trace events that satisfy [P] only. *)
Definition keeps_to {A} (R : relation (gmap string string)) (P : event -> bool)
    (m : M A) : Prop :=
  forall w,
    (forall c, (m w).1 <> Exit c)
    /\ R (fs w) (fs (m w).2)
    /\ clock w <= clock (m w).2
    /\ exists delta, trace (m w).2 = (trace w ++ delta)%list /\ forallb P delta = true.

(** The characters of the URL-safe alphabet, and the padding. *)
Definition urlsafe_char (c : ascii) : bool :=
  let n := code c in
  (((65 <=? n) && (n <=? 90)) || ((97 <=? n) && (n <=? 122))
   || ((48 <=? n) && (n <=? 57)) || (n =? 45) || (n =? 95) || (n =? 61))%nat.

(** The path has a directory part. *)
Definition has_slash (s : string) : bool :=
  existsb (Ascii.eqb slash) (list_ascii_of_string s).

(** The recipient's Email is a string that the checkpoint store gives back
    as it is. *)
Definition clean_email (r : Recipient) : bool :=
  match fields r !! "Email" with
  | Some (PStr e) => clean e
  | _ => false
  end.

(** The [Email] entries of the recipients, in order. *)
Definition emails (recipients : list Recipient) : list (option pyval) :=
  List.map (fun r => fields r !! "Email") recipients.

(** ** Inside the rendering step: the frames of the template

    The part of [generate_funny_image] that [pil_render] stands for: the
    loop over the frames of the opened template, and the saving of the GIF.
    The operations of PIL are the fields of [Pil]; [img.seek(k)] raises
    [EOFError] exactly when the template has no frame [k]. *)

Record Pil (Frame : Type) : Type := mkPil {
  frame_count : nat;                       (* the frames the template has *)
  img_size : Z * Z;                        (* img.size *)
  convert_rgba : nat -> exn + Frame;       (* img.convert('RGBA'), img at frame k *)
  wrap : string -> list string;            (* textwrap.wrap(text, width=30) *)
  multiline_textsize : string -> Z * Z;    (* draw.multiline_textsize(..., font=font) *)
  multiline_text : Frame -> Z * Z -> string -> exn + Frame;
                                           (* draw.multiline_text((x, y), ...) *)
  convert_palette : Frame -> exn + Frame;  (* frame.convert('P', palette=ADAPTIVE) *)
  (* frames[0].save(buffer, format='GIF', ...), then buffer.read(): with
     [Some rest] the call with save_all=True and append_images=rest, with
     [None] the call for a single frame *)
  save : Frame -> option (list Frame) -> exn + string
}.
Arguments frame_count {Frame} _.
Arguments img_size {Frame} _.
Arguments convert_rgba {Frame} _ _.
Arguments wrap {Frame} _ _.
Arguments multiline_textsize {Frame} _ _.
Arguments multiline_text {Frame} _ _ _ _.
Arguments convert_palette {Frame} _ _.
Arguments save {Frame} _ _ _.

Definition EOFError : exn := LibraryError "EOFError".

Definition is_EOFError (e : exn) : bool :=
  match e with
  | LibraryError what => String.eqb what "EOFError"
  | _ => false
  end.

(** [text_x = (img.size[0] - text_width) // 2], and the same for [text_y]. *)
Definition text_position (size text_size : Z * Z) : Z * Z :=
  (((size.1 - text_size.1) / 2)%Z, ((size.2 - text_size.2) / 2)%Z).

Section Frames.
Context {Frame : Type} (pil : Pil Frame) (text : string).

(** ["\n".join(wrap(text, width=30))] *)
Definition wrapped_text : string :=
  String.concat (String LF EmptyString) (wrap pil text).

(** The body of the loop for the frame at position [k], up to the frame
    that is appended. *)
Definition draw_frame (k : nat) : exn + Frame :=
  match convert_rgba pil k with
  | inl e => inl e
  | inr frame =>
      let text_size := multiline_textsize pil wrapped_text in
      match multiline_text pil frame (text_position (img_size pil) text_size)
              wrapped_text with
      | inl e => inl e
      | inr frame =>
          match convert_palette pil frame with
          | inl e => inl e
          | inr frame => inr frame
          end
      end
  end.

(** [while True: ...; frames.append(frame); img.seek(img.tell() + 1)]: the
    exception that ends the loop and the frames appended until then; [None]
    when the fuel runs out first. *)
Fixpoint frames_loop (fuel pos : nat) (frames : list Frame)
  : option (exn * list Frame) :=
  match fuel with
  | O => None
  | S fuel' =>
      match draw_frame pos with
      | inl e => Some (e, frames)
      | inr frame =>
          let frames := (frames ++ [frame])%list in
          if (S pos <? frame_count pil)%nat
          then frames_loop fuel' (S pos) frames
          else Some (EOFError, frames)
      end
  end.

(** The [try ... except EOFError: pass] around the loop, then the save:
    all frames when there are more than one, else [frames[0]] alone. *)
Definition render_frames (fuel : nat) : option (exn + string) :=
  match frames_loop fuel 0 [] with
  | None => None
  | Some (e, frames) =>
      if is_EOFError e then
        if (1 <? length frames)%nat then
          match frames with
          | first :: others => Some (save pil first (Some others))
          | [] => Some (inl IndexError)
          end
        else
          match frames with
          | first :: _ => Some (save pil first None)
          | [] => Some (inl IndexError)
          end
      else Some (inl e)
  end.

End Frames.

(** A template of three frames that are numbers; drawing adds one hundred,
    and the GIF saved lists its frames. *)
Definition demo_pil : Pil nat := {|
  frame_count := 3;
  img_size := (200%Z, 100%Z);
  convert_rgba := fun k => inr k;
  wrap := fun text => [text];
  multiline_textsize := fun _ => (51%Z, 20%Z);
  multiline_text := fun frame _ _ => inr (frame + 100);
  convert_palette := fun frame => inr frame;
  save := fun first others =>
    inr (String.concat ","
           (List.map (fun n => String (ascii_of_nat (48 + n mod 10)) EmptyString)
              (first :: default [] others)))
|}.

(** ** Reading a message back

    [email.message_from_bytes], the inverse of [Message.as_bytes], is not
    called by the program: it is what "decoding" an envelope means.  A parser
    reads back what the serialiser of the environment writes. *)
Definition reads_back (env : Env) (message_from_bytes : string -> option mime)
  : Prop :=
  forall n tree bytes,
    msg_as_bytes env n tree = inr bytes -> message_from_bytes bytes = Some tree.

(** A serialiser that keeps everything, and its parser: the message is
    numbered (headers, payloads and parts, through the numbering of finite
    trees) and the number is written in binary, lowest digit first. *)

#[global] Instance header_eq_dec : EqDecision header.
Proof. solve_decision. Defined.

#[global] Instance pyval_countable : Countable pyval.
Proof.
  refine (inj_countable'
            (fun v => match v with PStr s => Some s | PNone => None end)
            (fun o => match o with Some s => PStr s | None => PNone end) _).
  intros []; reflexivity.
Defined.

#[global] Instance header_countable : Countable header.
Proof.
  refine (inj_countable'
            (fun h => (h_name h, h_value h, h_params h))
            (fun t => mkHeader t.1.1 t.1.2 t.2) _).
  intros []; reflexivity.
Defined.

Fixpoint mime_to_tree (m : mime) : gen_tree (list header * string) :=
  match m with
  | MLeaf hs payload => GenLeaf (hs, payload)
  | MMulti hs parts => GenNode 0 (GenLeaf (hs, "") :: List.map mime_to_tree parts)
  end.

Fixpoint tree_to_mime (t : gen_tree (list header * string)) : mime :=
  match t with
  | GenLeaf (hs, payload) => MLeaf hs payload
  | GenNode _ (GenLeaf (hs, _) :: parts) => MMulti hs (List.map tree_to_mime parts)
  | GenNode _ _ => MMulti [] []
  end.

Fixpoint pos_to_bits (p : positive) : string :=
  match p with
  | xH => EmptyString
  | xO p' => String "0" (pos_to_bits p')
  | xI p' => String "1" (pos_to_bits p')
  end.

Fixpoint bits_to_pos (s : string) : option positive :=
  match s with
  | EmptyString => Some xH
  | String c s' =>
      if Ascii.eqb c "0" then xO <$> bits_to_pos s'
      else if Ascii.eqb c "1" then xI <$> bits_to_pos s'
      else None
  end.

Definition codec_bytes (m : mime) : string :=
  pos_to_bits (encode (mime_to_tree m)).

Definition codec_parse (bytes : string) : option mime :=
  p ← bits_to_pos bytes;
  t ← decode p;
  Some (tree_to_mime t).

(** The demo environment with that serialiser. *)
Definition codec_env : Env := {|
  csv_reader := csv_reader demo_env;
  config_parse := config_parse demo_env;
  pil_open := pil_open demo_env;
  pil_render := pil_render demo_env;
  str_format := str_format demo_env;
  authenticate := authenticate demo_env;
  api_send := api_send demo_env;
  msg_as_bytes := fun _ m => inr (codec_bytes m);
  guess_mime_type := guess_mime_type demo_env;
  bytes_decode := bytes_decode demo_env
|}.

(** The checkpoint file, if there is one, holds ASCII text: text that every
    codec the locale can choose decodes, and decodes to itself. *)
Definition checkpoint_is_text (w : World) : Prop :=
  forall content, fs w !! LAST_SENT_FILE = Some content -> is_ascii content = true.

(** * Properties *)

(** ** Running the monad *)

Lemma bind_run {A B} (m : M A) (f : A -> M B) (w : World) :
  (m ≫= f) w =
  match m w with
  | (Ok a, w') => f a w'
  | (Raise e, w') => (Raise e, w')
  | (Exit c, w') => (Exit c, w')
  end.
Proof. reflexivity. Qed.

Lemma bind_ok {A B} (m : M A) (f : A -> M B) w a w' :
  m w = (Ok a, w') -> (m ≫= f) w = f a w'.
Proof. intros H. rewrite bind_run, H. reflexivity. Qed.

Lemma bind_raise {A B} (m : M A) (f : A -> M B) w e w' :
  m w = (Raise e, w') -> (m ≫= f) w = (Raise e, w').
Proof. intros H. rewrite bind_run, H. reflexivity. Qed.

Lemma bind_exit {A B} (m : M A) (f : A -> M B) w c w' :
  m w = (Exit c, w') -> (m ≫= f) w = (Exit c, w').
Proof. intros H. rewrite bind_run, H. reflexivity. Qed.

Lemma try_except_run {A} (body : M A) (handler : exn -> M A) w :
  try_except body handler w =
  match body w with
  | (Raise e, w') => handler e w'
  | r => r
  end.
Proof. reflexivity. Qed.

Lemma logging_then {A} l m (k : M A) w :
  (logging l m ;; k) w
  = k (mkWorld (fs w) (clock w) (trace w ++ [ELog l m]) (heap w)).
Proof. reflexivity. Qed.

(** ** Strings *)

Lemma universal_newlines_no_cr s : no_cr s = true -> universal_newlines s = s.
Proof.
  induction s as [|c s IH]; [reflexivity|].
  unfold no_cr. simpl. intros [Hc Hs]%andb_prop.
  destruct (Ascii.eqb c CR); [discriminate|].
  f_equal. apply IH, Hs.
Qed.

Lemma lstrip_first s c :
  first_char s = Some c -> is_space c = false -> lstrip s = s.
Proof.
  destruct s as [|c' s]; [discriminate|]. simpl.
  intros [= ->] ->. reflexivity.
Qed.

Lemma rstrip_last s c :
  last_char s = Some c -> is_space c = false -> rstrip s = s.
Proof.
  induction s as [|c' s IH]; [discriminate|].
  intros Hl Hc. simpl in *.
  destruct s as [|c'' s].
  - injection Hl as ->. simpl. rewrite Hc. reflexivity.
  - rewrite (IH Hl Hc). reflexivity.
Qed.

Lemma strip_clean s : clean s = true -> strip (universal_newlines s) = s.
Proof.
  unfold clean. intros [[Hcr Hf]%andb_prop Hl]%andb_prop.
  rewrite (universal_newlines_no_cr _ Hcr). unfold strip.
  destruct (first_char s) as [c|] eqn:Ef; [|discriminate].
  destruct (last_char s) as [c'|] eqn:El; [|discriminate].
  rewrite (lstrip_first _ _ Ef) by (destruct (is_space c); done).
  apply (rstrip_last _ _ El). destruct (is_space c'); done.
Qed.

Lemma clean_truthy s : clean s = true -> truthy s = true.
Proof. destruct s; [discriminate|reflexivity]. Qed.

Lemma is_space_LF : is_space LF = true.
Proof. reflexivity. Qed.

Lemma all_space_universal_newlines s :
  all_space s = true -> all_space (universal_newlines s) = true.
Proof.
  unfold all_space.
  assert (H : forall n s, String.length s <= n ->
            forallb is_space (list_ascii_of_string s) = true ->
            forallb is_space (list_ascii_of_string (universal_newlines s)) = true).
  { clear s. induction n as [|n IH]; intros [|c s] Hlen Hs; simpl in *;
      try reflexivity; try lia.
    apply andb_prop in Hs as [Hc Hs].
    destruct (Ascii.eqb c CR).
    - destruct s as [|c' s]; [reflexivity|]. simpl in Hs.
      apply andb_prop in Hs as [Hc' Hs].
      destruct (Ascii.eqb c' LF); simpl; rewrite ?is_space_LF; simpl.
      + apply IH; [simpl in Hlen; lia | exact Hs].
      + apply (IH (String c' s)); [simpl in *; lia |].
        simpl. rewrite Hc'. exact Hs.
    - simpl. rewrite Hc. apply IH; [lia | exact Hs]. }
  apply (H (String.length s)). lia.
Qed.

Lemma lstrip_all_space s : all_space s = true -> lstrip s = EmptyString.
Proof.
  unfold all_space. induction s as [|c s IH]; [reflexivity|].
  simpl. intros [-> Hs]%andb_prop. apply IH, Hs.
Qed.

Lemma strip_all_space s :
  all_space s = true -> strip (universal_newlines s) = EmptyString.
Proof.
  intros H. unfold strip.
  rewrite lstrip_all_space by (apply all_space_universal_newlines, H).
  reflexivity.
Qed.

(** ** The checkpoint store *)

Lemma set_last_sent_str email w :
  set_last_sent (PStr email) w =
  (Ok tt,
   mkWorld (<[LAST_SENT_FILE := email]> (fs w)) (clock w)
     (trace w ++ [EOpenW LAST_SENT_FILE; EWrite LAST_SENT_FILE email;
                  ELog DEBUG (MsgSetLastSent (PStr email))])
     (heap w)).
Proof.
  unfold set_last_sent, open_w, file_write, logging, emit.
  rewrite !bind_run. simpl.
  rewrite lookup_insert_eq, insert_insert_eq. simpl.
  rewrite <- !app_assoc. reflexivity.
Qed.

Lemma set_last_sent_none w :
  set_last_sent PNone w =
  (Raise TypeError,
   mkWorld (<[LAST_SENT_FILE := ""]> (fs w)) (clock w)
     (trace w ++ [EOpenW LAST_SENT_FILE]) (heap w)).
Proof. reflexivity. Qed.

Lemma get_last_sent_run w :
  get_last_sent w =
    (Ok (stored_value (fs w !! LAST_SENT_FILE)),
     mkWorld (fs w) (clock w)
       (trace w ++ checkpoint_log (fs w !! LAST_SENT_FILE)) (heap w)).
Proof.
  unfold get_last_sent, path_exists, read_text, logging, emit, stored_value,
    checkpoint_log.
  rewrite !bind_run.
  destruct (fs w !! LAST_SENT_FILE) as [c|] eqn:E; simpl.
  - rewrite !bind_run, E. simpl.
    destruct (truthy (strip (universal_newlines c))); reflexivity.
  - rewrite app_nil_r. destruct w; reflexivity.
Qed.

Lemma get_last_sent_value w :
  (get_last_sent w).1 = Ok (stored_value (fs w !! LAST_SENT_FILE)).
Proof. rewrite get_last_sent_run. reflexivity. Qed.

(** C7, as the claim states it, fails: a value with white space around it is
    not read back as written. *)
Lemma checkpoint_roundtrip_counterexample :
  (get_last_sent (set_last_sent (PStr " a@x.org") (world_of [])).2).1
    = Ok (Some "a@x.org")
  /\ (set_last_sent (PStr " a@x.org") (world_of [])).1 = Ok tt
  /\ Some "a@x.org" <> Some " a@x.org".
Proof. split; [reflexivity|]. split; [reflexivity|]. discriminate. Qed.

(** C7 (amended): after [set_last_sent email] returns, [get_last_sent] returns
    the written value with line ends normalised and surrounding white space
    stripped, or [None] if nothing is left; it is exactly the written value when
    that value is [clean] (non-empty, no carriage return, no white space at
    either end).  [get_last_sent] returns [None] when the file is absent, and
    when its content is empty or white space only. *)
Theorem checkpoint_roundtrip :
  (forall w email,
      (set_last_sent (PStr email) w).1 = Ok tt
      /\ (get_last_sent (set_last_sent (PStr email) w).2).1
         = Ok (stored_value (Some email)))
  /\ (forall w email, clean email = true ->
        (get_last_sent (set_last_sent (PStr email) w).2).1 = Ok (Some email))
  /\ (forall w, fs w !! LAST_SENT_FILE = None -> (get_last_sent w).1 = Ok None)
  /\ (forall w content, fs w !! LAST_SENT_FILE = Some content ->
        all_space content = true -> (get_last_sent w).1 = Ok None).
Proof.
  assert (Hrt : forall w email,
             (get_last_sent (set_last_sent (PStr email) w).2).1
             = Ok (stored_value (Some email))).
  { intros w email. rewrite get_last_sent_value, set_last_sent_str. simpl.
    rewrite lookup_insert_eq. reflexivity. }
  split; [|split; [|split]].
  - intros w email. split; [|apply Hrt].
    rewrite set_last_sent_str. reflexivity.
  - intros w email Hc. rewrite Hrt. unfold stored_value. simpl.
    rewrite (strip_clean _ Hc), (clean_truthy _ Hc). reflexivity.
  - intros w H. rewrite get_last_sent_value, H. reflexivity.
  - intros w c H Hs. rewrite get_last_sent_value, H. unfold stored_value. simpl.
    rewrite (strip_all_space _ Hs). reflexivity.
Qed.

Lemma checkpoint_roundtrip_witness :
  clean "a@x.org" = true
  /\ (get_last_sent (set_last_sent (PStr "a@x.org") (world_of [])).2).1
     = Ok (Some "a@x.org").
Proof.
  split; [reflexivity|].
  apply (proj1 (proj2 checkpoint_roundtrip)). reflexivity.
Defined.

(** ** Resume offset *)

Lemma stored_value_truthy content c :
  stored_value content = Some c -> truthy c = true.
Proof.
  unfold stored_value. destruct content as [s|]; [|discriminate].
  simpl. destruct (truthy (strip (universal_newlines s))) eqn:E; [|discriminate].
  intros [= <-]. exact E.
Qed.

Lemma py_eq_str_true v c : py_eq_str v c = true <-> v = PStr c.
Proof.
  destruct v as [s|]; simpl.
  - rewrite String.eqb_eq. split; [intros ->; reflexivity | intros [= ->]; reflexivity].
  - split; discriminate.
Qed.

Lemma find_start_first recipients : forall i c k w,
  first_match recipients c k ->
  find_start i recipients c w = (Ok (i + k + 1), w).
Proof.
  induction recipients as [|r rs IH]; intros i c k w [(r0 & Hk & Hr0) Hbefore].
  - destruct k; discriminate.
  - simpl. unfold getitem. destruct k as [|k].
    + injection Hk as ->. unfold has_email in Hr0. rewrite Hr0.
      rewrite bind_run. simpl.
      rewrite String.eqb_refl, Nat.add_0_r. reflexivity.
    + destruct (Hbefore 0 r) as [[v Hv] Hne]; [lia | reflexivity |].
      rewrite Hv, bind_run. simpl.
      destruct (py_eq_str v c) eqn:E.
      * apply py_eq_str_true in E. subst v. contradiction.
      * rewrite (IH (S i) c k w).
        -- replace (S i + k + 1) with (i + S k + 1) by lia. reflexivity.
        -- split; [exists r0; split; [exact Hk | exact Hr0]|].
           intros j r' Hj Hl. apply (Hbefore (S j) r'); [lia | exact Hl].
Qed.

Lemma find_start_none recipients : forall i c w,
  no_match recipients c ->
  find_start i recipients c w = (Ok 0, w).
Proof.
  induction recipients as [|r rs IH]; intros i c w H; [reflexivity|].
  apply Forall_cons in H as [[[v Hv] Hne] Hrs].
  simpl. unfold getitem. rewrite Hv, bind_run. simpl.
  destruct (py_eq_str v c) eqn:E.
  - apply py_eq_str_true in E. subst v. contradiction.
  - apply IH, Hrs.
Qed.

Lemma resume_offset_first recipients content c k w :
  stored_value content = Some c ->
  first_match recipients c k ->
  resume_offset recipients (stored_value content) w = (Ok (k + 1), w).
Proof.
  intros Hc Hk. rewrite Hc. simpl.
  rewrite (stored_value_truthy _ _ Hc).
  rewrite (find_start_first _ 0 c k w Hk). reflexivity.
Qed.

(** C1: for every recipient list and every value the checkpoint store can
    return, the resume offset is [k + 1] when [k] is the first index whose
    Email equals the checkpoint, and 0 when no Email equals it or the
    checkpoint is absent. *)
Theorem resume_offset_correct (recipients : list Recipient)
    (content : option string) (w : World) :
  let checkpoint := stored_value content in
  (forall c k, checkpoint = Some c -> first_match recipients c k ->
     resume_offset recipients checkpoint w = (Ok (k + 1), w))
  /\ (forall c, checkpoint = Some c -> no_match recipients c ->
        resume_offset recipients checkpoint w = (Ok 0, w))
  /\ (checkpoint = None -> resume_offset recipients checkpoint w = (Ok 0, w)).
Proof.
  intros checkpoint. split; [|split].
  - intros c k Hc Hk. apply (resume_offset_first _ _ c); assumption.
  - intros c Hc Hn. rewrite Hc. simpl.
    rewrite (stored_value_truthy _ _ Hc).
    apply find_start_none, Hn.
  - intros ->. reflexivity.
Qed.

Lemma resume_offset_correct_witness :
  let recipients := [recipient_of "A" "a@x"; recipient_of "B" "b@x";
                     recipient_of "C" "b@x"] in
  stored_value (Some "b@x") = Some "b@x"
  /\ first_match recipients "b@x" 1
  /\ resume_offset recipients (stored_value (Some "b@x")) (world_of [])
     = (Ok 2, world_of []).
Proof.
  intros recipients.
  assert (Hm : first_match recipients "b@x" 1).
  { split.
    - exists (recipient_of "B" "b@x"). split; reflexivity.
    - intros j r Hj Hl. destruct j as [|j]; [|lia].
      injection Hl as <-. split; [eexists; reflexivity|].
      unfold has_email. vm_compute. discriminate. }
  split; [reflexivity|]. split; [exact Hm|].
  apply (proj1 (resume_offset_correct recipients (Some "b@x") (world_of []))
           "b@x" 1); [reflexivity | exact Hm].
Defined.

(** ** Nothing left to send *)

Lemma required_key_some {A} key (a : A) w :
  required_key key (Some a) w = (Ok a, w).
Proof. reflexivity. Qed.

Lemma required_key_none {A} key w :
  required_key (A := A) key None w =
  (Exit 1, mkWorld (fs w) (clock w)
             (trace w ++ [ELog ERROR (MsgMissingKey key)]) (heap w)).
Proof. reflexivity. Qed.

Lemma run_keys env config recipients subject test_mode test_email w :
  cfg_subject config = Some subject ->
  cfg_test config = Some test_mode ->
  cfg_test_email_recipient config = Some test_email ->
  run env config recipients w
  = resume_and_send env config subject test_mode test_email recipients w.
Proof. unfold run. intros -> -> ->. reflexivity. Qed.

(** [start] is [run] on the configuration and the recipients it loads. *)
Lemma start_run env w content config recipients w' :
  fs w !! "config.json" = Some content ->
  config_parse env content = inr config ->
  load_recipients env RECIPIENTS_CSV
    (mkWorld (fs w) (clock w)
       (trace w ++ [ELog INFO MsgStarting; ELog INFO MsgConfigLoaded]) (heap w))
  = (Ok recipients, w') ->
  start env w = run env config recipients w'.
Proof.
  intros Hf Hc Hl. unfold start. rewrite logging_then.
  unfold load_config. rewrite bind_run, try_except_run, bind_run.
  unfold Config_init. cbn [fs]. rewrite Hf, Hc. cbn [of_sum mret M_ret].
  rewrite logging_then. cbn [fs clock trace heap mret M_ret].
  rewrite <- app_assoc. cbn [app].
  rewrite bind_run, Hl. reflexivity.
Qed.

(** C6, as the claim states it, fails: the scan stops at the first recipient
    whose Email equals the checkpoint, so when the last recipient's Email also
    occurs earlier the run goes on sending. *)
Lemma idempotent_noop_counterexample :
  let recipients := [recipient_of "A" "a@x"; recipient_of "B" "b@x";
                     recipient_of "C" "a@x"] in
  let w := world_of [(LAST_SENT_FILE, "a@x"); ("template.html", "T")] in
  (exists r, last recipients = Some r /\ has_email "a@x" r)
  /\ stored_value (fs w !! LAST_SENT_FILE) = Some "a@x"
  /\ send_calls (trace (run demo_env demo_config recipients w).2)
     = [PStr "b@x"; PStr "a@x"]
  /\ length (api_sends (trace (run demo_env demo_config recipients w).2)) = 2.
Proof.
  intros recipients w. split.
  - exists (recipient_of "C" "a@x"). split; reflexivity.
  - split; [reflexivity|]. split; vm_compute; reflexivity.
Qed.

(** C6 (amended): if the checkpoint equals the Email of the last recipient and
    no earlier recipient has that Email, the run ends at once: it returns
    normally, logs that all emails have been sent, calls neither
    [send_message] nor the Gmail client, and leaves the files alone. *)
Theorem idempotent_noop env config recipients subject test_mode test_email c w :
  cfg_subject config = Some subject ->
  cfg_test config = Some test_mode ->
  cfg_test_email_recipient config = Some test_email ->
  recipients <> [] ->
  stored_value (fs w !! LAST_SENT_FILE) = Some c ->
  first_match recipients c (length recipients - 1) ->
  run env config recipients w
  = (Ok tt, mkWorld (fs w) (clock w)
              (trace w ++ [ELog INFO (MsgLastSentRetrieved c); ELog INFO MsgAllSent])
              (heap w)).
Proof.
  intros Hs Ht He Hne Hc Hm.
  rewrite (run_keys _ _ _ _ _ _ _ Hs Ht He).
  unfold resume_and_send.
  rewrite (bind_ok _ _ _ _ _ (get_last_sent_run w)).
  pose proof (resume_offset_first recipients (fs w !! LAST_SENT_FILE) c _
    (mkWorld (fs w) (clock w)
       (trace w ++ checkpoint_log (fs w !! LAST_SENT_FILE)) (heap w))
    Hc Hm) as Hr.
  rewrite (bind_ok _ _ _ _ _ Hr).
  replace (length recipients <=? length recipients - 1 + 1)%nat with true.
  2:{ symmetry. apply Nat.leb_le. destruct recipients; [done | simpl; lia]. }
  unfold logging, emit. simpl. rewrite <- app_assoc.
  assert (Hl : checkpoint_log (fs w !! LAST_SENT_FILE)
               = [ELog INFO (MsgLastSentRetrieved c)]).
  { unfold stored_value, checkpoint_log in *.
    destruct (fs w !! LAST_SENT_FILE) as [s|]; [|discriminate]. simpl in *.
    destruct (truthy (strip (universal_newlines s))); [|discriminate].
    injection Hc as ->. reflexivity. }
  rewrite Hl. reflexivity.
Qed.

Lemma idempotent_noop_witness :
  let recipients := [recipient_of "A" "a@x"; recipient_of "B" "b@x"] in
  let w := world_of [(LAST_SENT_FILE, "b@x")] in
  run demo_env demo_config recipients w
  = (Ok tt, mkWorld (fs w) (clock w)
              (trace w ++ [ELog INFO (MsgLastSentRetrieved "b@x");
                           ELog INFO MsgAllSent])
              (heap w)).
Proof.
  intros recipients w.
  apply (idempotent_noop demo_env demo_config recipients "Hello" false
           "test@example.org" "b@x" w); try reflexivity.
  - discriminate.
  - split.
    + exists (recipient_of "B" "b@x"). split; reflexivity.
    + intros j r Hj Hl. destruct j as [|j]; [|simpl in Hj; lia].
      injection Hl as <-. split; [eexists; reflexivity|].
      unfold has_email. vm_compute. discriminate.
Defined.

(** ** Loading the recipients *)

Section DictReader.

Implicit Types (d : gmap string pyval) (h : string).

Lemma foldl_cells_other (l : list (string * string)) : forall d h,
  h ∉ l.*1 ->
  foldl (fun d p => <[p.1 := PStr p.2]> d) d l !! h = d !! h.
Proof.
  induction l as [|[n c] l IH]; intros d h Hh; [reflexivity|].
  simpl in *. apply not_elem_of_cons in Hh as [Hn Hl].
  rewrite (IH _ _ Hl). apply lookup_insert_ne. congruence.
Qed.

Lemma foldl_none_other (ks : list string) : forall d h,
  h ∉ ks ->
  foldl (fun d k => <[k := PNone]> d) d ks !! h = d !! h.
Proof.
  induction ks as [|k ks IH]; intros d h Hh; [reflexivity|].
  simpl. apply not_elem_of_cons in Hh as [Hn Hl].
  rewrite (IH _ _ Hl). apply lookup_insert_ne. congruence.
Qed.

Lemma not_elem_of_later (ns : list string) h :
  (forall j, ns !! j <> Some h) -> h ∉ ns.
Proof. intros H [j Hj]%list_elem_of_lookup. exact (H j Hj). Qed.

(** The cell under the last column named [h] is what the dict holds for
    [h]. *)
Lemma dict_zip_cell (ns : list string) : forall (cs : list string) d j h cell,
  ns !! j = Some h ->
  cs !! j = Some cell ->
  (forall j', j < j' -> ns !! j' <> Some h) ->
  foldl (fun d p => <[p.1 := PStr p.2]> d) d (zip ns cs) !! h = Some (PStr cell).
Proof.
  induction ns as [|n ns IH]; intros cs d j h cell Hn Hc Hlast.
  - destruct j; discriminate.
  - destruct cs as [|c cs]; [destruct j; discriminate|].
    simpl. destruct j as [|j].
    + injection Hn as ->. injection Hc as ->.
      rewrite foldl_cells_other.
      * apply lookup_insert_eq.
      * intros Hin. apply (not_elem_of_later ns h).
        -- intros j. apply (Hlast (S j)). lia.
        -- apply list_elem_of_fmap in Hin as ([n' c'] & -> & Hin).
           apply elem_of_zip_l in Hin. exact Hin.
    + apply (IH cs _ j h cell Hn Hc).
      intros j' Hj. apply (Hlast (S j')). lia.
Qed.

Lemma dict_of_row_cell fieldnames row j h cell :
  fieldnames !! j = Some h ->
  row !! j = Some cell ->
  (forall j', j < j' -> fieldnames !! j' <> Some h) ->
  fields (dict_of_row fieldnames row) !! h = Some (PStr cell).
Proof.
  intros Hn Hc Hlast. unfold dict_of_row, dict_zip.
  destruct (length fieldnames <? length row)%nat;
    [simpl; eapply dict_zip_cell; eauto|].
  destruct (length row <? length fieldnames)%nat;
    [|simpl; eapply dict_zip_cell; eauto].
  simpl. rewrite foldl_none_other; [eapply dict_zip_cell; eauto|].
  intros [i Hi]%list_elem_of_lookup. rewrite lookup_drop in Hi.
  apply (Hlast (length row + i)); [|exact Hi].
  apply lookup_lt_Some in Hc. lia.
Qed.

Lemma foldl_cells_keeps (l : list (string * string)) : forall d h,
  is_Some (d !! h) ->
  is_Some (foldl (fun d p => <[p.1 := PStr p.2]> d) d l !! h).
Proof.
  induction l as [|[n c] l IH]; intros d h Hh; [exact Hh|].
  simpl. apply IH. rewrite lookup_insert. case_decide; [eauto | exact Hh].
Qed.

Lemma foldl_none_keeps (ks : list string) : forall d h,
  is_Some (d !! h) \/ h ∈ ks ->
  is_Some (foldl (fun d k => <[k := PNone]> d) d ks !! h).
Proof.
  induction ks as [|k ks IH]; intros d h Hh.
  - destruct Hh as [Hh|Hh]; [exact Hh | inversion Hh].
  - simpl. apply IH. rewrite lookup_insert. case_decide.
    + left. eauto.
    + destruct Hh as [Hh|Hh]; [left; exact Hh|].
      apply elem_of_cons in Hh as [->|Hh]; [simpl in *; congruence | right; exact Hh].
Qed.

Lemma dict_fill_keys (ns : list string) : forall (cs : list string) d h,
  h ∈ ns ->
  is_Some (foldl (fun d k => <[k := PNone]> d)
             (foldl (fun d p => <[p.1 := PStr p.2]> d) d (zip ns cs))
             (drop (length cs) ns) !! h).
Proof.
  induction ns as [|n ns IH]; intros cs d h Hh; [inversion Hh|].
  destruct cs as [|c cs].
  - simpl. apply (foldl_none_keeps ns). rewrite lookup_insert.
    case_decide; [left; eauto|].
    apply elem_of_cons in Hh as [->|Hh]; [simpl in *; congruence | right; exact Hh].
  - simpl. apply elem_of_cons in Hh as [->|Hh].
    + apply foldl_none_keeps. left. apply foldl_cells_keeps.
      rewrite lookup_insert_eq. eauto.
    + apply IH, Hh.
Qed.

(** Every header of the file is a key of every row. *)
Lemma dict_of_row_keys fieldnames row h :
  h ∈ fieldnames -> is_Some (fields (dict_of_row fieldnames row) !! h).
Proof.
  intros Hh. pose proof (dict_fill_keys fieldnames row ∅ h Hh) as H.
  unfold dict_of_row, dict_zip.
  destruct (length fieldnames <? length row)%nat eqn:E1.
  - apply Nat.ltb_lt in E1. simpl.
    rewrite drop_ge in H by lia. exact H.
  - destruct (length row <? length fieldnames)%nat eqn:E2; [exact H|].
    apply Nat.ltb_ge in E1, E2. simpl.
    rewrite drop_ge in H by lia. exact H.
Qed.

End DictReader.

Lemma issubset_spec required fieldnames :
  issubset required fieldnames = true
  <-> forall h, h ∈ required -> h ∈ fieldnames.
Proof.
  unfold issubset. rewrite forallb_forall. split.
  - intros H h Hh. apply list_elem_of_In in Hh. apply H in Hh.
    apply bool_decide_eq_true in Hh. exact Hh.
  - intros H h Hh. apply bool_decide_eq_true, H, list_elem_of_In, Hh.
Qed.

(** Every recipient that [load_recipients] returns has an entry for each
    required header, [Email] among them. *)
Lemma load_recipients_have_keys env csv_file w recipients w' :
  load_recipients env csv_file w = (Ok recipients, w') ->
  Forall (fun r => forall h, h ∈ required_headers -> is_Some (fields r !! h))
         recipients
  /\ Forall has_email_key recipients.
Proof.
  intros Hrun.
  assert (Hall : Forall (fun r => forall h, h ∈ required_headers ->
                                  is_Some (fields r !! h)) recipients).
  { unfold load_recipients in Hrun. rewrite bind_run in Hrun.
    unfold path_exists in Hrun.
    destruct (bool_decide (is_Some (fs w !! csv_file))); cbn [negb] in Hrun;
      [|discriminate].
    rewrite bind_run in Hrun. unfold read_bytes in Hrun.
    destruct (fs w !! csv_file) as [content|]; [|discriminate].
    destruct (csv_reader env content) as [[|fieldnames data] err].
    - destruct err; discriminate.
    - destruct (issubset required_headers fieldnames) eqn:Hsub;
        cbn [negb] in Hrun; [|discriminate].
      destruct err; [discriminate|].
      injection Hrun as <- _. unfold dict_rows.
      apply Forall_forall. intros r Hr h Hh.
      apply list_elem_of_In, in_map_iff in Hr as (row & <- & _).
      apply dict_of_row_keys. exact (proj1 (issubset_spec _ _) Hsub h Hh). }
  split; [exact Hall|].
  eapply Forall_impl; [exact Hall|]. intros r Hr. apply Hr.
  apply list_elem_of_In. simpl. tauto.
Qed.

(** C8: a recipients file whose header row lacks a required header makes
    [load_recipients] end the process with status 1 and no list of recipients
    (a file with no header row at all raises); a file whose header row has all
    required headers, whatever other columns it has, yields one record per
    row, in file order, blank lines being passed over by the reader, and every
    cell, the empty ones included, is kept as a string under its header. *)
Theorem schema_validation env csv_file content w :
  fs w !! csv_file = Some content ->
  (forall fieldnames data err,
      csv_reader env content = (fieldnames :: data, err) ->
      (exists h, h ∈ required_headers /\ h ∉ fieldnames) ->
      load_recipients env csv_file w
      = (Exit 1, mkWorld (fs w) (clock w)
                   (trace w ++ [ELog ERROR MsgMissingHeaders]) (heap w)))
  /\ (forall err,
        csv_reader env content = ([], err) ->
        exists e, load_recipients env csv_file w = (Raise e, w))
  /\ (forall fieldnames data,
        csv_reader env content = (fieldnames :: data, None) ->
        (forall h, h ∈ required_headers -> h ∈ fieldnames) ->
        let recipients :=
          List.map (dict_of_row fieldnames)
                   (List.filter (fun row => negb (is_blank row)) data) in
        load_recipients env csv_file w
        = (Ok recipients,
           mkWorld (fs w) (clock w)
             (trace w ++ [ELog INFO (MsgLoaded (length recipients) csv_file)])
             (heap w))
        /\ forall row j h cell,
             fieldnames !! j = Some h ->
             (forall j', j < j' -> fieldnames !! j' <> Some h) ->
             row !! j = Some cell ->
             fields (dict_of_row fieldnames row) !! h = Some (PStr cell)).
Proof.
  intros Hf.
  assert (Hrun : load_recipients env csv_file w
    = let '(rows, err) := csv_reader env content in
      match rows with
      | [] => match err with Some e => raise e | None => raise TypeError end w
      | fieldnames :: data =>
          (if negb (issubset required_headers fieldnames)
           then logging ERROR MsgMissingHeaders ;; sys_exit 1
           else match err with
                | Some e => raise e
                | None =>
                    logging INFO (MsgLoaded (length (dict_rows fieldnames data))
                                            csv_file) ;;
                    mret (dict_rows fieldnames data)
                end) w
      end).
  { unfold load_recipients. rewrite bind_run. unfold path_exists.
    rewrite bool_decide_true by eauto. cbn [negb]. rewrite bind_run.
    unfold read_bytes. rewrite Hf.
    destruct (csv_reader env content) as [[|fieldnames data] err]; reflexivity. }
  rewrite Hrun. split; [|split].
  - intros fieldnames data err -> (h & Hh & Hn).
    destruct (issubset required_headers fieldnames) eqn:E; [|reflexivity].
    exfalso. apply Hn. apply (proj1 (issubset_spec _ _) E), Hh.
  - intros err ->. destruct err as [e|]; eexists; reflexivity.
  - intros fieldnames data -> Hall.
    apply issubset_spec in Hall. rewrite Hall. simpl. split; [reflexivity|].
    intros row j h cell Hn Hlast Hc. eapply dict_of_row_cell; eauto.
Qed.

Lemma schema_validation_witness :
  let content := "First Name,Last Name,Email,Phone,Address,Profession,Stage,Industry,LinkedIn,Extra"
                 ++ String LF "A,B,a@x,,,,,,,z" in
  let w := world_of [(RECIPIENTS_CSV, content)] in
  exists recipients,
    load_recipients demo_env RECIPIENTS_CSV w
    = (Ok recipients,
       mkWorld (fs w) (clock w)
         (trace w ++ [ELog INFO (MsgLoaded (length recipients) RECIPIENTS_CSV)])
         (heap w))
    /\ length recipients = 1.
Proof.
  intros content w.
  destruct (schema_validation demo_env RECIPIENTS_CSV content w eq_refl)
    as (_ & _ & H).
  destruct (H (csv_header ++ ["Extra"])%list
              [["A"; "B"; "a@x"; ""; ""; ""; ""; ""; ""; "z"]] eq_refl) as [Hl _].
  - intros h Hh. apply list_elem_of_In. apply list_elem_of_In in Hh.
    simpl in *. tauto.
  - eexists. split; [exact Hl | reflexivity].
Defined.

(** ** Building a message *)

Open Scope list_scope.

Section Heap.

Context (f : gmap string string) (c : nat) (t : list event) (H0 : list node).

Lemma heap_lookup (S : list node) k : (H0 ++ S) !! (length H0 + k) = S !! k.
Proof. rewrite lookup_app_r by lia. f_equal. lia. Qed.

Lemma new_message_at (S : list node) nd :
  new_message nd (mkWorld f c t (H0 ++ S))
  = (Ok (length H0 + length S), mkWorld f c t (H0 ++ (S ++ [nd]))).
Proof.
  unfold new_message. simpl. rewrite length_app, app_assoc. reflexivity.
Qed.

Lemma update_message_at (S : list node) k g nd :
  S !! k = Some nd ->
  update_message (length H0 + k) g (mkWorld f c t (H0 ++ S))
  = (Ok tt, mkWorld f c t (H0 ++ <[k := g nd]> S)).
Proof.
  intros Hk. unfold update_message. simpl. rewrite alter_app_r.
  do 3 f_equal. apply list_eq. intros i.
  pose proof (lookup_lt_Some _ _ _ Hk) as Hlt.
  rewrite list_lookup_alter, list_lookup_insert.
  repeat case_decide; subst; try rewrite Hk; try reflexivity;
    exfalso; intuition lia.
Qed.

Lemma add_header_at (S : list node) k hs bd name v ps :
  S !! k = Some (mkNode hs bd) ->
  add_header (length H0 + k) name v ps (mkWorld f c t (H0 ++ S))
  = (Ok tt, mkWorld f c t
              (H0 ++ <[k := mkNode (hs ++ [mkHeader name v ps]) bd]> S)).
Proof. intros Hk. unfold add_header. rewrite (update_message_at _ _ _ _ Hk). reflexivity. Qed.

Lemma set_payload_at (S : list node) k hs bd data :
  S !! k = Some (mkNode hs bd) ->
  set_payload (length H0 + k) data (mkWorld f c t (H0 ++ S))
  = (Ok tt, mkWorld f c t (H0 ++ <[k := mkNode hs (BText data)]> S)).
Proof. intros Hk. unfold set_payload. rewrite (update_message_at _ _ _ _ Hk). reflexivity. Qed.

Lemma attach_at (S : list node) k hs l part :
  S !! k = Some (mkNode hs (BParts l)) ->
  attach (length H0 + k) part (mkWorld f c t (H0 ++ S))
  = (Ok tt, mkWorld f c t (H0 ++ <[k := mkNode hs (BParts (l ++ [part]))]> S)).
Proof.
  intros Hk. unfold attach. simpl. rewrite heap_lookup, Hk.
  rewrite (update_message_at _ _ _ _ Hk). reflexivity.
Qed.

Lemma snapshot_leaf_at fuel (S : list node) k hs s :
  S !! k = Some (mkNode hs (BText s)) ->
  snapshot (Datatypes.S fuel) (H0 ++ S) (length H0 + k) = Some (MLeaf hs s).
Proof. intros Hk. simpl. rewrite heap_lookup, Hk. reflexivity. Qed.

Lemma snapshot_multi_at fuel (S : list node) k hs cs ps :
  S !! k = Some (mkNode hs (BParts cs)) ->
  Forall2 (fun id m => snapshot fuel (H0 ++ S) id = Some m) cs ps ->
  snapshot (Datatypes.S fuel) (H0 ++ S) (length H0 + k) = Some (MMulti hs ps).
Proof.
  intros Hk Hps. simpl. rewrite heap_lookup, Hk. simpl.
  apply mapM_Some_2 in Hps. rewrite Hps. reflexivity.
Qed.

(** The parts allocated one after the other from address
    [length H0 + length pre] on are leaves. *)
Lemma snapshot_leaves {X} (mk : X -> node) (tr : X -> mime) fuel (xs : list X) :
  Forall (fun x => exists hs s, mk x = mkNode hs (BText s) /\ tr x = MLeaf hs s) xs ->
  forall pre : list node,
  Forall2 (fun id m =>
             snapshot (Datatypes.S fuel) (H0 ++ (pre ++ List.map mk xs)) id
             = Some m)
    (seq (length H0 + length pre) (length xs))
    (List.map tr xs).
Proof.
  induction xs as [|x xs IH]; intros Hleaf pre; [constructor|].
  apply Forall_cons in Hleaf as [(hs & s & Hmk & Htr) Hleaf].
  simpl. constructor.
  - rewrite Htr. apply snapshot_leaf_at. rewrite Hmk.
    apply list_lookup_middle. reflexivity.
  - specialize (IH Hleaf (pre ++ [mk x])).
    rewrite <- app_assoc in IH. simpl in IH.
    rewrite length_app in IH. simpl in IH.
    replace (length H0 + (length pre + 1)) with (Datatypes.S (length H0 + length pre))
      in IH by lia.
    exact IH.
Qed.

End Heap.

(** More fuel does not change a snapshot. *)
Lemma snapshot_mono (h : list node) : forall n n' id m,
  snapshot n h id = Some m -> n <= n' -> snapshot n' h id = Some m.
Proof.
  induction n as [|n IH]; intros n' id m Hs Hle; [discriminate|].
  destruct n' as [|n']; [lia|]. simpl in *.
  destruct (h !! id) as [[hs [s|ids]]|]; simpl in *; try exact Hs.
  destruct (mapM (snapshot n h) ids) as [ps|] eqn:E; [|discriminate].
  apply mapM_Some_1 in E.
  assert (E' : Forall2 (fun x y => snapshot n' h x = Some y) ids ps).
  { eapply Forall2_impl; [exact E|]. intros x y Hxy. apply (IH n'); [exact Hxy | lia]. }
  apply mapM_Some_2 in E'. rewrite E'. exact Hs.
Qed.

Lemma insert_last {A} (l : list A) (x y : A) :
  <[length l := x]> (l ++ [y]) = l ++ [x].
Proof.
  rewrite insert_app_r_alt by lia. rewrite Nat.sub_diag. reflexivity.
Qed.

Lemma add_attachment_ok f c t H0 hs cs rest filename data :
  f !! path_join "attachments" filename = Some data ->
  add_attachment (length H0 + 0) filename
    (mkWorld f c t (H0 ++ mkNode hs (BParts cs) :: rest))
  = (Ok tt,
     mkWorld f c (t ++ [ELog DEBUG (MsgAttached filename)])
       (H0 ++ mkNode hs (BParts (cs ++ [length H0 + S (length rest)]))
           :: rest ++ [mkNode (attachment_headers filename) (BText data)])).
Proof.
  intros Hf. unfold add_attachment, try_reraise. rewrite try_except_run.
  rewrite bind_run. unfold read_bytes at 1. cbn [fs]. rewrite Hf.
  unfold MIMEBase. rewrite bind_run, new_message_at.
  set (S0 := mkNode hs (BParts cs) :: rest).
  rewrite bind_run, (set_payload_at _ _ _ _ _ (length S0) _ _ data
                       (list_lookup_middle _ _ _ _ eq_refl)).
  rewrite insert_last.
  unfold encode_base64, set_item.
  rewrite bind_run, (add_header_at _ _ _ _ _ (length S0) _ _ _ _ _
                       (list_lookup_middle _ _ _ _ eq_refl)).
  rewrite insert_last.
  rewrite bind_run, (add_header_at _ _ _ _ _ (length S0) _ _ _ _ _
                       (list_lookup_middle _ _ _ _ eq_refl)).
  rewrite insert_last.
  subst S0. cbn [app].
  rewrite bind_run, (attach_at _ _ _ _ _ 0 hs cs) by reflexivity.
  reflexivity.
Qed.

Lemma add_attachment_missing id filename w :
  fs w !! path_join "attachments" filename = None ->
  add_attachment id filename w
  = (Raise (FileNotFoundError (path_join "attachments" filename)),
     mkWorld (fs w) (clock w)
       (trace w ++ [ELog ERROR (MsgFailedAttach filename
                      (FileNotFoundError (path_join "attachments" filename)))])
       (heap w)).
Proof.
  intros Hf. unfold add_attachment, try_reraise. rewrite try_except_run.
  rewrite bind_run. unfold read_bytes at 1. rewrite Hf. reflexivity.
Qed.

Lemma for_each_attachments f c H0 hs (files : list (string * string)) :
  forall cs rest t,
  Forall (fun p => f !! path_join "attachments" p.1 = Some p.2) files ->
  for_each files.*1 (add_attachment (length H0 + 0))
    (mkWorld f c t (H0 ++ mkNode hs (BParts cs) :: rest))
  = (Ok tt,
     mkWorld f c (t ++ List.map attached_log files)
       (H0 ++ mkNode hs (BParts (cs ++ seq (length H0 + S (length rest))
                                           (length files)))
           :: rest ++ List.map attachment_node files)).
Proof.
  induction files as [|[name data] files IH]; intros cs rest t Hall.
  - simpl. rewrite !app_nil_r. reflexivity.
  - apply Forall_cons in Hall as [Hf Hall]. simpl in Hf.
    cbn [fmap list_fmap fst for_each].
    rewrite bind_run, (add_attachment_ok _ _ _ _ _ _ _ _ _ Hf).
    rewrite (IH _ _ _ Hall). cbn [List.map length seq].
    rewrite length_app. cbn [length].
    rewrite <- !app_assoc. cbn [app].
    replace (length H0 + S (length rest + 1)) with (S (length H0 + S (length rest)))
      by lia.
    reflexivity.
Qed.

Lemma attachment_files_spec f names files :
  attachment_files f names = Some files ->
  names = files.*1
  /\ Forall (fun p => f !! path_join "attachments" p.1 = Some p.2) files.
Proof.
  unfold attachment_files. intros H. apply mapM_Some_1 in H.
  induction H as [|name [n d] names files Hx _ [IH1 IH2]]; [split; constructor|].
  destruct (f !! path_join "attachments" name) as [data|] eqn:E; [|discriminate].
  simpl in Hx. injection Hx as <- <-.
  split; [simpl; f_equal; exact IH1 | constructor; [exact E | exact IH2]].
Qed.

Lemma attachments_loop (attachments : option (list string)) (id : nat) :
  match attachments with
  | Some ((_ :: _) as l) => for_each l (add_attachment id)
  | _ => mret tt
  end = for_each (attachment_names attachments) (add_attachment id).
Proof. destruct attachments as [[|? ?]|]; reflexivity. Qed.

Lemma for_each_attachments_fail f c H0 hs (names : list string) :
  attachment_files f names = None ->
  forall cs rest t,
  exists e w',
    for_each names (add_attachment (length H0 + 0))
      (mkWorld f c t (H0 ++ mkNode hs (BParts cs) :: rest))
    = (Raise e, w').
Proof.
  unfold attachment_files.
  induction names as [|name names IH]; intros Hnone cs rest t; [discriminate|].
  cbn [for_each]. rewrite bind_run.
  destruct (f !! path_join "attachments" name) as [data|] eqn:E.
  - rewrite (add_attachment_ok _ _ _ _ _ _ _ _ _ E).
    apply IH. simpl in Hnone. rewrite E in Hnone. simpl in Hnone.
    destruct (mapM _ names); [discriminate | reflexivity].
  - rewrite add_attachment_missing by exact E. eexists _, _. reflexivity.
Qed.

(** [build_message] of [app/__init__.py] when the sender is configured: if
    the attachments can be read it serialises [message_tree] and encodes the
    bytes, and only the serialiser can still fail; if one cannot be read it
    raises. *)
Lemma build_message_run env destination subject body gif_data gif_cid
    attachments config sender f c t H0 :
  cfg_sender_email config = Some sender ->
  match attachment_files f (attachment_names attachments) with
  | Some files =>
      exists h,
        build_message env destination subject body gif_data gif_cid attachments
          (Some config) (mkWorld f c t H0)
        = (match msg_as_bytes env c
                   (message_tree destination sender subject body gif_data
                      gif_cid files)
           with
           | inl e => Raise e
           | inr bytes => Ok (mkEnvelope (urlsafe_b64encode bytes))
           end,
           mkWorld f (S c) (t ++ List.map attached_log files) h)
  | None =>
      exists e w',
        build_message env destination subject body gif_data gif_cid attachments
          (Some config) (mkWorld f c t H0)
        = (Raise e, w')
  end.
Proof.
  intros Hs.
  unfold build_message. rewrite Hs.
  unfold MIMEMultipart, MIMEText, MIMEImage, set_item, config_get.
  replace (mkWorld f c t H0) with (mkWorld f c t (H0 ++ []))
    by (rewrite app_nil_r; reflexivity).
  rewrite bind_run, new_message_at. cbn [length app].
  rewrite bind_run, (add_header_at _ _ _ _ _ 0 _ _) by reflexivity.
  rewrite bind_run. cbn [mret M_ret].
  rewrite bind_run, (add_header_at _ _ _ _ _ 0 _ _) by reflexivity.
  rewrite bind_run, (add_header_at _ _ _ _ _ 0 _ _) by reflexivity.
  cbn [insert list_insert app].
  rewrite bind_run, new_message_at. cbn [length app].
  rewrite bind_run, (attach_at _ _ _ _ _ 0 _ _) by reflexivity.
  cbn [insert list_insert app].
  rewrite bind_run, new_message_at. cbn [length app].
  rewrite bind_run, (attach_at _ _ _ _ _ 1 _ _) by reflexivity.
  cbn [insert list_insert app].
  destruct (attachment_files f (attachment_names attachments)) as [files|] eqn:Hfiles.
  2:{ destruct (truthy gif_data && truthy gif_cid).
      - rewrite bind_run, bind_run, new_message_at. cbn [length app].
        rewrite bind_run, (add_header_at _ _ _ _ _ 3 _ _) by reflexivity.
        rewrite bind_run, (add_header_at _ _ _ _ _ 3 _ _) by reflexivity.
        cbn [insert list_insert app].
        rewrite (attach_at _ _ _ _ _ 0 _ _) by reflexivity.
        cbn [insert list_insert app].
        rewrite bind_run, attachments_loop.
        edestruct (for_each_attachments_fail f c H0) as (e & w' & ->);
          [exact Hfiles|].
        eexists _, _. reflexivity.
      - rewrite bind_run. cbn [mret M_ret].
        rewrite bind_run, attachments_loop.
        edestruct (for_each_attachments_fail f c H0) as (e & w' & ->);
          [exact Hfiles|].
        eexists _, _. reflexivity. }
  apply attachment_files_spec in Hfiles as [Hn Hall].
  assert (Hleaf : Forall (fun p : string * string => exists hs s,
             attachment_node p = mkNode hs (BText s)
             /\ (fun p => attachment_part p.1 p.2) p = MLeaf hs s) files).
  { apply Forall_forall. intros p _. eexists _, _. split; reflexivity. }
  set (tree := message_tree destination sender subject body gif_data gif_cid files).
  assert (Hfin : forall cs rest t',
    2 <= length rest ->
    Forall2 (fun id m =>
               snapshot 2
                 (H0 ++ mkNode (root_headers destination sender subject)
                          (BParts (cs ++ seq (length H0 + S (length rest))
                                             (length files)))
                        :: rest ++ List.map attachment_node files) id = Some m)
      (cs ++ seq (length H0 + S (length rest)) (length files)) (mime_parts tree) ->
    exists h,
      (as_bytes env (length H0 + 0)
         ≫= (fun bytes => mret (mkEnvelope (urlsafe_b64encode bytes))))
        (mkWorld f c t'
           (H0 ++ mkNode (root_headers destination sender subject)
                    (BParts (cs ++ seq (length H0 + S (length rest))
                                       (length files)))
                  :: rest ++ List.map attachment_node files))
      = (match msg_as_bytes env c tree with
         | inl e => Raise e
         | inr bytes => Ok (mkEnvelope (urlsafe_b64encode bytes))
         end, mkWorld f (S c) t' h)).
  { intros cs rest t' Hlen Hparts.
    rewrite bind_run. unfold as_bytes. cbn [heap].
    rewrite (snapshot_mono _ 3 _ _ tree).
    - unfold external. cbn [clock fs trace heap].
      eexists. destruct (msg_as_bytes env c tree); reflexivity.
    - apply (snapshot_multi_at H0 _ (_ :: _) 0 _ _ (mime_parts tree) eq_refl Hparts).
    - rewrite length_app. cbn [length]. rewrite length_app. lia. }
  subst tree. unfold message_tree, image_parts in *. cbn [mime_parts] in Hfin.
  destruct (truthy gif_data && truthy gif_cid).
  - rewrite bind_run, bind_run, new_message_at. cbn [length app].
    rewrite bind_run, (add_header_at _ _ _ _ _ 3 _ _) by reflexivity.
    rewrite bind_run, (add_header_at _ _ _ _ _ 3 _ _) by reflexivity.
    cbn [insert list_insert app].
    rewrite (attach_at _ _ _ _ _ 0 _ _) by reflexivity.
    cbn [insert list_insert app].
    rewrite bind_run, attachments_loop, Hn, (for_each_attachments _ _ _ _ _ _ _ _ Hall).
    apply (Hfin [_; _] [_; _; _]); [simpl; lia|].
    cbn [app length].
    constructor; [|constructor].
    + eapply snapshot_multi_at; [reflexivity|].
      constructor; [|constructor]. apply snapshot_leaf_at. reflexivity.
    + apply snapshot_leaf_at. reflexivity.
    + apply (snapshot_leaves H0 attachment_node
               (fun p => attachment_part p.1 p.2) 1 files Hleaf [_; _; _; _]).
  - rewrite bind_run. cbn [mret M_ret].
    rewrite bind_run, attachments_loop, Hn, (for_each_attachments _ _ _ _ _ _ _ _ Hall).
    apply (Hfin [_] [_; _]); [simpl; lia|].
    cbn [app length].
    constructor.
    + eapply snapshot_multi_at; [reflexivity|].
      constructor; [|constructor]. apply snapshot_leaf_at. reflexivity.
    + apply (snapshot_leaves H0 attachment_node
               (fun p => attachment_part p.1 p.2) 1 files Hleaf [_; _; _]).
Qed.

(** ** Transport encoding *)

Lemma b64_char_index n :
  (n < 64)%N ->
  b64_index (b64_char n) = Some n /\ Ascii.eqb (b64_char n) b64_pad = false.
Proof.
  intros Hn.
  assert (Hall : forallb (fun k =>
            match b64_index (b64_char (N.of_nat k)) with
            | Some m => N.eqb m (N.of_nat k)
            | None => false
            end && negb (Ascii.eqb (b64_char (N.of_nat k)) b64_pad))
            (seq 0 64) = true) by (vm_compute; reflexivity).
  rewrite forallb_forall in Hall.
  assert (Hin : In (N.to_nat n) (seq 0 64)) by (apply in_seq; lia).
  apply Hall in Hin. rewrite N2Nat.id in Hin.
  apply andb_prop in Hin as [H1 H2].
  destruct (b64_index (b64_char n)) as [m|]; [|discriminate].
  apply N.eqb_eq in H1. subst m. split; [reflexivity|].
  destruct (Ascii.eqb (b64_char n) b64_pad); [discriminate | reflexivity].
Qed.

Lemma b64_pad_pad : Ascii.eqb b64_pad b64_pad = true.
Proof. reflexivity. Qed.

Lemma append_cons c s r : (String c s ++ r)%string = String c (s ++ r)%string.
Proof. reflexivity. Qed.

Lemma append_nil r : (EmptyString ++ r)%string = r.
Proof. reflexivity. Qed.

Section Groups.

Local Open Scope N_scope.

Ltac euclid := zify; Z.to_euclidean_division_equations; lia.

Lemma dec_group_digits i1 i2 i3 i4 :
  i1 < 64 -> i2 < 64 -> i3 < 64 -> i4 < 64 ->
  dec_group (b64_char i1) (b64_char i2) (b64_char i3) (b64_char i4)
  = let n := i1 * 262144 + i2 * 4096 + i3 * 64 + i4 in
    Some (String (ascii_of_N (n / 65536))
            (String (ascii_of_N ((n / 256) mod 256))
               (String (ascii_of_N (n mod 256)) EmptyString))).
Proof.
  intros H1 H2 H3 H4. unfold dec_group.
  destruct (b64_char_index i1 H1) as [-> _].
  destruct (b64_char_index i2 H2) as [-> _].
  destruct (b64_char_index i3 H3) as [E3 ->].
  destruct (b64_char_index i4 H4) as [E4 ->].
  simpl. rewrite E3. simpl. rewrite E4. reflexivity.
Qed.

Lemma dec_group_pad1 i1 i2 i3 :
  i1 < 64 -> i2 < 64 -> i3 < 64 ->
  dec_group (b64_char i1) (b64_char i2) (b64_char i3) b64_pad
  = let n := i1 * 262144 + i2 * 4096 + i3 * 64 in
    Some (String (ascii_of_N (n / 65536))
            (String (ascii_of_N ((n / 256) mod 256)) EmptyString)).
Proof.
  intros H1 H2 H3. unfold dec_group.
  destruct (b64_char_index i1 H1) as [-> _].
  destruct (b64_char_index i2 H2) as [-> _].
  destruct (b64_char_index i3 H3) as [E3 ->].
  simpl. rewrite E3. reflexivity.
Qed.

Lemma dec_group_pad2 i1 i2 :
  i1 < 64 -> i2 < 64 ->
  dec_group (b64_char i1) (b64_char i2) b64_pad b64_pad
  = let n := i1 * 262144 + i2 * 4096 in
    Some (String (ascii_of_N (n / 65536)) EmptyString).
Proof.
  intros H1 H2. unfold dec_group.
  destruct (b64_char_index i1 H1) as [-> _].
  destruct (b64_char_index i2 H2) as [-> _].
  reflexivity.
Qed.

Lemma dec_enc3 a b c rest :
  urlsafe_b64decode (enc3 a b c ++ rest)%string
  = r ← urlsafe_b64decode rest;
    Some (String a (String b (String c r))).
Proof.
  pose proof (N_ascii_bounded a) as Ha.
  pose proof (N_ascii_bounded b) as Hb.
  pose proof (N_ascii_bounded c) as Hc.
  unfold enc3. cbn zeta.
  set (n := N_of_ascii a * 65536 + N_of_ascii b * 256 + N_of_ascii c).
  rewrite !append_cons, append_nil. cbn [urlsafe_b64decode].
  assert (H1 : n / 262144 < 64) by (subst n; euclid).
  assert (H2 : (n / 4096) mod 64 < 64) by (apply N.mod_lt; discriminate).
  assert (H3 : (n / 64) mod 64 < 64) by (apply N.mod_lt; discriminate).
  assert (H4 : n mod 64 < 64) by (apply N.mod_lt; discriminate).
  rewrite (dec_group_digits _ _ _ _ H1 H2 H3 H4).
  destruct (b64_char_index _ H4) as [_ ->].
  cbn zeta.
  replace (n / 262144 * 262144 + (n / 4096) mod 64 * 4096 + (n / 64) mod 64 * 64
           + n mod 64) with n by euclid.
  replace (n / 65536) with (N_of_ascii a) by (subst n; euclid).
  replace ((n / 256) mod 256) with (N_of_ascii b) by (subst n; euclid).
  replace (n mod 256) with (N_of_ascii c) by (subst n; euclid).
  rewrite !ascii_N_embedding. simpl.
  destruct (urlsafe_b64decode rest); reflexivity.
Qed.

Lemma dec_enc2 a b :
  urlsafe_b64decode (enc2 a b) = Some (String a (String b EmptyString)).
Proof.
  pose proof (N_ascii_bounded a) as Ha.
  pose proof (N_ascii_bounded b) as Hb.
  unfold enc2. cbn zeta.
  set (n := N_of_ascii a * 65536 + N_of_ascii b * 256).
  cbn [urlsafe_b64decode].
  assert (H1 : n / 262144 < 64) by (subst n; euclid).
  assert (H2 : (n / 4096) mod 64 < 64) by (apply N.mod_lt; discriminate).
  assert (H3 : (n / 64) mod 64 < 64) by (apply N.mod_lt; discriminate).
  rewrite (dec_group_pad1 _ _ _ H1 H2 H3). rewrite b64_pad_pad.
  cbn zeta.
  replace (n / 262144 * 262144 + (n / 4096) mod 64 * 4096 + (n / 64) mod 64 * 64)
    with n by (subst n; euclid).
  replace (n / 65536) with (N_of_ascii a) by (subst n; euclid).
  replace ((n / 256) mod 256) with (N_of_ascii b) by (subst n; euclid).
  rewrite !ascii_N_embedding. reflexivity.
Qed.

Lemma dec_enc1 a :
  urlsafe_b64decode (enc1 a) = Some (String a EmptyString).
Proof.
  pose proof (N_ascii_bounded a) as Ha.
  unfold enc1. cbn zeta.
  set (n := N_of_ascii a * 65536).
  cbn [urlsafe_b64decode].
  assert (H1 : n / 262144 < 64) by (subst n; euclid).
  assert (H2 : (n / 4096) mod 64 < 64) by (apply N.mod_lt; discriminate).
  rewrite (dec_group_pad2 _ _ H1 H2). rewrite b64_pad_pad.
  cbn zeta.
  replace (n / 262144 * 262144 + (n / 4096) mod 64 * 4096)
    with n by (subst n; euclid).
  replace (n / 65536) with (N_of_ascii a) by (subst n; euclid).
  rewrite !ascii_N_embedding. reflexivity.
Qed.

End Groups.

(** Decoding undoes encoding, for every byte string. *)
Lemma urlsafe_b64_roundtrip s :
  urlsafe_b64decode (urlsafe_b64encode s) = Some s.
Proof.
  assert (H : forall n s, String.length s <= n ->
            urlsafe_b64decode (urlsafe_b64encode s) = Some s).
  { clear s. induction n as [|n IH]; intros s Hlen.
    - destruct s; [reflexivity | simpl in Hlen; lia].
    - destruct s as [|a [|b [|c rest]]].
      + reflexivity.
      + apply dec_enc1.
      + apply dec_enc2.
      + cbn [urlsafe_b64encode]. rewrite dec_enc3.
        rewrite IH by (simpl in Hlen; lia). reflexivity. }
  apply (H (String.length s)). lia.
Qed.

(** ** [app/mail/message.py] *)

Lemma mail_add_attachment_run env f c t H0 hs cs rest filename :
  mail_message.add_attachment env (length H0 + 0) filename
    (mkWorld f c t (H0 ++ mkNode hs (BParts cs) :: rest))
  = match mail_attachment env f filename with
    | inr nd =>
        (Ok tt,
         mkWorld f c t
           (H0 ++ mkNode hs (BParts (cs ++ [length H0 + S (length rest)]))
               :: rest ++ [nd]))
    | inl e => (Raise e, mkWorld f c t (H0 ++ mkNode hs (BParts cs) :: rest))
    end.
Proof.
  unfold mail_message.add_attachment, mail_attachment, mail_content_type.
  destruct (guess_mime_type env filename) as [ct enc].
  destruct (split_slash _) as [[main_type sub_type]|]; [|reflexivity].
  rewrite bind_run. cbn [mret M_ret].
  rewrite bind_run. unfold read_bytes at 1. cbn [fs].
  destruct (f !! filename) as [data|]; [|reflexivity].
  set (S0 := mkNode hs (BParts cs) :: rest).
  destruct (String.eqb main_type "text").
  - rewrite !bind_run. destruct (bytes_decode env data) as [e|text]; [reflexivity|].
    cbn [of_sum mret M_ret]. unfold MIMEText. rewrite new_message_at.
    rewrite bind_run, (add_header_at _ _ _ _ _ (length S0) _ _ _ _ _
               (list_lookup_middle _ _ _ _ eq_refl)).
    rewrite insert_last. subst S0. cbn [app].
    rewrite (attach_at _ _ _ _ _ 0 hs cs) by reflexivity.
    reflexivity.
  - rewrite !bind_run. unfold MIMEBase. rewrite new_message_at.
    rewrite bind_run, (set_payload_at _ _ _ _ _ (length S0) _ _ data
               (list_lookup_middle _ _ _ _ eq_refl)).
    rewrite insert_last. cbn [mret M_ret].
    rewrite bind_run, (add_header_at _ _ _ _ _ (length S0) _ _ _ _ _
               (list_lookup_middle _ _ _ _ eq_refl)).
    rewrite insert_last. subst S0. cbn [app].
    rewrite (attach_at _ _ _ _ _ 0 hs cs) by reflexivity.
    reflexivity.
Qed.

Lemma mail_attachment_leaf env f filename nd :
  mail_attachment env f filename = inr nd ->
  exists hs s, nd = mkNode hs (BText s) /\ node_tree nd = MLeaf hs s.
Proof.
  unfold mail_attachment.
  destruct (split_slash _) as [[main_type sub_type]|]; [|discriminate].
  destruct (f !! filename) as [data|]; [|discriminate].
  destruct (String.eqb main_type "text").
  - destruct (bytes_decode env data); [discriminate|].
    intros [= <-]. eexists _, _. split; reflexivity.
  - intros [= <-]. eexists _, _. split; reflexivity.
Qed.

Lemma mail_attachments_leaves env f names : forall nds,
  mail_attachments env f names = inr nds ->
  Forall (fun nd => exists hs s, nd = mkNode hs (BText s)
                                 /\ node_tree nd = MLeaf hs s) nds.
Proof.
  induction names as [|name names IH]; intros nds; simpl.
  - intros [= <-]. constructor.
  - destruct (mail_attachment env f name) as [e|nd] eqn:E; [discriminate|].
    destruct (mail_attachments env f names) as [e|nds']; [discriminate|].
    intros [= <-]. constructor; [eapply mail_attachment_leaf, E | apply IH; reflexivity].
Qed.

Lemma mail_for_each env f c t H0 hs names : forall cs rest,
  exists h,
    for_each names (mail_message.add_attachment env (length H0 + 0))
      (mkWorld f c t (H0 ++ mkNode hs (BParts cs) :: rest))
    = match mail_attachments env f names with
      | inr nds =>
          (Ok tt,
           mkWorld f c t
             (H0 ++ mkNode hs (BParts (cs ++ seq (length H0 + S (length rest))
                                                 (length nds)))
                 :: rest ++ nds))
      | inl e => (Raise e, mkWorld f c t h)
      end.
Proof.
  induction names as [|name names IH]; intros cs rest.
  - exists []. simpl. rewrite !app_nil_r. reflexivity.
  - cbn [for_each mail_attachments].
    rewrite bind_run, mail_add_attachment_run.
    destruct (mail_attachment env f name) as [e|nd]; [eexists; reflexivity|].
    destruct (IH (cs ++ [length H0 + S (length rest)]) (rest ++ [nd])) as [h Hh].
    rewrite Hh. exists h.
    destruct (mail_attachments env f names) as [e|nds]; [reflexivity|].
    cbn [length seq]. rewrite length_app. cbn [length].
    rewrite <- !app_assoc. cbn [app].
    replace (length H0 + S (length rest + 1)) with (S (length H0 + S (length rest)))
      by lia.
    reflexivity.
Qed.

(** [build_message] of [app/mail/message.py] when the sender is configured:
    it fails if an attachment does, and otherwise serialises [mail_tree]. *)
Lemma mail_build_message_run env destination subject body attachments config
    sender f c t H0 :
  cfg_sender_email config = Some sender ->
  exists h,
    mail_message.build_message env destination subject body attachments
      (Some config) (mkWorld f c t H0)
    = match attachment_names attachments with
      | [] =>
          (match msg_as_bytes env c
                   (mail_tree destination sender subject body None) with
           | inl e => Raise e
           | inr bytes => Ok (mkEnvelope (urlsafe_b64encode bytes))
           end, mkWorld f (S c) t h)
      | names =>
          match mail_attachments env f names with
          | inl e => (Raise e, mkWorld f c t h)
          | inr nds =>
              (match msg_as_bytes env c
                       (mail_tree destination sender subject body (Some nds)) with
               | inl e => Raise e
               | inr bytes => Ok (mkEnvelope (urlsafe_b64encode bytes))
               end, mkWorld f (S c) t h)
          end
      end.
Proof.
  intros Hs. unfold mail_message.build_message.
  replace (mkWorld f c t H0) with (mkWorld f c t (H0 ++ []))
    by (rewrite app_nil_r; reflexivity).
  assert (Hno : exists h,
    (MIMEText body "html" ≫= fun message =>
       set_item message "to" destination ;;
       sender ← config_get "sender_email" (cfg_sender_email config);
       set_item message "from" (PStr sender) ;;
       set_item message "subject" (PStr subject) ;;
       bytes ← as_bytes env message;
       mret (mkEnvelope (urlsafe_b64encode bytes)))
      (mkWorld f c t (H0 ++ []))
    = (match msg_as_bytes env c
               (mail_tree destination sender subject body None) with
       | inl e => Raise e
       | inr bytes => Ok (mkEnvelope (urlsafe_b64encode bytes))
       end, mkWorld f (S c) t h)).
  { unfold MIMEText, set_item, config_get. rewrite Hs.
    rewrite bind_run, new_message_at. cbn [length app].
    rewrite bind_run, (add_header_at _ _ _ _ _ 0 _ _) by reflexivity.
    rewrite bind_run. cbn [mret M_ret].
    rewrite bind_run, (add_header_at _ _ _ _ _ 0 _ _) by reflexivity.
    rewrite bind_run, (add_header_at _ _ _ _ _ 0 _ _) by reflexivity.
    cbn [insert list_insert app].
    rewrite bind_run. unfold as_bytes. cbn [heap].
    rewrite (snapshot_mono _ 1 _ _ (mail_tree destination sender subject body None)).
    - unfold external. cbn [clock fs trace heap].
      eexists. destruct (msg_as_bytes env c _); reflexivity.
    - unfold mail_tree, mail_headers. rewrite <- !app_assoc.
      apply snapshot_leaf_at. reflexivity.
    - lia. }
  destruct attachments as [[|name names]|]; cbn [attachment_names default from_option id];
    try exact Hno.
  clear Hno. unfold MIMEMultipart, MIMEText, set_item, config_get. rewrite Hs.
  rewrite bind_run, bind_run, new_message_at. cbn [length app].
  rewrite bind_run, new_message_at. cbn [length app].
  rewrite bind_run, (attach_at _ _ _ _ _ 0 _ _) by reflexivity.
  cbn [insert list_insert app].
  rewrite bind_run.
  destruct (mail_for_each env f c t H0 (multipart_headers "mixed") (name :: names)
              [length H0 + 1] [mkNode (text_headers body "html") (BText body)])
    as [h Hh].
  rewrite Hh.
  destruct (mail_attachments env f (name :: names)) as [e|nds] eqn:E;
    [exists h; reflexivity|].
  cbn [mret M_ret].
  rewrite bind_run, (add_header_at _ _ _ _ _ 0 _ _) by reflexivity.
  rewrite bind_run. cbn [mret M_ret].
  rewrite bind_run, (add_header_at _ _ _ _ _ 0 _ _) by reflexivity.
  rewrite bind_run, (add_header_at _ _ _ _ _ 0 _ _) by reflexivity.
  cbn [insert list_insert app length].
  rewrite bind_run. unfold as_bytes. cbn [heap].
  rewrite (snapshot_mono _ 2 _ _ (mail_tree destination sender subject body (Some nds))).
  - unfold external. cbn [clock fs trace heap].
    eexists. destruct (msg_as_bytes env c _); reflexivity.
  - unfold mail_tree, mail_headers. rewrite <- !app_assoc.
    eapply snapshot_multi_at; [reflexivity|].
    cbn [app]. constructor.
    + apply snapshot_leaf_at. reflexivity.
    + match goal with
      | |- context [H0 ++ ?r :: ?x :: nds] =>
          pose proof (snapshot_leaves H0 (fun nd => nd) node_tree 0 nds
                        (mail_attachments_leaves _ _ _ _ E) [r; x]) as Hl
      end.
      rewrite map_id in Hl. exact Hl.
  - rewrite length_app. cbn [length]. lia.
Qed.

(** ** What the message holds *)

Lemma contains_html_part body :
  contains_leaf "text/html" body (html_part body) = true.
Proof.
  unfold html_part, text_headers. cbn [contains_leaf has_content_type existsb].
  rewrite (String.eqb_refl body), andb_true_r.
  apply orb_true_iff. left. apply andb_true_iff. split; [reflexivity|].
  apply bool_decide_eq_true. reflexivity.
Qed.

Lemma message_tree_holds destination sender subject body gif_data gif_cid files :
  let tree := message_tree destination sender subject body gif_data gif_cid files in
  get_header "to" tree = Some destination
  /\ get_header "from" tree = Some (PStr sender)
  /\ get_header "subject" tree = Some (PStr subject)
  /\ contains_leaf "text/html" body tree = true.
Proof.
  repeat split; try reflexivity.
  unfold message_tree, alternative_part.
  cbn [contains_leaf existsb app]. rewrite contains_html_part. reflexivity.
Qed.

Lemma mail_tree_holds destination sender subject body parts :
  let tree := mail_tree destination sender subject body parts in
  get_header "to" tree = Some destination
  /\ get_header "from" tree = Some (PStr sender)
  /\ get_header "subject" tree = Some (PStr subject)
  /\ contains_leaf "text/html" body tree = true.
Proof.
  destruct parts as [nds|]; repeat split; try reflexivity.
  - unfold mail_tree. cbn [contains_leaf existsb].
    rewrite contains_html_part. reflexivity.
  - apply (contains_html_part body).
Qed.

Lemma mail_build_message_no_sender env destination subject body attachments
    config f c t H0 :
  cfg_sender_email config = None ->
  exists e w',
    mail_message.build_message env destination subject body attachments
      (Some config) (mkWorld f c t H0)
    = (Raise e, w').
Proof.
  intros Hs. unfold mail_message.build_message.
  replace (mkWorld f c t H0) with (mkWorld f c t (H0 ++ []))
    by (rewrite app_nil_r; reflexivity).
  assert (Hno : exists e w',
    (MIMEText body "html" ≫= fun message =>
       set_item message "to" destination ;;
       sender ← config_get "sender_email" (cfg_sender_email config);
       set_item message "from" (PStr sender) ;;
       set_item message "subject" (PStr subject) ;;
       bytes ← as_bytes env message;
       mret (mkEnvelope (urlsafe_b64encode bytes)))
      (mkWorld f c t (H0 ++ []))
    = (Raise e, w')).
  { unfold MIMEText, set_item, config_get. rewrite Hs.
    rewrite bind_run, new_message_at. cbn [length app].
    rewrite bind_run, (add_header_at _ _ _ _ _ 0 _ _) by reflexivity.
    eexists _, _. reflexivity. }
  destruct attachments as [[|name names]|]; try exact Hno.
  clear Hno. unfold MIMEMultipart, MIMEText, set_item, config_get. rewrite Hs.
  rewrite bind_run, bind_run, new_message_at. cbn [length app].
  rewrite bind_run, new_message_at. cbn [length app].
  rewrite bind_run, (attach_at _ _ _ _ _ 0 _ _) by reflexivity.
  cbn [insert list_insert app].
  rewrite bind_run.
  destruct (mail_for_each env f c t H0 (multipart_headers "mixed") (name :: names)
              [length H0 + 1] [mkNode (text_headers body "html") (BText body)])
    as [h Hh].
  rewrite Hh.
  destruct (mail_attachments env f (name :: names)) as [e|nds];
    [eexists _, _; reflexivity|].
  cbn [mret M_ret].
  rewrite bind_run, (add_header_at _ _ _ _ _ 0 _ _) by reflexivity.
  eexists _, _. reflexivity.
Qed.

Lemma bits_to_pos_to_bits p : bits_to_pos (pos_to_bits p) = Some p.
Proof.
  induction p as [p IH|p IH|]; cbn [pos_to_bits bits_to_pos];
    [| |reflexivity]; cbn [Ascii.eqb Bool.eqb]; rewrite IH; reflexivity.
Qed.

Lemma tree_to_mime_to_tree m : tree_to_mime (mime_to_tree m) = m.
Proof.
  revert m. fix IH 1. intros [hs payload|hs parts]; [reflexivity|].
  cbn [mime_to_tree tree_to_mime]. f_equal.
  induction parts as [|p parts IHp]; [reflexivity|].
  cbn [List.map]. rewrite IH, IHp. reflexivity.
Qed.

Lemma codec_reads_back : reads_back codec_env codec_parse.
Proof.
  intros n tree bytes [= <-]. unfold codec_parse, codec_bytes.
  rewrite bits_to_pos_to_bits. cbn [mbind option_bind].
  rewrite decode_encode. cbn [mbind option_bind].
  rewrite tree_to_mime_to_tree. reflexivity.
Qed.



Lemma no_image_in_attachments (files : list (string * string)) :
  list_sum (List.map (count_leaves "image/gif")
              (List.map (fun p => attachment_part p.1 p.2) files)) = 0.
Proof. induction files as [|p files IH]; [reflexivity | exact IH]. Qed.

(** C10: a call of [build_message] whose image data or content identifier is
    empty, with the sender configured and the attachments readable, hands the
    serialiser the [multipart/related] root holding the HTML alternative and
    the attachments and nothing else: no [image/gif] part; the missing image
    raises nothing (the outcome is the serialiser's), and the [To], [From] and
    [Subject] headers are what they are with an image. *)
Theorem build_message_without_image env destination subject body gif_data gif_cid
    attachments config sender files f c t H0 :
  truthy gif_data && truthy gif_cid = false ->
  cfg_sender_email config = Some sender ->
  attachment_files f (attachment_names attachments) = Some files ->
  let tree :=
    MMulti (root_headers destination sender subject)
      (alternative_part body
       :: List.map (fun p => attachment_part p.1 p.2) files) in
  (exists h,
      build_message env destination subject body gif_data gif_cid attachments
        (Some config) (mkWorld f c t H0)
      = (match msg_as_bytes env c tree with
         | inl e => Raise e
         | inr bytes => Ok (mkEnvelope (urlsafe_b64encode bytes))
         end,
         mkWorld f (S c) (t ++ List.map attached_log files) h))
  /\ count_leaves "image/gif" tree = 0
  /\ get_header "To" tree = Some destination
  /\ get_header "From" tree = Some (PStr sender)
  /\ get_header "Subject" tree = Some (PStr subject)
  /\ forall gif_data' gif_cid',
       mime_headers (message_tree destination sender subject body gif_data'
                       gif_cid' files)
       = mime_headers tree.
Proof.
  intros Hfalsy Hs Hfiles tree.
  split; [|split; [|repeat split]].
  - pose proof (build_message_run env destination subject body gif_data gif_cid
                  attachments config sender f c t H0 Hs) as Hb.
    rewrite Hfiles in Hb. unfold message_tree, image_parts in Hb.
    rewrite Hfalsy in Hb. exact Hb.
  - unfold tree. cbn [count_leaves List.map list_sum foldr].
    rewrite no_image_in_attachments. reflexivity.
Qed.

Lemma build_message_without_image_witness :
  exists h,
    build_message demo_env (PStr "d@x") "Subject" "<p>Hi</p>" "" "cid" None
      (Some demo_config) (mkWorld ∅ 0 [] [])
    = (match msg_as_bytes demo_env 0
               (MMulti (root_headers (PStr "d@x") "me@example.org" "Subject")
                  [alternative_part "<p>Hi</p>"]) with
       | inl e => Raise e
       | inr bytes => Ok (mkEnvelope (urlsafe_b64encode bytes))
       end,
       mkWorld ∅ 1 [] h).
Proof.
  exact (proj1 (build_message_without_image demo_env (PStr "d@x") "Subject"
                  "<p>Hi</p>" "" "cid" None demo_config "me@example.org" []
                  ∅ 0 [] [] eq_refl eq_refl eq_refl)).
Defined.

(** ** One recipient: rendering and sending *)

Lemma bind_assoc {A B C} (m : M A) (f : A -> M B) (g : B -> M C) w :
  ((m ≫= f) ≫= g) w = (m ≫= (fun x => f x ≫= g)) w.
Proof. rewrite !bind_run. destruct (m w) as [[a|e|c] w']; reflexivity. Qed.

Lemma appended_refl w : appended w w [].
Proof. split; [symmetry; apply app_nil_r | reflexivity]. Qed.

Lemma appended_trans w1 w2 w3 d1 d2 :
  appended w1 w2 d1 -> appended w2 w3 d2 -> appended w1 w3 (d1 ++ d2).
Proof.
  intros [H1 F1] [H2 F2]. split; [|congruence].
  rewrite H2, H1, app_assoc. reflexivity.
Qed.

Lemma obs_app l1 l2 : obs (l1 ++ l2) = obs l1 ++ obs l2.
Proof. apply List.filter_app. Qed.

Ltac trace_eq :=
  cbn [trace fs clock heap fst snd]; rewrite <- ?app_assoc;
  first [ reflexivity | symmetry; apply app_nil_r ].

(** Case analysis on the answers of the environment and on dict lookups. *)
Ltac split_cases :=
  repeat (simpl;
          match goal with
          | |- context [match ?x with inl _ => _ | inr _ => _ end] =>
              destruct x eqn:?
          | |- context [match fields ?r !! ?k with Some _ => _ | None => _ end] =>
              destruct (fields r !! k) eqn:?
          end);
  simpl.

Ltac run_monad :=
  cbv [mbind M_bind mret M_ret try_reraise try_except external getitem logging
       emit raise of_sum time_sleep].

Lemma generate_funny_image_spec env recipient w :
  exists delta,
    appended w (generate_funny_image env recipient w).2 delta
    /\ obs delta = []
    /\ match (generate_funny_image env recipient w).1 with
       | Ok gif_data =>
           exists first_name k,
             fields recipient !! "First Name" = Some first_name
             /\ pil_render env k (funny_text first_name) = inr gif_data
       | Raise _ => True
       | Exit _ => False
       end.
Proof.
  destruct w as [f c t h]. unfold generate_funny_image. run_monad.
  split_cases;
    (eexists; split; [split; [trace_eq | reflexivity]
                     | split; [reflexivity | try exact I]]).
  eexists _, _. split; [reflexivity | eassumption].
Qed.

Lemma generate_email_body_spec env recipient image_cid w :
  exists delta,
    appended w (generate_email_body env recipient image_cid w).2 delta
    /\ obs delta = []
    /\ match (generate_email_body env recipient image_cid w).1 with
       | Ok body =>
           exists first_name email template,
             fields recipient !! "First Name" = Some first_name
             /\ fields recipient !! "Email" = Some email
             /\ str_format env template first_name email
                  (dynamic_image_tag image_cid) = inr body
       | Raise _ => True
       | Exit _ => False
       end.
Proof.
  destruct w as [f c t h]. unfold generate_email_body, read_text. run_monad.
  cbn [fs].
  destruct (f !! "template.html") as [template|];
  split_cases;
    (eexists; split; [split; [trace_eq | reflexivity]
                     | split; [reflexivity | try exact I]]).
  eexists _, _, _. split; [reflexivity|]. split; [reflexivity | eassumption].
Qed.

Lemma build_message_none env destination subject body gif_data gif_cid config w :
  trace (build_message env destination subject body gif_data gif_cid None
           (Some config) w).2 = trace w
  /\ fs (build_message env destination subject body gif_data gif_cid None
           (Some config) w).2 = fs w
  /\ match (build_message env destination subject body gif_data gif_cid None
              (Some config) w).1 with
     | Ok envelope =>
         built env config destination subject body gif_data gif_cid (raw envelope)
     | Raise _ => True
     | Exit _ => False
     end.
Proof.
  destruct w as [f c t h].
  destruct (cfg_sender_email config) as [sender|] eqn:Hs.
  - pose proof (build_message_run env destination subject body gif_data gif_cid
                  None config sender f c t h Hs) as Hb.
    cbn [attachment_names default attachment_files mapM] in Hb.
    destruct Hb as [h' ->]. cbn [fst snd trace fs List.map].
    split; [apply app_nil_r|]. split; [reflexivity|].
    destruct (msg_as_bytes env c _) as [e|bytes] eqn:Hser; [exact I|].
    exists sender, c, bytes. split; [exact Hs|]. split; [exact Hser | reflexivity].
  - unfold build_message. rewrite Hs.
    unfold MIMEMultipart, new_message, set_item, add_header, update_message,
      config_get.
    run_monad. simpl. split; [reflexivity|]. split; [reflexivity | exact I].
Qed.

Lemma send_message_spec env destination subject body gif_data gif_cid config w :
  exists delta,
    appended w (send_message env destination subject body gif_data gif_cid None
                  (Some config) w).2 delta
    /\ match (send_message env destination subject body gif_data gif_cid None
                (Some config) w).1 with
       | Ok id =>
           exists raw,
             obs delta = [ELog INFO (MsgSending destination); EApiSend raw;
                          ELog INFO (MsgMessageSent destination id)]
             /\ built env config destination subject body gif_data gif_cid raw
       | Raise _ =>
           obs delta = [ELog INFO (MsgSending destination)]
           \/ exists raw,
                obs delta = [ELog INFO (MsgSending destination); EApiSend raw]
                /\ built env config destination subject body gif_data gif_cid raw
       | Exit _ => False
       end.
Proof.
  destruct w as [f c t h]. unfold send_message. run_monad. cbn [clock fs trace heap].
  destruct (authenticate env c) as [e|[]];
    [eexists; split; [split; [trace_eq | reflexivity] | left; reflexivity]|].
  match goal with
  | |- context [build_message env destination subject body gif_data gif_cid None
                  (Some config) ?w0] =>
      pose proof (build_message_none env destination subject body gif_data
                    gif_cid config w0) as (Ht & Hf & Hb);
      destruct (build_message env destination subject body gif_data gif_cid None
                  (Some config) w0) as [[envelope|e|status] [f1 c1 t1 h1]]
  end; cbn [fst snd trace fs clock heap] in *; subst t1 f1.
  - destruct (api_send env c1 (raw envelope)) as [e|id];
      (eexists; split; [split; [trace_eq | reflexivity]|]).
    + right. exists (raw envelope). split; [reflexivity | exact Hb].
    + exists (raw envelope). split; [reflexivity | exact Hb].
  - eexists; split; [split; [trace_eq | reflexivity] | left; reflexivity].
  - destruct Hb.
Qed.

Lemma render_and_send_spec env config subject recipient destination d w :
  (forall w0, destination w0 = (Ok d, w0) \/ exists x, destination w0 = (Raise x, w0)) ->
  exists delta,
    appended w (render_and_send env config subject recipient destination w).2 delta
    /\ match (render_and_send env config subject recipient destination w).1 with
       | Ok id =>
           exists raw,
             obs delta = [ELog INFO (MsgSending d); EApiSend raw;
                          ELog INFO (MsgMessageSent d id)]
             /\ rendered_for env config subject recipient d raw
       | Raise _ =>
           obs delta = []
           \/ obs delta = [ELog INFO (MsgSending d)]
           \/ exists raw,
                obs delta = [ELog INFO (MsgSending d); EApiSend raw]
                /\ rendered_for env config subject recipient d raw
       | Exit _ => False
       end.
Proof.
  intros Hdest. unfold render_and_send. rewrite bind_run.
  destruct (generate_funny_image_spec env recipient w) as (d1 & Ha1 & Ho1 & Hr1).
  destruct (generate_funny_image env recipient w) as [[gif|x|c] w1];
    cbn [fst snd] in *; [| exists d1; split; [exact Ha1 | left; exact Ho1] | destruct Hr1].
  destruct Hr1 as (v & k & Hv & Hgif).
  rewrite bind_run.
  destruct (generate_email_body_spec env recipient gif_cid w1) as (d2 & Ha2 & Ho2 & Hr2).
  destruct (generate_email_body env recipient gif_cid w1) as [[body|x|c] w2];
    cbn [fst snd] in *;
    [| exists (d1 ++ d2); split; [eapply appended_trans; eassumption|];
       left; rewrite obs_app, Ho1, Ho2; reflexivity
     | destruct Hr2].
  destruct Hr2 as (v' & email & template & Hv' & Hemail & Hbody).
  rewrite Hv in Hv'. injection Hv' as <-.
  rewrite bind_run.
  destruct (Hdest w2) as [-> | [x ->]].
  2:{ exists (d1 ++ d2). split; [eapply appended_trans; eassumption|].
      left. rewrite obs_app, Ho1, Ho2. reflexivity. }
  destruct (send_message_spec env d subject body gif gif_cid config w2)
    as (d3 & Ha3 & Hr3).
  destruct (send_message env d subject body gif gif_cid None (Some config) w2)
    as [[id|x|c] w3]; cbn [fst snd] in *.
  - exists ((d1 ++ d2) ++ d3).
    split; [eapply appended_trans; [eapply appended_trans|]; eassumption|].
    destruct Hr3 as (raw & Ho3 & Hb). exists raw.
    rewrite !obs_app, Ho1, Ho2, Ho3. split; [reflexivity|].
    exists v, email, gif, body, template, k. auto.
  - exists ((d1 ++ d2) ++ d3).
    split; [eapply appended_trans; [eapply appended_trans|]; eassumption|].
    rewrite !obs_app, Ho1, Ho2. cbn [app].
    destruct Hr3 as [Ho3 | (raw & Ho3 & Hb)]; [right; left; exact Ho3|].
    right. right. exists raw. split; [exact Ho3|].
    exists v, email, gif, body, template, k. auto.
  - destruct Hr3.
Qed.

(** ** One iteration of the loop *)

Lemma pace_run n w :
  pace n w =
  (Ok tt,
   mkWorld (fs w) (clock w)
     (trace w ++ [ELog DEBUG (if (n mod 6 =? 0)%nat then MsgHourlyLimit
                              else MsgWaiting);
                  ESleep (pause n)])
     (heap w)).
Proof.
  unfold pace, pause. destruct (n mod 6 =? 0)%nat; run_monad; simpl;
    rewrite <- app_assoc; reflexivity.
Qed.

Lemma getitem_email e r w :
  has_email e r -> getitem r "Email" w = (Ok (PStr e), w).
Proof. unfold has_email, getitem. intros ->. reflexivity. Qed.

Lemma send_one_unfold env config subject start_index total i recipient w :
  send_one env config subject start_index total i recipient w
  = (render_and_send env config subject recipient (getitem recipient "Email")
       ≫= fun _ =>
         email ← getitem recipient "Email";
         logging INFO (MsgEmailSent (i + 1) total email) ;;
         email ← getitem recipient "Email";
         set_last_sent email ;;
         pace (i - start_index + 1)) w.
Proof.
  unfold send_one, render_and_send. rewrite !bind_run.
  destruct (generate_funny_image env recipient w) as [[gif|x|c] w1];
    try reflexivity.
  rewrite !bind_run.
  destruct (generate_email_body env recipient gif_cid w1) as [[body|x|c] w2];
    try reflexivity.
  rewrite !bind_run.
  destruct (getitem recipient "Email" w2) as [[d|x|c] w3]; reflexivity.
Qed.

Lemma send_one_spec env config subject start_index total i recipient e w :
  has_email e recipient ->
  exists delta,
    trace (send_one env config subject start_index total i recipient w).2
    = trace w ++ delta
    /\ match (send_one env config subject start_index total i recipient w).1 with
       | Ok _ =>
           (exists raw id,
               obs delta = sent_block e raw id (i - start_index + 1)
               /\ rendered_for env config subject recipient (PStr e) raw)
           /\ fs (send_one env config subject start_index total i recipient w).2
              = <[LAST_SENT_FILE := e]> (fs w)
       | Raise _ =>
           failed_attempt (PStr e) (obs delta)
           /\ fs (send_one env config subject start_index total i recipient w).2
              = fs w
       | Exit _ => False
       end.
Proof.
  intros He.
  destruct (send_one env config subject start_index total i recipient w)
    as [res w'] eqn:Hrun.
  rewrite send_one_unfold, bind_run in Hrun.
  destruct (render_and_send_spec env config subject recipient
              (getitem recipient "Email") (PStr e) w) as (d1 & [Ht Hf] & Hr).
  { intros w0. left. apply getitem_email, He. }
  destruct (render_and_send env config subject recipient
              (getitem recipient "Email") w) as [[id|x|c] w1];
    cbn [fst snd] in *.
  - destruct Hr as (raw & Ho & Hrf).
    rewrite bind_run, (getitem_email _ _ _ He) in Hrun.
    rewrite bind_run in Hrun. unfold logging at 1, emit at 1 in Hrun.
    rewrite bind_run, (getitem_email _ _ _ He) in Hrun.
    rewrite bind_run, set_last_sent_str, pace_run in Hrun.
    cbn [fst snd trace fs clock heap] in Hrun.
    injection Hrun as <- <-. cbn [trace fs].
    eexists. split.
    + rewrite Ht, <- !app_assoc. reflexivity.
    + split; [|rewrite Hf; reflexivity].
      exists raw, id. split; [|exact Hrf].
      rewrite obs_app, Ho. unfold sent_block.
      destruct (_ =? 0)%nat; reflexivity.
  - injection Hrun as <- <-.
    exists d1. split; [exact Ht|]. split; [|exact Hf].
    destruct Hr as [-> | [-> | (raw & -> & _)]]; constructor.
  - destruct Hr.
Qed.

(** ** The sending loop *)

Lemma omap_obs {A} (f : event -> option A) l :
  (forall e, observable e = false -> f e = None) ->
  omap f (obs l) = omap f l.
Proof.
  intros Hf. induction l as [|e l IH]; [reflexivity|].
  change (obs (e :: l)) with (if observable e then e :: obs l else obs l).
  destruct (observable e) eqn:E; cbn [omap list_omap].
  - fold (omap f (obs l)). fold (omap f l). rewrite IH. reflexivity.
  - fold (omap f l). rewrite (Hf e E). exact IH.
Qed.

Lemma checkpoint_writes_obs l : checkpoint_writes (obs l) = checkpoint_writes l.
Proof. apply omap_obs. intros [l0 []| | | |]; simpl; congruence. Qed.

Lemma sleeps_obs l : sleeps (obs l) = sleeps l.
Proof. apply omap_obs. intros [l0 []| | | |]; simpl; congruence. Qed.

Lemma confirmed_obs l : confirmed (obs l) = confirmed l.
Proof. apply omap_obs. intros [[] []| | | |]; simpl; congruence. Qed.

Lemma send_calls_obs l : send_calls (obs l) = send_calls l.
Proof. apply omap_obs. intros [[] []| | | |]; simpl; congruence. Qed.

Lemma api_sends_obs l : api_sends (obs l) = api_sends l.
Proof. apply omap_obs. intros [l0 []| | | |]; simpl; congruence. Qed.

Lemma checkpoint_writes_failed d pre x :
  failed_attempt d pre ->
  checkpoint_writes (pre ++ [ELog ERROR (MsgFailedEmail d x)]) = [].
Proof. intros []; reflexivity. Qed.

(** The loop always returns; what it leaves in the trace is a run of
    successful iterations, ended, if at all, by one failed attempt and its
    log line; the checkpoint file holds the last Email written. *)
Lemma send_loop_shape env config subject recipients start_index total indices :
  emails_are_strings recipients ->
  Forall (fun i => i < length recipients) indices ->
  forall w,
  exists delta w',
    send_loop env config subject recipients start_index total indices w
    = (Ok tt, w')
    /\ trace w' = trace w ++ delta
    /\ loop_shape recipients start_index indices (obs delta)
    /\ fs w' = checkpointed (fs w) (checkpoint_writes (obs delta)).
Proof.
  intros Hstr. induction indices as [|i rest IH]; intros Hin w.
  - exists [], w. split; [reflexivity|]. split; [symmetry; apply app_nil_r|].
    split; [constructor | reflexivity].
  - apply Forall_cons in Hin as [Hi Hrest].
    destruct (lookup_lt_is_Some_2 recipients i Hi) as [r Hr].
    destruct (proj1 (Forall_lookup _ _) Hstr i r Hr) as [e He].
    cbn [send_loop]. unfold list_getitem. rewrite Hr.
    rewrite bind_run. cbn [mret M_ret].
    rewrite bind_run, try_except_run, bind_run.
    destruct (send_one_spec env config subject start_index total i r e w He)
      as (d1 & Ht & Hres).
    destruct (send_one env config subject start_index total i r w)
      as [[[]|x|c] w1]; cbn [fst snd] in *.
    + destruct Hres as [(raw & id & Ho & _) Hf].
      destruct (IH Hrest w1) as (d2 & w2 & Hrun & Ht2 & Hshape & Hf2).
      cbn [mret M_ret]. rewrite Hrun.
      exists (d1 ++ d2), w2. split; [reflexivity|].
      split; [rewrite Ht2, Ht, app_assoc; reflexivity|].
      rewrite obs_app, Ho. split.
      * econstructor; eassumption.
      * rewrite Hf2, Hf. reflexivity.
    + destruct Hres as [Hfail Hf].
      rewrite bind_run, (getitem_email _ _ _ He).
      rewrite bind_run. unfold logging, emit. cbn [mret M_ret fst snd].
      eexists (d1 ++ [ELog ERROR (MsgFailedEmail (PStr e) x)]), _.
      split; [reflexivity|]. cbn [trace fs].
      split; [rewrite Ht, app_assoc; reflexivity|].
      rewrite obs_app. cbn [obs List.filter observable app].
      split.
      * econstructor; eassumption.
      * rewrite (checkpoint_writes_failed _ _ _ Hfail). exact Hf.
    + destruct Hres.
Qed.

(** ** A run in normal mode *)

Lemma emails_have_keys recipients :
  emails_are_strings recipients -> Forall has_email_key recipients.
Proof.
  intros H. eapply Forall_impl; [exact H|]. intros r [e He]. unfold has_email_key.
  unfold has_email in He. rewrite He. eauto.
Qed.

Lemma find_start_total recipients :
  Forall has_email_key recipients ->
  forall i c w, exists k,
    find_start i recipients c w = (Ok k, w) /\ k <= i + length recipients.
Proof.
  induction 1 as [|r rs [v Hv] _ IH]; intros i c w.
  - exists 0. split; [reflexivity | lia].
  - cbn [find_start]. unfold getitem. rewrite Hv, bind_run. cbn [mret M_ret].
    destruct (py_eq_str v c).
    + exists (i + 1). split; [reflexivity | simpl; lia].
    + destruct (IH (S i) c w) as (k & -> & Hk). exists k.
      split; [reflexivity | simpl; lia].
Qed.

Lemma resume_offset_total recipients last w :
  Forall has_email_key recipients ->
  exists k, resume_offset recipients last w = (Ok k, w) /\ k <= length recipients.
Proof.
  intros Hk. destruct last as [c|]; cbn [resume_offset].
  - destruct (truthy c).
    + destruct (find_start_total recipients Hk 0 c w) as (k & -> & Hle).
      exists k. split; [reflexivity | exact Hle].
    + exists 0. split; [reflexivity | lia].
  - exists 0. split; [reflexivity | lia].
Qed.

Lemma obs_checkpoint_log content : obs (checkpoint_log content) = [].
Proof.
  unfold checkpoint_log. destruct content as [c|]; [|reflexivity].
  simpl. destruct (truthy _); reflexivity.
Qed.

(** A run in normal mode returns normally; its observable trace is that of
    the loop over the indices from the resume offset on. *)
Lemma run_normal_shape env config subject test_email recipients w :
  cfg_subject config = Some subject ->
  cfg_test config = Some false ->
  cfg_test_email_recipient config = Some test_email ->
  emails_are_strings recipients ->
  exists delta w' start_index,
    run env config recipients w = (Ok tt, w')
    /\ trace w' = trace w ++ delta
    /\ resume_offset recipients (stored_value (fs w !! LAST_SENT_FILE)) w
       = (Ok start_index, w)
    /\ loop_shape recipients start_index
         (seq start_index (length recipients - start_index)) (obs delta)
    /\ fs w' = checkpointed (fs w) (checkpoint_writes (obs delta)).
Proof.
  intros Hs Ht He Hstr.
  rewrite (run_keys _ _ _ _ _ _ _ Hs Ht He).
  unfold resume_and_send.
  rewrite (bind_ok _ _ _ _ _ (get_last_sent_run w)).
  set (w0 := mkWorld (fs w) (clock w)
               (trace w ++ checkpoint_log (fs w !! LAST_SENT_FILE)) (heap w)).
  destruct (resume_offset_total recipients (stored_value (fs w !! LAST_SENT_FILE))
              w0 (emails_have_keys _ Hstr)) as (k & Hk & Hle).
  assert (Hkw : resume_offset recipients (stored_value (fs w !! LAST_SENT_FILE)) w
                = (Ok k, w)).
  { destruct (resume_offset_total recipients
                (stored_value (fs w !! LAST_SENT_FILE)) w
                (emails_have_keys _ Hstr)) as (k' & Hk' & _).
    rewrite Hk'. f_equal. f_equal.
    assert (Hres : forall w1 w2 a b,
               resume_offset recipients (stored_value (fs w !! LAST_SENT_FILE)) w1
               = (Ok a, w1) ->
               resume_offset recipients (stored_value (fs w !! LAST_SENT_FILE)) w2
               = (Ok b, w2) -> a = b).
    { clear. intros w1 w2 a b.
      destruct (stored_value _) as [c|]; cbn [resume_offset];
        [destruct (truthy c)|]; try (intros [= <-] [= <-]; reflexivity).
      generalize 0. induction recipients as [|r rs IH]; intros i.
      - intros [= <-] [= <-]. reflexivity.
      - cbn [find_start]. unfold getitem.
        destruct (fields r !! "Email") as [v|]; [|discriminate].
        rewrite !bind_run. cbn [mret M_ret].
        destruct (py_eq_str v c); [intros [= <-] [= <-]; reflexivity | apply IH]. }
    exact (Hres _ _ _ _ Hk' Hk). }
  rewrite (bind_ok _ _ _ _ _ Hk).
  destruct (length recipients <=? k)%nat eqn:Hgate.
  - apply Nat.leb_le in Hgate.
    eexists _, _, k. split; [reflexivity|]. subst w0. cbn [trace fs].
    split; [rewrite <- app_assoc; reflexivity|]. split; [exact Hkw|].
    rewrite obs_app, obs_checkpoint_log.
    replace (length recipients - k) with 0 by lia.
    split; [constructor | reflexivity].
  - apply Nat.leb_gt in Hgate.
    rewrite bind_run. unfold logging at 1, emit at 1.
    rewrite bind_run.
    edestruct (send_loop_shape env config subject recipients k (length recipients)
                 (seq k (length recipients - k)) Hstr)
      as (d & w1 & Hrun & Htr & Hshape & Hfs).
    { apply Forall_forall. intros i Hi. apply list_elem_of_In, in_seq in Hi. lia. }
    rewrite Hrun. unfold logging, emit. cbn [fst snd].
    eexists _, _, k. split; [reflexivity|]. cbn [trace fs].
    rewrite Htr, Hfs. subst w0. cbn [trace fs].
    split; [rewrite <- !app_assoc; reflexivity|]. split; [exact Hkw|].
    rewrite !obs_app, obs_checkpoint_log.
    cbn [obs List.filter observable app]. rewrite app_nil_r.
    split; [exact Hshape | reflexivity].
Qed.

(** ** What the shape of a run implies *)

Section Shape.

Context (recipients : list Recipient) (start_index : nat).

Lemma shape_writes_follow indices l :
  loop_shape recipients start_index indices l -> writes_follow_sends l = true.
Proof.
  induction 1 as [|i r e raw id rest tail _ _ _ IH|i r e x pre rest _ _ Hpre].
  - reflexivity.
  - unfold sent_block. cbn [app writes_follow_sends].
    rewrite String.eqb_refl, bool_decide_true by reflexivity. exact IH.
  - destruct Hpre; reflexivity.
Qed.

Lemma shape_checkpoint_writes indices l :
  loop_shape recipients start_index indices l ->
  List.map PStr (checkpoint_writes l) = confirmed l.
Proof.
  induction 1 as [|i r e raw id rest tail _ _ _ IH|i r e x pre rest _ _ Hpre].
  - reflexivity.
  - unfold sent_block. cbn [app]. unfold checkpoint_writes, confirmed in *.
    cbn [omap list_omap]. rewrite String.eqb_refl. cbn [List.map].
    f_equal. exact IH.
  - destruct Hpre; reflexivity.
Qed.

Lemma shape_stops indices l :
  loop_shape recipients start_index indices l -> stops_at_failure l = true.
Proof.
  induction 1 as [|i r e raw id rest tail _ _ _ IH|i r e x pre rest _ _ Hpre].
  - reflexivity.
  - exact IH.
  - destruct Hpre; reflexivity.
Qed.

Lemma shape_paced n : forall j l,
  loop_shape recipients start_index (seq (start_index + j) n) l ->
  paced j l = true
  /\ sleeps l = List.map pause (seq (j + 1) (length (confirmed l))).
Proof.
  induction n as [|n IH]; intros j l Hshape; inversion Hshape; subst.
  - split; reflexivity.
  - match goal with H : loop_shape _ _ (seq _ n) _ |- _ => rename H into Htail end.
    replace (S (start_index + j)) with (start_index + S j) in Htail by lia.
    destruct (IH _ _ Htail) as [Hp Hs].
    replace (start_index + j - start_index + 1) with (S j) by lia.
    unfold sent_block. cbn [app paced]. rewrite Z.eqb_refl. split; [exact Hp|].
    unfold sleeps, confirmed in *. cbn [omap list_omap length seq List.map].
    rewrite Hs. replace (j + 1) with (S j) by lia.
    replace (S j + 1) with (S (S j)) by lia. reflexivity.
  - match goal with H : failed_attempt _ _ |- _ => destruct H end;
      split; reflexivity.
Qed.

(** Without a failure every index was sent to. *)
Lemma shape_all_sent indices l :
  loop_shape recipients start_index indices l ->
  (forall d x, ELog ERROR (MsgFailedEmail d x) ∉ l) ->
  length (confirmed l) = length indices.
Proof.
  induction 1 as [|i r e raw id rest tail _ _ _ IH|i r e x pre rest _ _ Hpre];
    intros Hno.
  - reflexivity.
  - unfold sent_block. cbn [app]. unfold confirmed in *.
    cbn [omap list_omap length]. f_equal. apply IH.
    intros d x Hin. apply (Hno d x).
    unfold sent_block. cbn [app]. repeat right. exact Hin.
  - exfalso. apply (Hno (PStr e) x). apply elem_of_app. right. left.
Qed.

End Shape.

(** ** Checkpoint, fail-fast, pacing *)

(** What holds of the checkpoint when every Email is a string: in a run in
    normal mode on such recipients the checkpoint file is written exactly
    after a confirmed send and with that recipient's Email.  In the observable trace every confirmation is followed
    at once by the write of its destination and no file is written elsewhere;
    the values written are the destinations confirmed, in order; the file ends
    up holding the last of them.  For one recipient: if the iteration
    succeeds the file holds the recipient's Email, and if the image, the
    body, the build or the send fails the files are left as they were. *)
Theorem checkpoint_monotonicity env config subject test_email recipients w :
  cfg_subject config = Some subject ->
  cfg_test config = Some false ->
  cfg_test_email_recipient config = Some test_email ->
  emails_are_strings recipients ->
  (exists delta w',
      run env config recipients w = (Ok tt, w')
      /\ trace w' = trace w ++ delta
      /\ writes_follow_sends (obs delta) = true
      /\ List.map PStr (checkpoint_writes delta) = confirmed delta
      /\ fs w' = checkpointed (fs w) (checkpoint_writes delta))
  /\ (forall start_index total i r e w0,
        has_email e r ->
        match send_one env config subject start_index total i r w0 with
        | (Ok _, w1) =>
            fs w1 = <[LAST_SENT_FILE := e]> (fs w0)
            /\ exists d, trace w1 = trace w0 ++ d /\ checkpoint_writes d = [e]
        | (Raise _, w1) =>
            fs w1 = fs w0
            /\ exists d, trace w1 = trace w0 ++ d /\ file_ops d = []
        | (Exit _, _) => False
        end).
Proof.
  intros Hs Ht He Hstr. split.
  - destruct (run_normal_shape env config subject test_email recipients w
                Hs Ht He Hstr) as (d & w' & k & Hrun & Htr & _ & Hshape & Hfs).
    exists d, w'. split; [exact Hrun|]. split; [exact Htr|].
    split; [exact (shape_writes_follow _ _ _ _ Hshape)|].
    rewrite <- checkpoint_writes_obs, <- confirmed_obs.
    split; [exact (shape_checkpoint_writes _ _ _ _ Hshape) | exact Hfs].
  - intros start_index total i r e w0 Hemail.
    destruct (send_one_spec env config subject start_index total i r e w0 Hemail)
      as (d & Htr & Hres).
    destruct (send_one env config subject start_index total i r w0)
      as [[[]|x|c] w1]; cbn [fst snd] in *.
    + destruct Hres as [(raw & id & Ho & _) Hf]. split; [exact Hf|].
      exists d. split; [exact Htr|].
      rewrite <- checkpoint_writes_obs, Ho. reflexivity.
    + destruct Hres as [Hfail Hf]. split; [exact Hf|].
      exists d. split; [exact Htr|].
      assert (Hfo : file_ops (obs d) = file_ops d).
      { unfold file_ops, obs. clear. induction d as [|[l []| | | |] d IH];
          simpl; rewrite ?IH; reflexivity. }
      rewrite <- Hfo. destruct Hfail; reflexivity.
    + exact Hres.
Qed.

Lemma checkpoint_monotonicity_witness :
  let recipients := [recipient_of "A" "a@x"; recipient_of "B" "b@x"] in
  let w := world_of [("template.html", "T")] in
  exists delta w',
    run demo_env demo_config recipients w = (Ok tt, w')
    /\ trace w' = trace w ++ delta
    /\ writes_follow_sends (obs delta) = true
    /\ List.map PStr (checkpoint_writes delta) = confirmed delta
    /\ fs w' = checkpointed (fs w) (checkpoint_writes delta).
Proof.
  intros recipients w.
  apply (checkpoint_monotonicity demo_env demo_config "Hello" "test@example.org"
           recipients w eq_refl eq_refl eq_refl).
  repeat constructor; eexists; reflexivity.
Defined.

(** C2: the code breaks the claim on a data row too short to reach the
    [Email] column, when Gmail accepts the message.  The recipients file
    below has the nine headers and the row [A,B]; the checkpoint holds
    [z@x].  [load_recipients] returns the row, its Email being [None]; the
    run in normal mode confirms the send and then, where the claim has the
    checkpoint written with the recipient's Email, opens [last_sent.txt] for
    writing and fails in [f.write(None)]: the send succeeded, nothing is
    written, and the checkpoint that was stored is gone. *)
Theorem checkpoint_lost_on_short_row :
  let content := ("First Name,Last Name,Email,Phone,Address,Profession,Stage,Industry,LinkedIn"
                  ++ String LF "A,B")%string in
  let w0 := world_of [(RECIPIENTS_CSV, content); ("template.html", "T");
                      (LAST_SENT_FILE, "z@x")] in
  let recipients := [dict_of_row csv_header ["A"; "B"]] in
  let w1 := (load_recipients demo_env RECIPIENTS_CSV w0).2 in
  let w2 := (run demo_env demo_config recipients w1).2 in
  (load_recipients demo_env RECIPIENTS_CSV w0).1 = Ok recipients
  /\ emails recipients = [Some PNone]
  /\ (run demo_env demo_config recipients w1).1 = Ok tt
  /\ confirmed (trace w2) = [PNone]
  /\ length (api_sends (trace w2)) = 1
  /\ checkpoint_writes (trace w2) = []
  /\ file_ops (trace w2) = [EOpenW LAST_SENT_FILE]
  /\ writes_follow_sends (obs (trace w2)) = false
  /\ fs w1 !! LAST_SENT_FILE = Some "z@x"
  /\ fs w2 !! LAST_SENT_FILE = Some "".
Proof.
  intros content w0 recipients w1 w2.
  split; [vm_compute; reflexivity|].
  split; [vm_compute; reflexivity|].
  split; [vm_compute; reflexivity|].
  split; [vm_compute; reflexivity|].
  split; [vm_compute; reflexivity|].
  split; [vm_compute; reflexivity|].
  split; [vm_compute; reflexivity|].
  split; [vm_compute; reflexivity|].
  split; vm_compute; reflexivity.
Qed.

Lemma send_loop_fail env config subject recipients start_index total i post r e x w w1 :
  recipients !! i = Some r ->
  has_email e r ->
  send_one env config subject start_index total i r w = (Raise x, w1) ->
  send_loop env config subject recipients start_index total (i :: post) w
  = (Ok tt,
     mkWorld (fs w1) (clock w1)
       (trace w1 ++ [ELog ERROR (MsgFailedEmail (PStr e) x)]) (heap w1)).
Proof.
  intros Hr He Hone. cbn [send_loop]. unfold list_getitem. rewrite Hr.
  rewrite bind_run. cbn [mret M_ret].
  rewrite bind_run, try_except_run, bind_run, Hone.
  rewrite bind_run, (getitem_email _ _ _ He). reflexivity.
Qed.

(** C3: if the attempt for the recipient at index [i] fails, the loop logs
    the failure and returns, whatever indices were still to come; and in a
    run in normal mode the failure's log line is the last observable event:
    no call of [send_message], no Gmail call, no write and no pause follows
    it.  The loop itself always returns normally. *)
Theorem fail_fast env config subject recipients :
  (forall start_index total i post r e x w w1,
      recipients !! i = Some r ->
      has_email e r ->
      send_one env config subject start_index total i r w = (Raise x, w1) ->
      send_loop env config subject recipients start_index total (i :: post) w
      = (Ok tt,
         mkWorld (fs w1) (clock w1)
           (trace w1 ++ [ELog ERROR (MsgFailedEmail (PStr e) x)]) (heap w1)))
  /\ (forall test_email w,
        cfg_subject config = Some subject ->
        cfg_test config = Some false ->
        cfg_test_email_recipient config = Some test_email ->
        emails_are_strings recipients ->
        exists delta w',
          run env config recipients w = (Ok tt, w')
          /\ trace w' = trace w ++ delta
          /\ stops_at_failure (obs delta) = true).
Proof.
  split.
  - intros. eapply send_loop_fail; eassumption.
  - intros test_email w Hs Ht He Hstr.
    destruct (run_normal_shape env config subject test_email recipients w
                Hs Ht He Hstr) as (d & w' & k & Hrun & Htr & _ & Hshape & _).
    exists d, w'. split; [exact Hrun|]. split; [exact Htr|].
    exact (shape_stops _ _ _ _ Hshape).
Qed.

Lemma fail_fast_witness :
  let recipients := [recipient_of "A" "a@x"; recipient_of "B" "b@x";
                     recipient_of "C" "c@x"] in
  let w := world_of [("template.html", "T")] in
  exists x w1,
    send_one (failing_env 0) demo_config "Hello" 0 3 0 (recipient_of "A" "a@x") w
    = (Raise x, w1)
    /\ send_loop (failing_env 0) demo_config "Hello" recipients 0 3 [0; 1; 2] w
       = (Ok tt,
          mkWorld (fs w1) (clock w1)
            (trace w1 ++ [ELog ERROR (MsgFailedEmail (PStr "a@x") x)]) (heap w1)).
Proof.
  intros recipients w.
  destruct (send_one (failing_env 0) demo_config "Hello" 0 3 0
              (recipient_of "A" "a@x") w) as [[[]|x|c] w1] eqn:E.
  - exfalso. vm_compute in E. discriminate E.
  - exists x, w1. split; [reflexivity|].
    apply (proj1 (fail_fast (failing_env 0) demo_config "Hello" recipients)
             0 3 0 [1; 2] (recipient_of "A" "a@x") "a@x" x w w1);
      [reflexivity | reflexivity | exact E].
  - exfalso. vm_compute in E. discriminate E.
Defined.

(** C4, as the claim states it, fails: the pause follows every successful
    send, the last of the run included.  Two recipients, both sent to: two
    pauses, and the run's last observable event is a pause.  On a row
    without an Email the claim fails in another way, by the defect shown
    under C2 and not by design: the send that Gmail accepts is followed by
    no pause at all. *)
Lemma pacing_schedule_counterexample :
  let recipients := [recipient_of "A" "a@x"; recipient_of "B" "b@x"] in
  let w := world_of [("template.html", "T")] in
  let t := trace (run demo_env demo_config recipients w).2 in
  let short_row := [dict_of_row csv_header ["A"; "B"]] in
  let t' := trace (run demo_env demo_config short_row w).2 in
  (run demo_env demo_config recipients w).1 = Ok tt
  /\ confirmed t = [PStr "a@x"; PStr "b@x"]
  /\ sleeps t = [600%Z; 600%Z]
  /\ schedule_without_last_pause 2 = [600%Z]
  /\ last (obs t) = Some (ESleep 600)
  /\ confirmed t' = [PNone]
  /\ sleeps t' = [].
Proof. intros recipients w t short_row t'. vm_compute. repeat split; reflexivity. Qed.

Lemma not_in_obs e l : e ∉ l -> e ∉ obs l.
Proof.
  intros Hn Hin. apply Hn. apply list_elem_of_In. apply list_elem_of_In in Hin.
  unfold obs in Hin. apply List.filter_In in Hin as [Hin _]. exact Hin.
Qed.

(** C4 (amended): in a run in normal mode, on recipients whose Email is a
    string, the [k]-th successful send of the run, counted from the run's
    start, is followed at once, after its checkpoint write, by a pause of one
    hour if [k] is a multiple of 6 and of ten minutes otherwise, the final send
    of the run included, and there is no other pause; when no recipient fails
    there are as many sends as recipients from the resume offset on. *)
Theorem pacing_schedule env config subject test_email recipients w :
  cfg_subject config = Some subject ->
  cfg_test config = Some false ->
  cfg_test_email_recipient config = Some test_email ->
  emails_are_strings recipients ->
  (exists delta w' start_index,
      run env config recipients w = (Ok tt, w')
      /\ trace w' = trace w ++ delta
      /\ resume_offset recipients (stored_value (fs w !! LAST_SENT_FILE)) w
         = (Ok start_index, w)
      /\ paced 0 (obs delta) = true
      /\ sleeps delta = List.map pause (seq 1 (length (confirmed delta)))
      /\ ((forall d x, ELog ERROR (MsgFailedEmail d x) ∉ delta) ->
          length (confirmed delta) = length recipients - start_index))
  /\ (forall k, (k mod 6 = 0 -> pause k = 3600%Z)
                /\ (k mod 6 <> 0 -> pause k = 600%Z)).
Proof.
  intros Hs Ht He Hstr. split.
  - destruct (run_normal_shape env config subject test_email recipients w
                Hs Ht He Hstr) as (d & w' & k & Hrun & Htr & Hk & Hshape & _).
    exists d, w', k. split; [exact Hrun|]. split; [exact Htr|].
    split; [exact Hk|].
    pose proof Hshape as Hshape'.
    rewrite <- (Nat.add_0_r k) in Hshape' at 2.
    destruct (shape_paced _ _ _ _ _ Hshape') as [Hp Hsl].
    split; [exact Hp|]. rewrite <- sleeps_obs, <- confirmed_obs.
    split; [exact Hsl|].
    intros Hno. rewrite (shape_all_sent _ _ _ _ Hshape).
    + apply length_seq.
    + intros d0 x. apply not_in_obs, Hno.
  - intros k. unfold pause. split.
    + intros ->. reflexivity.
    + intros Hk. destruct (k mod 6 =? 0)%nat eqn:E; [|reflexivity].
      apply Nat.eqb_eq in E. contradiction.
Qed.

Lemma pacing_schedule_witness :
  let recipients := [recipient_of "A" "a@x"; recipient_of "B" "b@x"] in
  let w := world_of [("template.html", "T")] in
  exists delta w' start_index,
    run demo_env demo_config recipients w = (Ok tt, w')
    /\ trace w' = trace w ++ delta
    /\ resume_offset recipients (stored_value (fs w !! LAST_SENT_FILE)) w
       = (Ok start_index, w)
    /\ paced 0 (obs delta) = true
    /\ sleeps delta = List.map pause (seq 1 (length (confirmed delta)))
    /\ ((forall d x, ELog ERROR (MsgFailedEmail d x) ∉ delta) ->
        length (confirmed delta) = length recipients - start_index).
Proof.
  intros recipients w.
  apply (pacing_schedule demo_env demo_config "Hello" "test@example.org"
           recipients w eq_refl eq_refl eq_refl).
  repeat constructor; eexists; reflexivity.
Defined.

(** ** Test mode *)

Section Insensitive.

Lemma insensitive_pure {A} (m : M A) (r : res A) (l : list event) :
  (forall w, m w = (r, mkWorld (fs w) (clock w) (trace w ++ l) (heap w))) ->
  insensitive m.
Proof.
  intros Hm w1 w2 Hsim. rewrite !Hm. cbn [fst snd].
  split; [reflexivity|]. split; [exact Hsim|].
  exists l. split; reflexivity.
Qed.

Lemma insensitive_ret {A} (a : A) : insensitive (mret a).
Proof.
  apply (insensitive_pure _ (Ok a) []). intros [f c t h]. cbn.
  rewrite app_nil_r. reflexivity.
Qed.

Lemma insensitive_raise {A} e : insensitive (raise (A := A) e).
Proof.
  apply (insensitive_pure _ (Raise e) []). intros [f c t h]. cbn.
  rewrite app_nil_r. reflexivity.
Qed.

Lemma insensitive_exit {A} c : insensitive (sys_exit (A := A) c).
Proof.
  apply (insensitive_pure _ (Exit c) []). intros [f c0 t h]. cbn.
  rewrite app_nil_r. reflexivity.
Qed.

Lemma insensitive_emit e : insensitive (emit e).
Proof. apply (insensitive_pure _ (Ok tt) [e]). reflexivity. Qed.

Lemma insensitive_logging l m : insensitive (logging l m).
Proof. apply insensitive_emit. Qed.

Lemma insensitive_of_sum {A} (r : exn + A) : insensitive (of_sum r).
Proof. destruct r; [apply insensitive_raise | apply insensitive_ret]. Qed.

Lemma insensitive_getitem r key : insensitive (getitem r key).
Proof.
  unfold getitem. destruct (fields r !! key);
    [apply insensitive_ret | apply insensitive_raise].
Qed.

Lemma insensitive_list_getitem rs i : insensitive (list_getitem rs i).
Proof.
  unfold list_getitem. destruct (rs !! i);
    [apply insensitive_ret | apply insensitive_raise].
Qed.

Lemma insensitive_config_get {A} key (v : option A) : insensitive (config_get key v).
Proof. destruct v; [apply insensitive_ret | apply insensitive_raise]. Qed.

Lemma insensitive_bind {A B} (m : M A) (k : A -> M B) :
  insensitive m -> (forall a, insensitive (k a)) -> insensitive (m ≫= k).
Proof.
  intros Hm Hk w1 w2 Hsim. rewrite !bind_run.
  destruct (Hm w1 w2 Hsim) as (Hr & Hsim' & d & Ht1 & Ht2).
  destruct (m w1) as [r1 w1'], (m w2) as [r2 w2']. cbn [fst snd] in *. subst r2.
  destruct r1 as [a|e|c].
  - destruct (Hk a w1' w2' Hsim') as (Hr & Hsim'' & d' & Ht1' & Ht2').
    split; [exact Hr|]. split; [exact Hsim''|].
    exists (d ++ d'). rewrite Ht1', Ht2', Ht1, Ht2, !app_assoc. split; reflexivity.
  - split; [reflexivity|]. split; [exact Hsim'|]. exists d. split; assumption.
  - split; [reflexivity|]. split; [exact Hsim'|]. exists d. split; assumption.
Qed.

Lemma insensitive_try_except {A} (m : M A) (h : exn -> M A) :
  insensitive m -> (forall e, insensitive (h e)) -> insensitive (try_except m h).
Proof.
  intros Hm Hh w1 w2 Hsim. rewrite !try_except_run.
  destruct (Hm w1 w2 Hsim) as (Hr & Hsim' & d & Ht1 & Ht2).
  destruct (m w1) as [r1 w1'], (m w2) as [r2 w2']. cbn [fst snd] in *. subst r2.
  destruct r1 as [a|e|c].
  - split; [reflexivity|]. split; [exact Hsim'|]. exists d. split; assumption.
  - destruct (Hh e w1' w2' Hsim') as (Hr & Hsim'' & d' & Ht1' & Ht2').
    split; [exact Hr|]. split; [exact Hsim''|].
    exists (d ++ d'). rewrite Ht1', Ht2', Ht1, Ht2, !app_assoc. split; reflexivity.
  - split; [reflexivity|]. split; [exact Hsim'|]. exists d. split; assumption.
Qed.

Lemma insensitive_try_reraise {A} (m : M A) (h : exn -> M unit) :
  insensitive m -> (forall e, insensitive (h e)) -> insensitive (try_reraise m h).
Proof.
  intros Hm Hh. apply insensitive_try_except; [exact Hm|].
  intros e. apply insensitive_bind; [apply Hh | intros _; apply insensitive_raise].
Qed.

Lemma insensitive_external {A} (f : nat -> exn + A) : insensitive (external f).
Proof.
  intros w1 w2 (Hc & Hh & Hf). unfold external. rewrite Hc.
  destruct (f (clock w2)); cbn [fst snd];
    (split; [reflexivity|]; split;
     [split; [cbn; congruence | split; [exact Hh | exact Hf]]
     | exists []; cbn [trace]; rewrite !app_nil_r; split; reflexivity]).
Qed.

Lemma insensitive_read_text path :
  path <> LAST_SENT_FILE -> insensitive (read_text path).
Proof.
  intros Hp w1 w2 Hsim. pose proof Hsim as (Hc & Hh & Hf).
  unfold read_text. rewrite (Hf path Hp).
  destruct (fs w2 !! path); cbn [fst snd];
    (split; [reflexivity|]; split; [exact Hsim|];
     exists []; rewrite !app_nil_r; split; reflexivity).
Qed.

(** An operation on the message store only. *)
Lemma insensitive_heap {A} (g : list node -> res A * list node) :
  insensitive (fun w => ((g (heap w)).1,
                         mkWorld (fs w) (clock w) (trace w) (g (heap w)).2)).
Proof.
  intros w1 w2 (Hc & Hh & Hf). cbn [fst snd]. rewrite Hh.
  split; [reflexivity|]. split; [split; [exact Hc | split; [reflexivity | exact Hf]]|].
  exists []. cbn [trace]. rewrite !app_nil_r. split; reflexivity.
Qed.

Lemma insensitive_new_message n : insensitive (new_message n).
Proof. apply (insensitive_heap (fun h => (Ok (length h), h ++ [n]))). Qed.

Lemma insensitive_update_message id f : insensitive (update_message id f).
Proof. apply (insensitive_heap (fun h => (Ok tt, alter f id h))). Qed.

Lemma insensitive_add_header id name v ps : insensitive (add_header id name v ps).
Proof. apply insensitive_update_message. Qed.

Lemma insensitive_attach id part : insensitive (attach id part).
Proof.
  intros w1 w2 Hsim. pose proof Hsim as (Hc & Hh & Hf).
  unfold attach. rewrite Hh.
  destruct (heap w2 !! id) as [[hs [s|l]]|].
  - apply (insensitive_raise (A := unit) _ w1 w2 Hsim).
  - apply (insensitive_update_message _ _ w1 w2 Hsim).
  - apply (insensitive_raise (A := unit) _ w1 w2 Hsim).
Qed.

Lemma insensitive_as_bytes env id : insensitive (as_bytes env id).
Proof.
  intros w1 w2 Hsim. pose proof Hsim as (Hc & Hh & Hf).
  unfold as_bytes. rewrite Hh.
  destruct (snapshot _ (heap w2) id) as [m|].
  - apply (insensitive_external _ w1 w2 Hsim).
  - apply (insensitive_raise (A := string) _ w1 w2 Hsim).
Qed.

End Insensitive.

Ltac insens :=
  repeat match goal with
    | |- insensitive (mret _) => apply insensitive_ret
    | |- insensitive (raise _) => apply insensitive_raise
    | |- insensitive (sys_exit _) => apply insensitive_exit
    | |- insensitive (logging _ _) => apply insensitive_logging
    | |- insensitive (emit _) => apply insensitive_emit
    | |- insensitive (of_sum _) => apply insensitive_of_sum
    | |- insensitive (getitem _ _) => apply insensitive_getitem
    | |- insensitive (list_getitem _ _) => apply insensitive_list_getitem
    | |- insensitive (config_get _ _) => apply insensitive_config_get
    | |- insensitive (external _) => apply insensitive_external
    | |- insensitive (new_message _) => apply insensitive_new_message
    | |- insensitive (add_header _ _ _ _) => apply insensitive_add_header
    | |- insensitive (attach _ _) => apply insensitive_attach
    | |- insensitive (as_bytes _ _) => apply insensitive_as_bytes
    | |- insensitive (read_text _) => apply insensitive_read_text; discriminate
    | |- insensitive (try_reraise _ _) =>
        apply insensitive_try_reraise; [|intros ?]
    | |- insensitive (try_except _ _) =>
        apply insensitive_try_except; [|intros ?]
    | |- insensitive (_ ≫= _) => apply insensitive_bind; [|intros ?]
    | |- insensitive (if ?b then _ else _) => destruct b
    end.

Lemma insensitive_generate_funny_image env r :
  insensitive (generate_funny_image env r).
Proof. unfold generate_funny_image. insens. Qed.

Lemma insensitive_generate_email_body env r cid :
  insensitive (generate_email_body env r cid).
Proof. unfold generate_email_body. insens. Qed.

Lemma insensitive_build_message env d subject body gif cid config :
  insensitive (build_message env d subject body gif cid None config).
Proof.
  unfold build_message. destruct config as [config|]; [|insens].
  unfold MIMEMultipart, MIMEText, MIMEImage, set_item. insens.
Qed.

Lemma insensitive_send_message env d subject body gif cid config :
  insensitive (send_message env d subject body gif cid None config).
Proof.
  unfold send_message. destruct config as [config|]; [|insens].
  insens. apply insensitive_build_message.
Qed.

Lemma insensitive_test_send env config subject test_email recipients :
  insensitive (test_send env config subject test_email recipients).
Proof.
  unfold test_send. insens.
  - apply insensitive_generate_funny_image.
  - apply insensitive_generate_email_body.
  - apply insensitive_send_message.
Qed.

Lemma file_ops_obs l : file_ops (obs l) = file_ops l.
Proof.
  unfold file_ops, obs. induction l as [|[l0 []| | | |] l IH];
    simpl; rewrite ?IH; reflexivity.
Qed.

Lemma test_send_unfold env config subject test_email recipients r0 w :
  truthy test_email = true ->
  recipients !! 0 = Some r0 ->
  test_send env config subject test_email recipients w
  = try_except
      (render_and_send env config subject r0 (mret (PStr test_email))
         ≫= fun _ => logging INFO (MsgTestSent test_email))
      (fun e => logging ERROR (MsgFailedTest test_email e)) w.
Proof.
  intros Ht Hr. unfold test_send, list_getitem. rewrite Ht, Hr. cbn [negb].
  rewrite bind_run. cbn [mret M_ret]. rewrite bind_run. cbn [mret M_ret].
  rewrite !try_except_run.
  unfold render_and_send. rewrite !bind_run.
  destruct (generate_funny_image env r0 w) as [[gif|x|c] w1]; try reflexivity.
  rewrite !bind_run.
  destruct (generate_email_body env r0 gif_cid w1) as [[body|x|c] w2];
    reflexivity.
Qed.

Lemma test_send_spec env config subject test_email recipients r0 w :
  truthy test_email = true ->
  recipients !! 0 = Some r0 ->
  exists delta w',
    test_send env config subject test_email recipients w = (Ok tt, w')
    /\ trace w' = trace w ++ delta
    /\ fs w' = fs w
    /\ test_outcome env config subject test_email r0 (obs delta).
Proof.
  intros Ht Hr. rewrite (test_send_unfold _ _ _ _ _ _ _ Ht Hr).
  rewrite try_except_run, bind_run.
  destruct (render_and_send_spec env config subject r0
              (@mret M _ _ (PStr test_email)) (PStr test_email) w)
    as (d1 & [Htr Hf] & Hres).
  { intros w0. left. reflexivity. }
  destruct (render_and_send env config subject r0 (@mret M _ _ (PStr test_email)) w)
    as [[id|x|c] w1]; cbn [fst snd] in *.
  - destruct Hres as (raw & Ho & Hrf).
    unfold logging, emit. eexists _, _. split; [reflexivity|]. cbn [trace fs].
    split; [rewrite Htr, <- app_assoc; reflexivity|]. split; [exact Hf|].
    rewrite obs_app, Ho. apply test_sent. exact Hrf.
  - unfold logging, emit. eexists _, _. split; [reflexivity|]. cbn [trace fs].
    split; [rewrite Htr, <- app_assoc; reflexivity|]. split; [exact Hf|].
    rewrite obs_app. cbn [obs List.filter observable].
    apply test_failed.
    + destruct Hres as [-> | [-> | (raw & -> & _)]]; constructor.
    + intros raw Hin.
      destruct Hres as [Ho | [Ho | (raw' & Ho & Hrf)]]; rewrite Ho in Hin.
      * inversion Hin.
      * apply list_elem_of_In in Hin. simpl in Hin.
        destruct Hin as [Hin | []]. discriminate Hin.
      * apply list_elem_of_In in Hin. simpl in Hin.
        destruct Hin as [Hin | [Hin | []]]; [discriminate Hin|].
        injection Hin as <-. exact Hrf.
  - destruct Hres.
Qed.

Lemma test_outcome_no_files env config subject test_email r l :
  test_outcome env config subject test_email r l -> file_ops l = [].
Proof.
  intros [raw id _ | pre x Hpre _]; [reflexivity|].
  destruct Hpre; reflexivity.
Qed.

(** C5, as the claim states it, fails: the check that something is left to
    send comes before the test-mode branch, so the stored checkpoint decides
    whether the test send happens at all.  Same recipients, same
    configuration with the test flag set: one send to the test address when
    there is no checkpoint, none when the checkpoint is the last recipient's
    Email. *)
Lemma test_mode_isolation_counterexample :
  let recipients := [recipient_of "A" "a@x"; recipient_of "B" "b@x"] in
  let w := world_of [("template.html", "T")] in
  let w_done := world_of [("template.html", "T"); (LAST_SENT_FILE, "b@x")] in
  cfg_test test_config = Some true
  /\ send_calls (trace (run demo_env test_config recipients w).2)
     = [PStr "test@example.org"]
  /\ length (api_sends (trace (run demo_env test_config recipients w).2)) = 1
  /\ send_calls (trace (run demo_env test_config recipients w_done).2) = []
  /\ api_sends (trace (run demo_env test_config recipients w_done).2) = []
  /\ (run demo_env test_config recipients w_done).1 = Ok tt.
Proof. intros recipients w w_done. vm_compute. repeat split; reflexivity. Qed.

(** C5 (amended): in a run with the test flag set and a non-empty test
    address, if the resume offset reaches the recipient count the run ends
    before any send; otherwise there is one attempt and the run then returns
    normally whether it succeeded or failed: at most one call of
    [send_message] and of the Gmail client, to the test address, with content
    rendered for the first recipient of the full list, and no file is opened
    or written.  Beyond that first check the stored checkpoint has no
    effect: two runs that differ only in the checkpoint file and both get
    past the check end alike and leave the same observable trace. *)
Theorem test_mode_isolation env config subject test_email recipients :
  cfg_subject config = Some subject ->
  cfg_test config = Some true ->
  cfg_test_email_recipient config = Some test_email ->
  truthy test_email = true ->
  Forall has_email_key recipients ->
  (forall w,
      exists start_index delta w',
        resume_offset recipients (stored_value (fs w !! LAST_SENT_FILE)) w
        = (Ok start_index, w)
        /\ run env config recipients w = (Ok tt, w')
        /\ trace w' = trace w ++ delta
        /\ fs w' = fs w
        /\ file_ops delta = []
        /\ if (length recipients <=? start_index)%nat then obs delta = []
           else exists r0,
                  recipients !! 0 = Some r0
                  /\ test_outcome env config subject test_email r0 (obs delta))
  /\ (forall w1 w2 start1 start2,
        same_but_checkpoint w1 w2 ->
        resume_offset recipients (stored_value (fs w1 !! LAST_SENT_FILE)) w1
        = (Ok start1, w1) ->
        resume_offset recipients (stored_value (fs w2 !! LAST_SENT_FILE)) w2
        = (Ok start2, w2) ->
        start1 < length recipients ->
        start2 < length recipients ->
        (run env config recipients w1).1 = (run env config recipients w2).1
        /\ exists delta1 delta2,
             trace (run env config recipients w1).2 = trace w1 ++ delta1
             /\ trace (run env config recipients w2).2 = trace w2 ++ delta2
             /\ obs delta1 = obs delta2).
Proof.
  intros Hs Ht He Hte Hkeys.
  assert (Hrun : forall w, exists k,
    resume_offset recipients (stored_value (fs w !! LAST_SENT_FILE)) w = (Ok k, w)
    /\ k <= length recipients
    /\ run env config recipients w
       = (if (length recipients <=? k)%nat then logging INFO MsgAllSent
          else logging INFO (MsgPreparing (length recipients - k)) ;;
               test_send env config subject test_email recipients)
           (mkWorld (fs w) (clock w)
              (trace w ++ checkpoint_log (fs w !! LAST_SENT_FILE)) (heap w))).
  { intros w. rewrite (run_keys _ _ _ _ _ _ _ Hs Ht He). unfold resume_and_send.
    rewrite (bind_ok _ _ _ _ _ (get_last_sent_run w)).
    set (w0 := mkWorld _ _ _ _).
    destruct (resume_offset_total recipients (stored_value (fs w !! LAST_SENT_FILE))
                w Hkeys) as (k & Hk & Hle).
    exists k. split; [exact Hk|]. split; [exact Hle|].
    destruct (resume_offset_total recipients (stored_value (fs w !! LAST_SENT_FILE))
                w0 Hkeys) as (k' & Hk' & _).
    rewrite (bind_ok _ _ _ _ _ Hk').
    replace k' with k; [reflexivity|].
    revert Hk Hk'. clear. 
    destruct (stored_value _) as [c|]; cbn [resume_offset];
      [destruct (truthy c)|]; try (intros [= <-] [= <-]; reflexivity).
    generalize 0. induction recipients as [|r rs IH]; intros i.
    - intros [= <-] [= <-]. reflexivity.
    - cbn [find_start]. unfold getitem.
      destruct (fields r !! "Email") as [v|]; [|discriminate].
      rewrite !bind_run. cbn [mret M_ret].
      destruct (py_eq_str v c); [intros [= <-] [= <-]; reflexivity | apply IH]. }
  split.
  - intros w. destruct (Hrun w) as (k & Hk & Hle & ->).
    exists k. destruct (length recipients <=? k)%nat eqn:Hgate.
    + eexists _, _. split; [exact Hk|]. split; [reflexivity|]. cbn [trace fs].
      split; [rewrite <- app_assoc; reflexivity|]. split; [reflexivity|].
      rewrite <- file_ops_obs, obs_app, obs_checkpoint_log. split; reflexivity.
    + apply Nat.leb_gt in Hgate.
      destruct (lookup_lt_is_Some_2 recipients 0) as [r0 Hr0]; [lia|].
      rewrite bind_run. unfold logging at 1, emit at 1.
      edestruct (test_send_spec env config subject test_email recipients r0)
        as (d & w' & Hsend & Htr & Hf & Hout); [exact Hte | exact Hr0|].
      rewrite Hsend. eexists _, w'. split; [exact Hk|]. split; [reflexivity|].
      rewrite Htr, Hf. cbn [trace fs].
      split; [rewrite <- !app_assoc; reflexivity|]. split; [reflexivity|].
      rewrite <- file_ops_obs, !obs_app, obs_checkpoint_log.
      cbn [obs List.filter observable app].
      split; [exact (test_outcome_no_files _ _ _ _ _ _ Hout)|].
      exists r0. split; [exact Hr0 | exact Hout].
  - intros w1 w2 start1 start2 Hsim Hk1 Hk2 Hlt1 Hlt2.
    destruct (Hrun w1) as (k1 & Hk1' & _ & ->).
    destruct (Hrun w2) as (k2 & Hk2' & _ & ->).
    rewrite Hk1 in Hk1'. injection Hk1' as <-.
    rewrite Hk2 in Hk2'. injection Hk2' as <-.
    rewrite (proj2 (Nat.leb_gt _ _) Hlt1), (proj2 (Nat.leb_gt _ _) Hlt2).
    rewrite !logging_then. cbn [fs clock trace heap].
    set (wa := mkWorld (fs w1) _ _ _). set (wb := mkWorld (fs w2) _ _ _).
    destruct (insensitive_test_send env config subject test_email recipients
                wa wb) as (Hr & _ & d & Ha & Hb).
    { destruct Hsim as (Hc & Hh & Hf). split; [exact Hc|]. split; [exact Hh | exact Hf]. }
    subst wa wb. cbn [trace] in Ha, Hb.
    split; [exact Hr|].
    eexists _, _. rewrite Ha, Hb, <- !app_assoc.
    split; [reflexivity|]. split; [reflexivity|].
    rewrite !obs_app, !obs_checkpoint_log. reflexivity.
Qed.

Lemma test_mode_isolation_witness :
  let recipients := [recipient_of "A" "a@x"; recipient_of "B" "b@x"] in
  let w := world_of [("template.html", "T")] in
  exists start_index delta w',
    resume_offset recipients (stored_value (fs w !! LAST_SENT_FILE)) w
    = (Ok start_index, w)
    /\ run demo_env test_config recipients w = (Ok tt, w')
    /\ trace w' = trace w ++ delta
    /\ fs w' = fs w
    /\ file_ops delta = []
    /\ if (length recipients <=? start_index)%nat then obs delta = []
       else exists r0,
              recipients !! 0 = Some r0
              /\ test_outcome demo_env test_config "Hello" "test@example.org" r0
                   (obs delta).
Proof.
  intros recipients w.
  apply (proj1 (test_mode_isolation demo_env test_config "Hello" "test@example.org"
                  recipients eq_refl eq_refl eq_refl eq_refl
                  ltac:(repeat constructor; eexists; reflexivity)) w).
Defined.

(** * Further properties *)

(** ** The checkpoint store *)

Lemma no_cr_universal_newlines s : no_cr (universal_newlines s) = true.
Proof.
  unfold no_cr.
  assert (H : forall n s, String.length s <= n ->
            forallb (fun c => negb (Ascii.eqb c CR))
              (list_ascii_of_string (universal_newlines s)) = true).
  { clear s. induction n as [|n IH]; intros [|c s] Hlen; simpl in *;
      try reflexivity; try lia.
    destruct (Ascii.eqb c CR) eqn:Ec.
    - destruct s as [|c' s]; [reflexivity|].
      destruct (Ascii.eqb c' LF); simpl.
      + apply IH. simpl in Hlen. lia.
      + apply (IH (String c' s)). simpl in *. lia.
    - simpl. rewrite Ec. simpl. apply IH. lia. }
  apply (H (String.length s)). lia.
Qed.

Lemma no_cr_lstrip s : no_cr s = true -> no_cr (lstrip s) = true.
Proof.
  unfold no_cr. induction s as [|c s IH]; [reflexivity|].
  intros H. simpl. destruct (is_space c); [|exact H].
  simpl in H. apply andb_prop in H as [_ H]. apply IH, H.
Qed.

Lemma no_cr_rstrip s : no_cr s = true -> no_cr (rstrip s) = true.
Proof.
  unfold no_cr. induction s as [|c s IH]; [reflexivity|].
  simpl. intros [Hc Hs]%andb_prop. specialize (IH Hs).
  destruct (rstrip s) as [|c' r].
  - destruct (is_space c); [reflexivity|]. simpl. rewrite Hc. reflexivity.
  - simpl in *. rewrite Hc. exact IH.
Qed.

Lemma first_char_lstrip s c :
  first_char (lstrip s) = Some c -> is_space c = false.
Proof.
  induction s as [|c' s IH]; [discriminate|]. simpl.
  destruct (is_space c') eqn:E; [exact IH|].
  simpl. intros [= <-]. exact E.
Qed.

Lemma first_char_rstrip s c :
  first_char s = Some c -> is_space c = false -> first_char (rstrip s) = Some c.
Proof.
  destruct s as [|c' s]; [discriminate|]. simpl. intros [= ->] Hc.
  destruct (rstrip s); [rewrite Hc|]; reflexivity.
Qed.

Lemma last_char_rstrip s c :
  last_char (rstrip s) = Some c -> is_space c = false.
Proof.
  induction s as [|c' s IH]; [discriminate|]. simpl.
  destruct (rstrip s) as [|c'' r].
  - destruct (is_space c') eqn:E; [discriminate|].
    simpl. intros [= <-]. exact E.
  - exact IH.
Qed.

Lemma truthy_chars s :
  truthy s = true -> exists a b, first_char s = Some a /\ last_char s = Some b.
Proof.
  induction s as [|c s IH]; [discriminate|]. intros _.
  exists c. destruct s as [|c' s]; [exists c; split; reflexivity|].
  destruct (IH eq_refl) as (a & b & _ & Hb). exists b. split; [reflexivity|exact Hb].
Qed.

(** Whatever the file holds, a value read from it is [clean]. *)
Lemma stored_value_clean content v :
  stored_value content = Some v -> clean v = true.
Proof.
  unfold stored_value. destruct content as [c|]; [|discriminate]. cbn zeta.
  destruct (truthy (strip (universal_newlines c))) eqn:Ht; [|discriminate].
  intros [= <-]. unfold clean.
  destruct (truthy_chars _ Ht) as (a & b & Ha & Hb).
  rewrite Ha, Hb. unfold strip in *.
  rewrite no_cr_rstrip by apply no_cr_lstrip, no_cr_universal_newlines.
  rewrite (last_char_rstrip _ _ Hb).
  destruct (first_char (lstrip (universal_newlines c))) as [a'|] eqn:Hl.
  - pose proof (first_char_lstrip _ _ Hl) as Hs.
    rewrite (first_char_rstrip _ _ Hl Hs) in Ha. injection Ha as <-.
    rewrite Hs. reflexivity.
  - destruct (lstrip (universal_newlines c)); [discriminate Ht | discriminate Hl].
Qed.

(** X1: whatever [last_sent.txt] holds, a value [get_last_sent] returns is
    never empty, has no carriage return and no white space at either end;
    [get_last_sent] leaves the files as they are; and writing the value back
    with [set_last_sent] and reading again returns the same value. *)
Theorem checkpoint_value_stable w v :
  (get_last_sent w).1 = Ok (Some v) ->
  clean v = true
  /\ fs (get_last_sent w).2 = fs w
  /\ (get_last_sent (set_last_sent (PStr v) (get_last_sent w).2).2).1
     = Ok (Some v).
Proof.
  rewrite get_last_sent_value. intros [= Hv].
  pose proof (stored_value_clean _ _ Hv) as Hc.
  split; [exact Hc|]. split; [rewrite get_last_sent_run; reflexivity|].
  rewrite get_last_sent_value, set_last_sent_str. cbn [fs snd].
  rewrite lookup_insert_eq. unfold stored_value. cbn zeta.
  rewrite (strip_clean _ Hc), (clean_truthy _ Hc). reflexivity.
Qed.

Lemma checkpoint_value_stable_witness :
  let w := world_of [(LAST_SENT_FILE, String CR (String LF "  a@x.org  "))] in
  (get_last_sent w).1 = Ok (Some "a@x.org")
  /\ clean "a@x.org" = true
  /\ (get_last_sent (set_last_sent (PStr "a@x.org") (get_last_sent w).2).2).1
     = Ok (Some "a@x.org").
Proof.
  intros w. split; [reflexivity|].
  destruct (checkpoint_value_stable w "a@x.org" eq_refl) as (Hc & _ & Hr).
  split; [exact Hc | exact Hr].
Defined.

(** X2: [set_last_sent] opens the checkpoint file for writing before it
    writes.  A string therefore replaces what was stored, it is not added to
    it: after two writes the file holds the second value alone; and no other
    file is touched.  A value that is not a string raises [TypeError] after
    the file was opened: the checkpoint that was stored is lost, the file is
    left empty, and [get_last_sent] then returns [None]. *)
Theorem set_last_sent_truncates a b w :
  let w2 := (set_last_sent (PStr b) (set_last_sent (PStr a) w).2).2 in
  let w0 := (set_last_sent PNone w).2 in
  fs w2 !! LAST_SENT_FILE = Some b
  /\ (forall p, p <> LAST_SENT_FILE -> fs w2 !! p = fs w !! p)
  /\ (get_last_sent w2).1 = Ok (stored_value (Some b))
  /\ (set_last_sent PNone w).1 = Raise TypeError
  /\ fs w0 = <[LAST_SENT_FILE := ""]> (fs w)
  /\ checkpoint_writes (trace w0) = checkpoint_writes (trace w)
  /\ (get_last_sent w0).1 = Ok None.
Proof.
  intros w2 w0. subst w2 w0.
  rewrite !set_last_sent_str, set_last_sent_none. cbn [fst snd fs trace].
  split; [apply lookup_insert_eq|]. split.
  { intros p Hp. rewrite !lookup_insert_ne by congruence. reflexivity. }
  split.
  { rewrite get_last_sent_value. cbn [fs]. rewrite lookup_insert_eq. reflexivity. }
  split; [reflexivity|]. split; [reflexivity|]. split.
  - unfold checkpoint_writes. rewrite omap_app. cbn [omap list_omap]. apply app_nil_r.
  - rewrite get_last_sent_value. cbn [fs]. rewrite lookup_insert_eq. reflexivity.
Qed.

Lemma universal_newlines_app a : forall b,
  (forall c, first_char b = Some c -> Ascii.eqb c LF = false) ->
  universal_newlines (a ++ b)%string
  = (universal_newlines a ++ universal_newlines b)%string.
Proof.
  assert (H : forall n a b, String.length a <= n ->
            (forall c, first_char b = Some c -> Ascii.eqb c LF = false) ->
            universal_newlines (a ++ b)%string
            = (universal_newlines a ++ universal_newlines b)%string).
  { clear a. induction n as [|n IH]; intros [|c a] b Hlen Hb;
      try reflexivity; try (simpl in Hlen; lia).
    rewrite append_cons. cbn [universal_newlines].
    destruct (Ascii.eqb c CR).
    - destruct a as [|c' a].
      + rewrite append_nil. cbn [String.append].
        destruct b as [|c' b]; [reflexivity|].
        rewrite (Hb c' eq_refl). reflexivity.
      + rewrite append_cons. destruct (Ascii.eqb c' LF).
        * rewrite append_cons. f_equal. apply IH; [simpl in Hlen; lia | exact Hb].
        * rewrite append_cons. f_equal. rewrite <- append_cons.
          apply IH; [simpl in *; lia | exact Hb].
    - rewrite append_cons. f_equal. apply IH; [simpl in Hlen; lia | exact Hb]. }
  intros b. apply (H (String.length a)). lia.
Qed.

Lemma universal_newlines_no_cr_app e s :
  no_cr e = true ->
  universal_newlines (e ++ s)%string = (e ++ universal_newlines s)%string.
Proof.
  unfold no_cr. induction e as [|c e IH]; [reflexivity|].
  cbn [list_ascii_of_string forallb]. intros [Hc He]%andb_prop.
  rewrite !append_cons. cbn [universal_newlines].
  destruct (Ascii.eqb c CR); [discriminate|]. f_equal. apply IH, He.
Qed.

Lemma lstrip_app_space a s : all_space a = true -> lstrip (a ++ s)%string = lstrip s.
Proof.
  unfold all_space. induction a as [|c a IH]; [reflexivity|].
  cbn [list_ascii_of_string forallb]. intros [Hc Ha]%andb_prop.
  rewrite append_cons. cbn [lstrip]. rewrite Hc. apply IH, Ha.
Qed.

Lemma rstrip_all_space b : all_space b = true -> rstrip b = EmptyString.
Proof.
  unfold all_space. induction b as [|c b IH]; [reflexivity|].
  cbn [list_ascii_of_string forallb]. intros [Hc Hb]%andb_prop.
  cbn [rstrip]. rewrite (IH Hb), Hc. reflexivity.
Qed.

Lemma rstrip_app_space s b : all_space b = true -> rstrip (s ++ b)%string = rstrip s.
Proof.
  intros Hb. induction s as [|c s IH].
  - rewrite append_nil. apply rstrip_all_space, Hb.
  - rewrite append_cons. cbn [rstrip]. rewrite IH. reflexivity.
Qed.

(** X3: white space around the value in [last_sent.txt] (a final line end
    left by an editor, Windows line ends, leading blanks) is ignored:
    [get_last_sent] returns the value itself. *)
Theorem checkpoint_ignores_surrounding_space w pre e post :
  clean e = true ->
  all_space pre = true ->
  all_space post = true ->
  fs w !! LAST_SENT_FILE = Some (pre ++ e ++ post)%string ->
  (get_last_sent w).1 = Ok (Some e).
Proof.
  intros Hc Hpre Hpost Hf.
  rewrite get_last_sent_value, Hf. unfold stored_value. cbn zeta.
  pose proof Hc as Hc'. unfold clean in Hc'.
  apply andb_prop in Hc' as [[Hcr Hfirst]%andb_prop Hlast].
  destruct (first_char e) as [c1|] eqn:E1; [|discriminate].
  destruct (last_char e) as [c2|] eqn:E2; [|discriminate].
  assert (Hs1 : is_space c1 = false) by (destruct (is_space c1); done).
  assert (Hs2 : is_space c2 = false) by (destruct (is_space c2); done).
  assert (Hun : universal_newlines (pre ++ e ++ post)%string
                = (universal_newlines pre ++ e ++ universal_newlines post)%string).
  { rewrite universal_newlines_app.
    - f_equal. apply universal_newlines_no_cr_app, Hcr.
    - intros c Hp. destruct e as [|c' e']; [discriminate|].
      rewrite append_cons in Hp. cbn [first_char] in Hp, E1.
      injection Hp as <-. injection E1 as <-.
      destruct (Ascii.eqb c' LF) eqn:El; [|reflexivity].
      apply Ascii.eqb_eq in El. subst c'. discriminate Hs1. }
  rewrite Hun. unfold strip.
  rewrite lstrip_app_space by (apply all_space_universal_newlines, Hpre).
  assert (Hfe : first_char (e ++ universal_newlines post)%string = Some c1).
  { destruct e; [discriminate|]. rewrite append_cons. exact E1. }
  rewrite (lstrip_first _ _ Hfe Hs1).
  rewrite rstrip_app_space by (apply all_space_universal_newlines, Hpost).
  rewrite (rstrip_last _ _ E2 Hs2), (clean_truthy _ Hc). reflexivity.
Qed.

Lemma checkpoint_ignores_surrounding_space_witness :
  (get_last_sent
     (world_of [(LAST_SENT_FILE, ("  " ++ "a@x.org" ++ String CR (String LF ""))%string)])).1
  = Ok (Some "a@x.org").
Proof.
  apply (checkpoint_ignores_surrounding_space _ "  " "a@x.org"
           (String CR (String LF ""))); reflexivity.
Defined.

(** ** Loading the configuration and the recipients *)

(** X4: a [ConfigError] from [Config("config.json")] is logged and ends the
    process with status 1: [start] goes no further, reading neither the
    recipients nor the checkpoint.  [load_config] catches nothing else: any
    other exception of the parser leaves [start] as it is, unlogged. *)
Theorem start_config_error env w content e :
  fs w !! "config.json" = Some content ->
  config_parse env content = inl e ->
  start env w
  = match e with
    | ConfigError _ =>
        (Exit 1,
         mkWorld (fs w) (clock w)
           (trace w ++ [ELog INFO MsgStarting;
                        ELog ERROR (MsgConfigurationError e)]) (heap w))
    | _ =>
        (Raise e,
         mkWorld (fs w) (clock w) (trace w ++ [ELog INFO MsgStarting]) (heap w))
    end.
Proof.
  intros Hf Hc. unfold start. rewrite logging_then.
  unfold load_config. rewrite bind_run, try_except_run, bind_run.
  unfold Config_init. cbn [fs]. rewrite Hf, Hc. cbn [of_sum raise].
  destruct e; try reflexivity.
  rewrite logging_then. cbn [fs clock trace heap sys_exit].
  rewrite <- app_assoc. reflexivity.
Qed.

Lemma start_config_error_witness :
  let env := mkEnv simple_csv (fun _ => inl (ConfigError "bad json"))
               (pil_open demo_env) (pil_render demo_env) (str_format demo_env)
               (authenticate demo_env) (api_send demo_env)
               (msg_as_bytes demo_env) (guess_mime_type demo_env)
               (bytes_decode demo_env) in
  start env (world_of [("config.json", "{")])
  = (Exit 1,
     mkWorld (list_to_map [("config.json", "{")]) 0
       [ELog INFO MsgStarting;
        ELog ERROR (MsgConfigurationError (ConfigError "bad json"))] []).
Proof.
  intros env.
  exact (start_config_error env (world_of [("config.json", "{")]) "{"
           (ConfigError "bad json") eq_refl eq_refl).
Defined.

(** X5: when the recipients file does not exist, [load_recipients] logs that
    and ends the process with status 1; [start], having loaded the
    configuration, stops there: nothing is sent and no file is touched. *)
Theorem load_recipients_missing_file env w :
  (forall csv_file,
      fs w !! csv_file = None ->
      load_recipients env csv_file w
      = (Exit 1,
         mkWorld (fs w) (clock w)
           (trace w ++ [ELog ERROR (MsgRecipientsNotFound csv_file)]) (heap w)))
  /\ (forall content config,
        fs w !! RECIPIENTS_CSV = None ->
        fs w !! "config.json" = Some content ->
        config_parse env content = inr config ->
        start env w
        = (Exit 1,
           mkWorld (fs w) (clock w)
             (trace w ++ [ELog INFO MsgStarting; ELog INFO MsgConfigLoaded;
                          ELog ERROR (MsgRecipientsNotFound RECIPIENTS_CSV)])
             (heap w))).
Proof.
  assert (H : forall csv_file w0,
      fs w0 !! csv_file = None ->
      load_recipients env csv_file w0
      = (Exit 1,
         mkWorld (fs w0) (clock w0)
           (trace w0 ++ [ELog ERROR (MsgRecipientsNotFound csv_file)]) (heap w0))).
  { intros csv_file w0 Hf. unfold load_recipients. rewrite bind_run.
    unfold path_exists. rewrite Hf.
    rewrite bool_decide_false by (intros [x Hx]; discriminate Hx).
    reflexivity. }
  split; [intros csv_file; apply H|].
  intros content config Hr Hf Hc. unfold start. rewrite logging_then.
  unfold load_config. rewrite bind_run, try_except_run, bind_run.
  unfold Config_init. cbn [fs]. rewrite Hf, Hc. cbn [of_sum mret M_ret].
  rewrite logging_then. cbn [fs clock trace heap mret M_ret].
  rewrite bind_run, H by exact Hr. cbn [fs clock trace heap].
  rewrite <- !app_assoc. reflexivity.
Qed.

Lemma load_recipients_missing_file_witness :
  start demo_env (world_of [("config.json", "{}")])
  = (Exit 1,
     mkWorld (list_to_map [("config.json", "{}")]) 0
       [ELog INFO MsgStarting; ELog INFO MsgConfigLoaded;
        ELog ERROR (MsgRecipientsNotFound RECIPIENTS_CSV)] []).
Proof.
  exact (proj2 (load_recipients_missing_file demo_env
                  (world_of [("config.json", "{}")]))
           "{}" demo_config eq_refl eq_refl eq_refl).
Defined.

(** X6: [load_recipients] returns the whole list or none of it: when the
    tokeniser fails on a later row of a file whose header row is complete, the
    exception leaves [load_recipients], the rows read so far are dropped, and
    nothing is logged. *)
Theorem load_recipients_reader_error env csv_file content fieldnames data e w :
  fs w !! csv_file = Some content ->
  csv_reader env content = (fieldnames :: data, Some e) ->
  (forall h, h ∈ required_headers -> h ∈ fieldnames) ->
  load_recipients env csv_file w = (Raise e, w).
Proof.
  intros Hf Hr Hall. unfold load_recipients. rewrite bind_run.
  unfold path_exists. rewrite bool_decide_true by eauto. cbn [negb].
  rewrite bind_run. unfold read_bytes. rewrite Hf, Hr.
  apply issubset_spec in Hall. rewrite Hall. reflexivity.
Qed.

Lemma load_recipients_reader_error_witness :
  load_recipients broken_csv_env RECIPIENTS_CSV (world_of [(RECIPIENTS_CSV, "x")])
  = (Raise (LibraryError "csv.Error"), world_of [(RECIPIENTS_CSV, "x")]).
Proof.
  apply (load_recipients_reader_error broken_csv_env RECIPIENTS_CSV "x" csv_header
           [["A"; "L"; "a@x"; ""; ""; ""; ""; ""; ""]]);
    [reflexivity | reflexivity |].
  intros h Hh. exact Hh.
Defined.

Lemma foldl_none_last (ks : list string) : forall (d : gmap string pyval) h,
  h ∈ ks -> foldl (fun d k => <[k := PNone]> d) d ks !! h = Some PNone.
Proof.
  induction ks as [|k ks IH]; intros d h Hh; [inversion Hh|].
  cbn [foldl]. destruct (decide (h ∈ ks)) as [Hin|Hnin]; [apply IH, Hin|].
  apply elem_of_cons in Hh as [->|Hh]; [|contradiction].
  rewrite foldl_none_other by exact Hnin. apply lookup_insert_eq.
Qed.

(** X7: every record [load_recipients] returns has an entry for each of the
    nine required headers, so [recipient['Email']] and
    [recipient['First Name']] never raise [KeyError] on it; the entry of a
    header that a short row does not reach is [None], not a string. *)
Theorem loaded_recipients_entries env csv_file w recipients w' :
  load_recipients env csv_file w = (Ok recipients, w') ->
  Forall (fun r => forall h, h ∈ required_headers ->
            exists v, forall w0, getitem r h w0 = (Ok v, w0)) recipients
  /\ exists content fieldnames data,
       fs w !! csv_file = Some content
       /\ csv_reader env content = (fieldnames :: data, None)
       /\ recipients
          = List.map (dict_of_row fieldnames)
              (List.filter (fun row => negb (is_blank row)) data)
       /\ forall row h,
            h ∈ drop (length row) fieldnames ->
            fields (dict_of_row fieldnames row) !! h = Some PNone.
Proof.
  intros Hrun. split.
  - destruct (load_recipients_have_keys _ _ _ _ _ Hrun) as [Hall _].
    eapply Forall_impl; [exact Hall|]. intros r Hr h Hh.
    destruct (Hr h Hh) as [v Hv]. exists v. intros w0.
    unfold getitem. rewrite Hv. reflexivity.
  - unfold load_recipients in Hrun. rewrite bind_run in Hrun.
    unfold path_exists in Hrun.
    destruct (bool_decide (is_Some (fs w !! csv_file))); cbn [negb] in Hrun;
      [|discriminate].
    rewrite bind_run in Hrun. unfold read_bytes in Hrun.
    destruct (fs w !! csv_file) as [content|]; [|discriminate].
    destruct (csv_reader env content) as [[|fieldnames data] err] eqn:Hr.
    + destruct err; discriminate.
    + destruct (issubset required_headers fieldnames); cbn [negb] in Hrun;
        [|discriminate].
      destruct err; [discriminate|].
      injection Hrun as <- _.
      exists content, fieldnames, data.
      split; [reflexivity|]. split; [exact Hr|]. split; [reflexivity|].
      intros row h Hh. unfold dict_of_row.
      assert (Hlt : length row < length fieldnames).
      { destruct (decide (length row < length fieldnames)) as [|Hge]; [assumption|].
        rewrite drop_ge in Hh by lia. inversion Hh. }
      rewrite (proj2 (Nat.ltb_ge _ _)) by lia.
      rewrite (proj2 (Nat.ltb_lt _ _)) by lia.
      cbn [fields]. apply foldl_none_last, Hh.
Qed.

Lemma loaded_recipients_entries_witness :
  let content := ("First Name,Last Name,Email,Phone,Address,Profession,Stage,Industry,LinkedIn"
                  ++ String LF "A,B")%string in
  let w := world_of [(RECIPIENTS_CSV, content)] in
  exists r,
    (load_recipients demo_env RECIPIENTS_CSV w).1 = Ok [r]
    /\ fields r !! "Email" = Some PNone
    /\ exists v, forall w0, getitem r "Email" w0 = (Ok v, w0).
Proof.
  intros content w.
  destruct (load_recipients demo_env RECIPIENTS_CSV w) as [[rs|x|c] w'] eqn:E;
    [|exfalso; vm_compute in E; discriminate E..].
  destruct (loaded_recipients_entries demo_env RECIPIENTS_CSV w rs w' E)
    as [Hkeys _].
  assert (Hrs : rs = [dict_of_row csv_header ["A"; "B"]]).
  { vm_compute in E. injection E as <- _. reflexivity. }
  subst rs. eexists. split; [reflexivity|]. split; [reflexivity|].
  apply Forall_cons in Hkeys as [Hk _]. apply (Hk "Email").
  apply list_elem_of_In. simpl. tauto.
Defined.

(** ** What a computation keeps to *)

Section KeepsTo.

Context (R : relation (gmap string string)) `{!Reflexive R, !Transitive R}.
Context (P : event -> bool).

(** A step that leaves the files and the trace alone. *)
Lemma keeps_to_silent {A} (m : M A) :
  (forall w, (forall c, (m w).1 <> Exit c)
             /\ fs (m w).2 = fs w /\ trace (m w).2 = trace w
             /\ clock w <= clock (m w).2) ->
  keeps_to R P m.
Proof.
  intros Hm w. destruct (Hm w) as (He & Hf & Ht & Hc).
  split; [exact He|]. split; [rewrite Hf; reflexivity|]. split; [exact Hc|].
  exists []. rewrite Ht, app_nil_r. split; reflexivity.
Qed.

Lemma keeps_to_ret {A} (a : A) : keeps_to R P (mret a).
Proof. apply keeps_to_silent. intros w. cbn. repeat split; [discriminate | lia]. Qed.

Lemma keeps_to_raise {A} e : keeps_to R P (raise (A := A) e).
Proof. apply keeps_to_silent. intros w. cbn. repeat split; [discriminate | lia]. Qed.

Lemma keeps_to_emit e : P e = true -> keeps_to R P (emit e).
Proof.
  intros He w. cbn. split; [discriminate|]. split; [reflexivity|].
  split; [lia|]. exists [e]. split; [reflexivity|]. cbn. rewrite He. reflexivity.
Qed.

Lemma keeps_to_of_sum {A} (r : exn + A) : keeps_to R P (of_sum r).
Proof. destruct r; [apply keeps_to_raise | apply keeps_to_ret]. Qed.

Lemma keeps_to_getitem r key : keeps_to R P (getitem r key).
Proof.
  unfold getitem. destruct (fields r !! key);
    [apply keeps_to_ret | apply keeps_to_raise].
Qed.

Lemma keeps_to_list_getitem rs i : keeps_to R P (list_getitem rs i).
Proof.
  unfold list_getitem. destruct (rs !! i);
    [apply keeps_to_ret | apply keeps_to_raise].
Qed.

Lemma keeps_to_config_get {A} key (v : option A) : keeps_to R P (config_get key v).
Proof. destruct v; [apply keeps_to_ret | apply keeps_to_raise]. Qed.

Lemma keeps_to_bind {A B} (m : M A) (k : A -> M B) :
  keeps_to R P m -> (forall a, keeps_to R P (k a)) -> keeps_to R P (m ≫= k).
Proof.
  intros Hm Hk w. rewrite bind_run.
  destruct (Hm w) as (He & Hf & Hc & d & Ht & Hd).
  destruct (m w) as [[a|e|c] w1]; cbn [fst snd] in *.
  - destruct (Hk a w1) as (He' & Hf' & Hc' & d' & Ht' & Hd').
    split; [exact He'|]. split; [etransitivity; eassumption|]. split; [lia|].
    exists (d ++ d'). rewrite Ht', Ht, app_assoc. split; [reflexivity|].
    rewrite forallb_app, Hd, Hd'. reflexivity.
  - split; [discriminate|]. split; [exact Hf|]. split; [exact Hc|].
    exists d. split; assumption.
  - exfalso. exact (He c eq_refl).
Qed.

Lemma keeps_to_try_except {A} (m : M A) (h : exn -> M A) :
  keeps_to R P m -> (forall e, keeps_to R P (h e)) -> keeps_to R P (try_except m h).
Proof.
  intros Hm Hh w. rewrite try_except_run.
  destruct (Hm w) as (He & Hf & Hc & d & Ht & Hd).
  destruct (m w) as [[a|e|c] w1]; cbn [fst snd] in *.
  - split; [discriminate|]. split; [exact Hf|]. split; [exact Hc|].
    exists d. split; assumption.
  - destruct (Hh e w1) as (He' & Hf' & Hc' & d' & Ht' & Hd').
    split; [exact He'|]. split; [etransitivity; eassumption|]. split; [lia|].
    exists (d ++ d'). rewrite Ht', Ht, app_assoc. split; [reflexivity|].
    rewrite forallb_app, Hd, Hd'. reflexivity.
  - exfalso. exact (He c eq_refl).
Qed.

Lemma keeps_to_try_reraise {A} (m : M A) (h : exn -> M unit) :
  keeps_to R P m -> (forall e, keeps_to R P (h e)) -> keeps_to R P (try_reraise m h).
Proof.
  intros Hm Hh. apply keeps_to_try_except; [exact Hm|].
  intros e. apply keeps_to_bind; [apply Hh | intros _; apply keeps_to_raise].
Qed.

Lemma keeps_to_for_each {A} (xs : list A) (f : A -> M unit) :
  (forall x, keeps_to R P (f x)) -> keeps_to R P (for_each xs f).
Proof.
  intros Hf. induction xs as [|x xs IH]; [apply keeps_to_ret|].
  cbn [for_each]. apply keeps_to_bind; [apply Hf | intros _; exact IH].
Qed.

Lemma keeps_to_external {A} (f : nat -> exn + A) : keeps_to R P (external f).
Proof.
  apply keeps_to_silent. intros w. unfold external.
  destruct (f (clock w)); cbn; repeat split; try discriminate; lia.
Qed.

Lemma keeps_to_path_exists path : keeps_to R P (path_exists path).
Proof. apply keeps_to_silent. intros w. cbn. repeat split; [discriminate | lia]. Qed.

Lemma keeps_to_read_text path : keeps_to R P (read_text path).
Proof.
  apply keeps_to_silent. intros w. unfold read_text.
  destruct (fs w !! path); cbn; repeat split; try discriminate; lia.
Qed.

Lemma keeps_to_read_bytes path : keeps_to R P (read_bytes path).
Proof.
  apply keeps_to_silent. intros w. unfold read_bytes.
  destruct (fs w !! path); cbn; repeat split; try discriminate; lia.
Qed.

Lemma keeps_to_new_message n : keeps_to R P (new_message n).
Proof. apply keeps_to_silent. intros w. cbn. repeat split; [discriminate | lia]. Qed.

Lemma keeps_to_update_message id f : keeps_to R P (update_message id f).
Proof. apply keeps_to_silent. intros w. cbn. repeat split; [discriminate | lia]. Qed.

Lemma keeps_to_add_header id name v ps : keeps_to R P (add_header id name v ps).
Proof. apply keeps_to_update_message. Qed.

Lemma keeps_to_attach id part : keeps_to R P (attach id part).
Proof.
  apply keeps_to_silent. intros w. unfold attach.
  destruct (heap w !! id) as [[hs [s|l]]|]; cbn; repeat split; try discriminate; lia.
Qed.

Lemma keeps_to_as_bytes env id : keeps_to R P (as_bytes env id).
Proof.
  intros w. unfold as_bytes.
  destruct (snapshot _ (heap w) id) as [m|].
  - apply keeps_to_external.
  - apply (keeps_to_raise (A := string)).
Qed.

End KeepsTo.

Ltac keeps :=
  repeat match goal with
    | |- keeps_to _ _ (mret _) => apply keeps_to_ret; try exact _
    | |- keeps_to _ _ (raise _) => apply keeps_to_raise; try exact _
    | |- keeps_to _ _ (logging _ _) => (apply keeps_to_emit; try exact _); reflexivity
    | |- keeps_to _ _ (time_sleep _) => (apply keeps_to_emit; try exact _); reflexivity
    | |- keeps_to _ _ (emit _) => (apply keeps_to_emit; try exact _); reflexivity
    | |- keeps_to _ _ (of_sum _) => apply keeps_to_of_sum; try exact _
    | |- keeps_to _ _ (getitem _ _) => apply keeps_to_getitem; try exact _
    | |- keeps_to _ _ (list_getitem _ _) => apply keeps_to_list_getitem; try exact _
    | |- keeps_to _ _ (config_get _ _) => apply keeps_to_config_get; try exact _
    | |- keeps_to _ _ (external _) => apply keeps_to_external; try exact _
    | |- keeps_to _ _ (path_exists _) => apply keeps_to_path_exists; try exact _
    | |- keeps_to _ _ (read_text _) => apply keeps_to_read_text; try exact _
    | |- keeps_to _ _ (read_bytes _) => apply keeps_to_read_bytes; try exact _
    | |- keeps_to _ _ (new_message _) => apply keeps_to_new_message; try exact _
    | |- keeps_to _ _ (update_message _ _) => apply keeps_to_update_message; try exact _
    | |- keeps_to _ _ (add_header _ _ _ _) => apply keeps_to_add_header; try exact _
    | |- keeps_to _ _ (attach _ _) => apply keeps_to_attach; try exact _
    | |- keeps_to _ _ (as_bytes _ _) => apply keeps_to_as_bytes; try exact _
    | |- keeps_to _ _ (for_each _ _) => (apply keeps_to_for_each; try exact _); intros ?
    | |- keeps_to _ _ (try_reraise _ _) =>
        (apply keeps_to_try_reraise; try exact _); [|intros ?]
    | |- keeps_to _ _ (try_except _ _) =>
        (apply keeps_to_try_except; try exact _); [|intros ?]
    | |- keeps_to _ _ (_ ≫= _) => (apply keeps_to_bind; try exact _); [|intros ?]
    | |- keeps_to _ _ (if ?b then _ else _) => destruct b
    | |- keeps_to _ _ (match ?x with Some _ => _ | None => _ end) => destruct x
    | |- keeps_to _ _ (match ?x with nil => _ | cons _ _ => _ end) => destruct x
    end.

Lemma keeps_to_weaken {A} (R R' : relation (gmap string string))
    (P Q : event -> bool) (m : M A) :
  (forall f f', R f f' -> R' f f') ->
  (forall e, P e = true -> Q e = true) ->
  keeps_to R P m -> keeps_to R' Q m.
Proof.
  intros HR HPQ Hm w. destruct (Hm w) as (He & Hf & Hc & d & Ht & Hd).
  split; [exact He|]. split; [apply HR, Hf|]. split; [exact Hc|].
  exists d. split; [exact Ht|].
  apply forallb_forall. intros e He'. apply HPQ.
  exact (proj1 (forallb_forall _ _) Hd e He').
Qed.

Lemma keeps_to_add_attachment id filename :
  keeps_to eq is_attach_log (add_attachment id filename).
Proof.
  unfold add_attachment, MIMEBase, set_payload, encode_base64, set_item. keeps.
Qed.

Lemma keeps_to_build_message env d subject body gif cid attachments config :
  keeps_to eq is_attach_log
    (build_message env d subject body gif cid attachments config).
Proof.
  unfold build_message. destruct config as [config|]; [|keeps].
  unfold MIMEMultipart, MIMEText, MIMEImage, set_item. keeps;
    apply keeps_to_add_attachment.
Qed.

(** ** Rendering: the image and the body *)

(** X8: [generate_funny_image] never ends the process and never touches a
    file, and it logs exactly one line: on success the DEBUG line for the
    recipient's Email, the bytes returned being what PIL rendered for the
    text built from the recipient's first name; on failure the ERROR line
    that names the exception, and that same exception is raised again. *)
Theorem generate_funny_image_logs_once env recipient email w :
  fields recipient !! "Email" = Some email ->
  exists l m c',
    (generate_funny_image env recipient w).2
    = mkWorld (fs w) c' (trace w ++ [ELog l m]) (heap w)
    /\ match (generate_funny_image env recipient w).1 with
       | Ok gif_data =>
           l = DEBUG /\ m = MsgGeneratedGif email
           /\ exists first_name,
                fields recipient !! "First Name" = Some first_name
                /\ pil_open env (clock w) = inr tt
                /\ pil_render env (S (clock w)) (funny_text first_name)
                   = inr gif_data
       | Raise e =>
           l = ERROR /\ m = MsgFailedImage email e
           /\ (forall x, pil_open env (clock w) = inl x -> e = x /\ c' = S (clock w))
       | Exit _ => False
       end.
Proof.
  intros He. destruct w as [f c t h]. unfold generate_funny_image. run_monad.
  cbn [clock fs trace heap]. rewrite He.
  destruct (pil_open env c) as [x|[]] eqn:Ho; cbn [fst snd clock fs trace heap].
  - eexists _, _, _. split; [reflexivity|]. split; [reflexivity|].
    split; [reflexivity|]. intros x' [= <-]. split; reflexivity.
  - destruct (fields recipient !! "First Name") as [first_name|] eqn:Hf;
      cbn [fst snd clock fs trace heap].
    + destruct (pil_render env (S c) (funny_text first_name)) as [x|gif] eqn:Hr;
        cbn [fst snd clock fs trace heap].
      * eexists _, _, _. split; [reflexivity|]. split; [reflexivity|].
        split; [reflexivity|]. intros x' [=].
      * eexists _, _, _. split; [reflexivity|]. split; [reflexivity|].
        split; [reflexivity|]. exists first_name.
        split; [reflexivity|]. split; [reflexivity | exact Hr].
    + eexists _, _, _. split; [reflexivity|]. split; [reflexivity|].
      split; [reflexivity|]. intros x' [=].
Qed.

Lemma generate_funny_image_logs_once_witness :
  exists l m c',
    (generate_funny_image demo_env (recipient_of "Ann" "a@x") (world_of [])).2
    = mkWorld ∅ c' [ELog l m] []
    /\ l = DEBUG /\ m = MsgGeneratedGif (PStr "a@x").
Proof.
  destruct (generate_funny_image_logs_once demo_env (recipient_of "Ann" "a@x")
              (PStr "a@x") (world_of []) eq_refl) as (l & m & c' & Hw & Hr).
  exists l, m, c'. split; [exact Hw|].
  destruct Hr as (Hl & Hm & _). split; [exact Hl | exact Hm].
Defined.

(** X9: [generate_email_body] returns the template of [template.html], read
    with its line ends normalised, formatted with the recipient's first name
    and Email and the [<img src="cid:...">] tag, and it is then silent; any
    failure (a missing template first of all) is logged once as a template
    failure and the exception is raised again.  It never ends the process
    and never writes. *)
Theorem generate_email_body_outcomes env recipient image_cid w :
  match (generate_email_body env recipient image_cid w).1 with
  | Ok body =>
      (generate_email_body env recipient image_cid w).2 = w
      /\ exists template first_name email,
           fs w !! "template.html" = Some template
           /\ fields recipient !! "First Name" = Some first_name
           /\ fields recipient !! "Email" = Some email
           /\ str_format env (universal_newlines template) first_name email
                (dynamic_image_tag image_cid) = inr body
  | Raise e =>
      (generate_email_body env recipient image_cid w).2
      = mkWorld (fs w) (clock w)
          (trace w ++ [ELog ERROR (MsgFailedTemplate e)]) (heap w)
      /\ (fs w !! "template.html" = None -> e = FileNotFoundError "template.html")
  | Exit _ => False
  end.
Proof.
  destruct w as [f c t h]. unfold generate_email_body, read_text. run_monad.
  cbn [fs clock trace heap].
  destruct (f !! "template.html") as [template|] eqn:Ht; cbn [fst snd].
  2:{ split; [reflexivity|]. intros _. reflexivity. }
  destruct (fields recipient !! "First Name") as [first_name|] eqn:Hf;
    cbn [fst snd]; [|split; [reflexivity | intros [=]]].
  destruct (fields recipient !! "Email") as [email|] eqn:He;
    cbn [fst snd]; [|split; [reflexivity | intros [=]]].
  destruct (str_format env (universal_newlines template) first_name email
              (dynamic_image_tag image_cid)) as [x|body] eqn:Hs; cbn [fst snd].
  - split; [reflexivity | intros [=]].
  - split; [reflexivity|]. exists template, first_name, email.
    split; [reflexivity|]. split; [reflexivity|]. split; [reflexivity | exact Hs].
Qed.

(** ** Sending one message *)

Lemma attach_logs_silent d :
  forallb is_attach_log d = true ->
  send_calls d = [] /\ api_sends d = [] /\ sleeps d = [] /\ file_ops d = []
  /\ confirmed d = [].
Proof.
  induction d as [|e d IH]; [repeat split|].
  cbn [forallb]. intros [He Hd]%andb_prop.
  destruct (IH Hd) as (H1 & H2 & H3 & H4 & H5).
  destruct e as [[] []| | | |]; try discriminate He;
    (split; [exact H1|]; split; [exact H2|]; split; [exact H3|];
     split; [exact H4 | exact H5]).
Qed.

(** X10: [send_message], with any attachments, never ends the process, never
    sleeps and never touches a file; it logs its destination once; when it
    returns, the Gmail client was called exactly once and the send confirmed;
    when it raises, the client was called at most once, nothing was
    confirmed, and the last line logged is the failure of that destination
    with the exception raised.  When [authenticate] fails no message is built
    and the client is not called; without a config it raises [ValueError]
    before anything else. *)
Theorem send_message_effects env destination subject body gif_data gif_cid
    attachments config w :
  (exists delta,
      trace (send_message env destination subject body gif_data gif_cid
               attachments (Some config) w).2 = trace w ++ delta
      /\ fs (send_message env destination subject body gif_data gif_cid
               attachments (Some config) w).2 = fs w
      /\ send_calls delta = [destination]
      /\ sleeps delta = [] /\ file_ops delta = []
      /\ match (send_message env destination subject body gif_data gif_cid
                  attachments (Some config) w).1 with
         | Ok id =>
             (exists raw, api_sends delta = [raw])
             /\ confirmed delta = [destination]
         | Raise e =>
             length (api_sends delta) <= 1 /\ confirmed delta = []
             /\ last delta = Some (ELog ERROR (MsgFailedSend destination e))
         | Exit _ => False
         end)
  /\ (forall e, authenticate env (clock w) = inl e ->
        send_message env destination subject body gif_data gif_cid attachments
          (Some config) w
        = (Raise e,
           mkWorld (fs w) (S (clock w))
             (trace w ++ [ELog INFO (MsgSending destination);
                          ELog ERROR (MsgFailedSend destination e)]) (heap w)))
  /\ send_message env destination subject body gif_data gif_cid attachments None w
     = (Raise (ValueError "A config instance must be passed to send_message."), w).
Proof.
  split; [|split; [|reflexivity]].
  - destruct w as [f c t h]. unfold send_message. run_monad.
    cbn [clock fs trace heap].
    destruct (authenticate env c) as [e|[]].
    { exists [ELog INFO (MsgSending destination);
              ELog ERROR (MsgFailedSend destination e)].
      cbn [fst snd trace fs]. rewrite <- app_assoc.
      split; [reflexivity|]. split; [reflexivity|]. split; [reflexivity|].
      split; [reflexivity|]. split; [reflexivity|].
      split; [cbn; lia|]. split; reflexivity. }
    match goal with
    | |- context [build_message env destination subject body gif_data gif_cid
                    attachments (Some config) ?w0] =>
        destruct (keeps_to_build_message env destination subject body gif_data
                    gif_cid attachments (Some config) w0)
          as (Hne & Hf & _ & d & Ht & Hd);
        destruct (build_message env destination subject body gif_data gif_cid
                    attachments (Some config) w0)
          as [[envelope|e|status] [f1 c1 t1 h1]]
    end; cbn [fst snd trace fs clock heap] in *; subst t1 f1.
    + destruct (attach_logs_silent d Hd) as (H1 & H2 & H3 & H4 & H5).
      destruct (api_send env c1 (raw envelope)) as [e|id]; cbn [fst snd trace fs].
      * exists ([ELog INFO (MsgSending destination)] ++ d
                ++ [EApiSend (raw envelope)]
                ++ [ELog ERROR (MsgFailedSend destination e)]).
        split; [rewrite <- !app_assoc; reflexivity|]. split; [reflexivity|].
        split; [|split; [|split; [|split; [|split]]]].
        -- unfold send_calls in *. rewrite !omap_app, H1. reflexivity.
        -- unfold sleeps in *. rewrite !omap_app, H3. reflexivity.
        -- unfold file_ops in *. rewrite !List.filter_app, H4. reflexivity.
        -- unfold api_sends in *. rewrite !omap_app, H2. cbn. lia.
        -- unfold confirmed in *. rewrite !omap_app, H5. reflexivity.
        -- rewrite !app_assoc. apply last_snoc.
      * exists ([ELog INFO (MsgSending destination)] ++ d
                ++ [EApiSend (raw envelope)]
                ++ [ELog INFO (MsgMessageSent destination id)]).
        split; [rewrite <- !app_assoc; reflexivity|]. split; [reflexivity|].
        split; [|split; [|split; [|split]]].
        -- unfold send_calls in *. rewrite !omap_app, H1. reflexivity.
        -- unfold sleeps in *. rewrite !omap_app, H3. reflexivity.
        -- unfold file_ops in *. rewrite !List.filter_app, H4. reflexivity.
        -- exists (raw envelope). unfold api_sends in *.
           rewrite !omap_app, H2. reflexivity.
        -- unfold confirmed in *. rewrite !omap_app, H5. reflexivity.
    + destruct (attach_logs_silent d Hd) as (H1 & H2 & H3 & H4 & H5).
      exists ([ELog INFO (MsgSending destination)] ++ d
              ++ [ELog ERROR (MsgFailedSend destination e)]).
      split; [rewrite <- !app_assoc; reflexivity|]. split; [reflexivity|].
      split; [|split; [|split; [|split; [|split]]]].
      * unfold send_calls in *. rewrite !omap_app, H1. reflexivity.
      * unfold sleeps in *. rewrite !omap_app, H3. reflexivity.
      * unfold file_ops in *. rewrite !List.filter_app, H4. reflexivity.
      * unfold api_sends in *. rewrite !omap_app, H2. cbn. lia.
      * unfold confirmed in *. rewrite !omap_app, H5. reflexivity.
      * rewrite !app_assoc. apply last_snoc.
    + exfalso. exact (Hne status eq_refl).
  - intros e He. destruct w as [f c t h]. unfold send_message. run_monad.
    cbn [clock fs trace heap] in *. rewrite He. cbn. rewrite <- app_assoc.
    reflexivity.
Qed.

(** ** The message and its parts *)

(** X11: with image data and a content identifier that are both non-empty,
    [build_message] hands the serialiser a [multipart/related] root whose
    parts are, in this order, the HTML alternative, the one [image/gif] part
    carrying the [Content-ID] between angle brackets and an inline
    disposition named [funny_sparky.gif], and one part per attachment in the
    order given. *)
Theorem build_message_with_image env destination subject body gif_data gif_cid
    attachments config sender files f c t H0 :
  truthy gif_data = true ->
  truthy gif_cid = true ->
  cfg_sender_email config = Some sender ->
  attachment_files f (attachment_names attachments) = Some files ->
  exists tree h,
    build_message env destination subject body gif_data gif_cid attachments
      (Some config) (mkWorld f c t H0)
    = (match msg_as_bytes env c tree with
       | inl e => Raise e
       | inr bytes => Ok (mkEnvelope (urlsafe_b64encode bytes))
       end,
       mkWorld f (S c) (t ++ List.map attached_log files) h)
    /\ mime_parts tree
       = alternative_part body
         :: MLeaf (image_headers "gif"
                   ++ [mkHeader "Content-ID" (PStr ("<" ++ gif_cid ++ ">")) [];
                       mkHeader "Content-Disposition" (PStr "inline")
                         [("filename", "funny_sparky.gif")]])
                  gif_data
         :: List.map (fun p => attachment_part p.1 p.2) files
    /\ files.*1 = attachment_names attachments
    /\ count_leaves "image/gif" tree = 1
    /\ mime_headers tree = root_headers destination sender subject.
Proof.
  intros Hd Hc Hs Hfiles.
  pose proof (build_message_run env destination subject body gif_data gif_cid
                attachments config sender f c t H0 Hs) as Hb.
  rewrite Hfiles in Hb. destruct Hb as [h Hb].
  exists (message_tree destination sender subject body gif_data gif_cid files), h.
  split; [exact Hb|].
  unfold message_tree, image_parts. rewrite Hd, Hc. cbn [andb mime_parts app].
  split; [reflexivity|].
  split; [symmetry; exact (proj1 (attachment_files_spec _ _ _ Hfiles))|].
  split; [|reflexivity].
  cbn [count_leaves List.map list_sum foldr].
  rewrite no_image_in_attachments. reflexivity.
Qed.

Lemma build_message_with_image_witness :
  exists tree h,
    build_message demo_env (PStr "d@x") "Subject" "<p>Hi</p>" "GIF89a" "cid"
      (Some ["a.pdf"]) (Some demo_config)
      (mkWorld (list_to_map [("attachments/a.pdf", "%PDF")]) 0 [] [])
    = (match msg_as_bytes demo_env 0 tree with
       | inl e => Raise e
       | inr bytes => Ok (mkEnvelope (urlsafe_b64encode bytes))
       end,
       mkWorld (list_to_map [("attachments/a.pdf", "%PDF")]) 1
         [ELog DEBUG (MsgAttached "a.pdf")] h)
    /\ length (mime_parts tree) = 3
    /\ count_leaves "image/gif" tree = 1.
Proof.
  assert (Hfiles : attachment_files (list_to_map [("attachments/a.pdf", "%PDF")])
                     (attachment_names (Some ["a.pdf"]))
                   = Some [("a.pdf", "%PDF")]) by (vm_compute; reflexivity).
  destruct (build_message_with_image demo_env (PStr "d@x") "Subject" "<p>Hi</p>"
              "GIF89a" "cid" (Some ["a.pdf"]) demo_config "me@example.org"
              [("a.pdf", "%PDF")] (list_to_map [("attachments/a.pdf", "%PDF")])
              0 [] [] eq_refl eq_refl eq_refl Hfiles)
    as (tree & h & Hrun & Hparts & _ & Hcount & _).
  exists tree, h. split; [exact Hrun|]. split; [|exact Hcount].
  rewrite Hparts. reflexivity.
Defined.

Lemma for_each_app {A} (xs ys : list A) (g : A -> M unit) w :
  for_each (xs ++ ys) g w = (for_each xs g ;; for_each ys g) w.
Proof.
  revert w. induction xs as [|x xs IH]; intros w; [reflexivity|].
  cbn [app for_each]. rewrite !bind_run.
  destruct (g x w) as [[[]|e|c] w1]; [|reflexivity..].
  rewrite IH, bind_run. reflexivity.
Qed.

Lemma for_each_attachments_stop f c H0 hs (files : list (string * string)) bad post :
  forall cs rest t,
  Forall (fun p => f !! path_join "attachments" p.1 = Some p.2) files ->
  f !! path_join "attachments" bad = None ->
  exists h,
    for_each (files.*1 ++ bad :: post) (add_attachment (length H0 + 0))
      (mkWorld f c t (H0 ++ mkNode hs (BParts cs) :: rest))
    = (Raise (FileNotFoundError (path_join "attachments" bad)),
       mkWorld f c
         (t ++ List.map attached_log files
            ++ [ELog ERROR (MsgFailedAttach bad
                  (FileNotFoundError (path_join "attachments" bad)))])
         h).
Proof.
  intros cs rest t Hall Hbad.
  rewrite for_each_app, bind_run, (for_each_attachments _ _ _ _ _ _ _ _ Hall).
  cbn [for_each]. rewrite bind_run, add_attachment_missing by exact Hbad.
  cbn [fs clock trace heap]. rewrite <- app_assoc. eexists. reflexivity.
Qed.

(** X12: when an attachment cannot be read, [build_message] raises
    [FileNotFoundError] for the first such file in the order given: the
    files before it were attached and logged, the failure is logged once,
    the files after it are not looked at, the serialiser is never called
    and no envelope is returned. *)
Theorem build_message_missing_attachment env destination subject body gif_data
    gif_cid config sender files bad post f c t H0 :
  cfg_sender_email config = Some sender ->
  Forall (fun p => f !! path_join "attachments" p.1 = Some p.2) files ->
  f !! path_join "attachments" bad = None ->
  exists h,
    build_message env destination subject body gif_data gif_cid
      (Some (files.*1 ++ bad :: post)) (Some config) (mkWorld f c t H0)
    = (Raise (FileNotFoundError (path_join "attachments" bad)),
       mkWorld f c
         (t ++ List.map attached_log files
            ++ [ELog ERROR (MsgFailedAttach bad
                  (FileNotFoundError (path_join "attachments" bad)))])
         h).
Proof.
  intros Hs Hall Hbad.
  assert (Hloop : forall id,
    match Some (files.*1 ++ bad :: post) with
    | Some ((_ :: _) as l) => for_each l (add_attachment id)
    | _ => mret tt
    end = for_each (files.*1 ++ bad :: post) (add_attachment id)).
  { intros id. apply (attachments_loop (Some _)). }
  unfold build_message. rewrite Hs.
  unfold MIMEMultipart, MIMEText, MIMEImage, set_item, config_get.
  replace (mkWorld f c t H0) with (mkWorld f c t (H0 ++ []))
    by (rewrite app_nil_r; reflexivity).
  rewrite bind_run, new_message_at. cbn [length app].
  rewrite bind_run, (add_header_at _ _ _ _ _ 0 _ _) by reflexivity.
  rewrite bind_run. cbn [mret M_ret].
  rewrite bind_run, (add_header_at _ _ _ _ _ 0 _ _) by reflexivity.
  rewrite bind_run, (add_header_at _ _ _ _ _ 0 _ _) by reflexivity.
  cbn [insert list_insert app].
  rewrite bind_run, new_message_at. cbn [length app].
  rewrite bind_run, (attach_at _ _ _ _ _ 0 _ _) by reflexivity.
  cbn [insert list_insert app].
  rewrite bind_run, new_message_at. cbn [length app].
  rewrite bind_run, (attach_at _ _ _ _ _ 1 _ _) by reflexivity.
  cbn [insert list_insert app].
  destruct (truthy gif_data && truthy gif_cid).
  - rewrite bind_run, bind_run, new_message_at. cbn [length app].
    rewrite bind_run, (add_header_at _ _ _ _ _ 3 _ _) by reflexivity.
    rewrite bind_run, (add_header_at _ _ _ _ _ 3 _ _) by reflexivity.
    cbn [insert list_insert app].
    rewrite (attach_at _ _ _ _ _ 0 _ _) by reflexivity.
    cbn [insert list_insert app].
    rewrite bind_run, Hloop.
    edestruct (for_each_attachments_stop f c H0) as (h & ->);
      [exact Hall | exact Hbad|].
    eexists. reflexivity.
  - rewrite bind_run. cbn [mret M_ret].
    rewrite bind_run, Hloop.
    edestruct (for_each_attachments_stop f c H0) as (h & ->);
      [exact Hall | exact Hbad|].
    eexists. reflexivity.
Qed.

Lemma build_message_missing_attachment_witness :
  exists h,
    build_message demo_env (PStr "d@x") "Subject" "<p>Hi</p>" "" ""
      (Some ["a.pdf"; "b.pdf"; "c.pdf"]) (Some demo_config)
      (mkWorld (list_to_map [("attachments/a.pdf", "%PDF");
                             ("attachments/c.pdf", "%PDF")]) 0 [] [])
    = (Raise (FileNotFoundError "attachments/b.pdf"),
       mkWorld (list_to_map [("attachments/a.pdf", "%PDF");
                             ("attachments/c.pdf", "%PDF")]) 0
         [ELog DEBUG (MsgAttached "a.pdf");
          ELog ERROR (MsgFailedAttach "b.pdf"
                        (FileNotFoundError "attachments/b.pdf"))] h).
Proof.
  apply (build_message_missing_attachment demo_env (PStr "d@x") "Subject"
           "<p>Hi</p>" "" "" demo_config "me@example.org" [("a.pdf", "%PDF")]
           "b.pdf" ["c.pdf"]
           (list_to_map [("attachments/a.pdf", "%PDF");
                         ("attachments/c.pdf", "%PDF")]) 0 [] []);
    [reflexivity | repeat constructor | reflexivity].
Defined.

(** ** The transport encoding of the envelope *)

Lemma b64_char_urlsafe n : (n < 64)%N -> urlsafe_char (b64_char n) = true.
Proof.
  intros Hn.
  assert (Hall : forallb (fun k => urlsafe_char (b64_char (N.of_nat k)))
                   (seq 0 64) = true) by (vm_compute; reflexivity).
  rewrite forallb_forall in Hall.
  specialize (Hall (N.to_nat n)). rewrite N2Nat.id in Hall.
  apply Hall, in_seq. lia.
Qed.

Lemma forallb_string_app (P : ascii -> bool) s r :
  forallb P (list_ascii_of_string (s ++ r)%string)
  = forallb P (list_ascii_of_string s) && forallb P (list_ascii_of_string r).
Proof.
  induction s as [|c s IH]; [reflexivity|].
  rewrite append_cons. cbn [list_ascii_of_string forallb]. rewrite IH.
  apply andb_assoc.
Qed.

Lemma string_length_app s r :
  String.length (s ++ r)%string = String.length s + String.length r.
Proof. induction s as [|c s IH]; [reflexivity|]. simpl. rewrite IH. reflexivity. Qed.

Section Alphabet.

Local Open Scope N_scope.

Ltac euclid := zify; Z.to_euclidean_division_equations; lia.

Lemma enc3_urlsafe a b c :
  forallb urlsafe_char (list_ascii_of_string (enc3 a b c)) = true
  /\ String.length (enc3 a b c) = 4%nat.
Proof.
  pose proof (N_ascii_bounded a). pose proof (N_ascii_bounded b).
  pose proof (N_ascii_bounded c).
  unfold enc3. cbn zeta. cbn [list_ascii_of_string forallb String.length].
  rewrite !b64_char_urlsafe by euclid. split; reflexivity.
Qed.

Lemma enc2_urlsafe a b :
  forallb urlsafe_char (list_ascii_of_string (enc2 a b)) = true
  /\ String.length (enc2 a b) = 4%nat.
Proof.
  pose proof (N_ascii_bounded a). pose proof (N_ascii_bounded b).
  unfold enc2. cbn zeta. cbn [list_ascii_of_string forallb String.length].
  rewrite !b64_char_urlsafe by euclid. split; reflexivity.
Qed.

Lemma enc1_urlsafe a :
  forallb urlsafe_char (list_ascii_of_string (enc1 a)) = true
  /\ String.length (enc1 a) = 4%nat.
Proof.
  pose proof (N_ascii_bounded a).
  unfold enc1. cbn zeta. cbn [list_ascii_of_string forallb String.length].
  rewrite !b64_char_urlsafe by euclid. split; reflexivity.
Qed.

End Alphabet.

Lemma urlsafe_b64encode_shape s :
  forallb urlsafe_char (list_ascii_of_string (urlsafe_b64encode s)) = true
  /\ String.length (urlsafe_b64encode s) = 4 * ((String.length s + 2) / 3).
Proof.
  assert (H : forall n s, String.length s <= n ->
    forallb urlsafe_char (list_ascii_of_string (urlsafe_b64encode s)) = true
    /\ String.length (urlsafe_b64encode s) = 4 * ((String.length s + 2) / 3)).
  { clear s. induction n as [|n IH]; intros s Hlen.
    - destruct s; [split; reflexivity | simpl in Hlen; lia].
    - destruct s as [|a [|b [|c rest]]].
      + split; reflexivity.
      + destruct (enc1_urlsafe a) as [H1 H2]. cbn [urlsafe_b64encode].
        split; [exact H1 | rewrite H2; reflexivity].
      + destruct (enc2_urlsafe a b) as [H1 H2]. cbn [urlsafe_b64encode].
        split; [exact H1 | rewrite H2; reflexivity].
      + destruct (enc3_urlsafe a b c) as [H1 H2].
        destruct (IH rest) as [H3 H4]; [simpl in Hlen; lia|].
        cbn [urlsafe_b64encode].
        rewrite forallb_string_app, string_length_app, H1, H2, H3, H4.
        split; [reflexivity|]. cbn [String.length].
        replace (S (S (S (String.length rest))) + 2)
          with ((String.length rest + 2) + 1 * 3) by lia.
        rewrite Nat.div_add by lia. lia. }
  apply (H (String.length s)). lia.
Qed.

(** X13: the [raw] text of every envelope [build_message] returns, in
    [app/__init__.py] and in [app/mail/message.py], is made of the URL-safe
    base64 alphabet and the padding sign only (no [+], no [/]), its length
    is a multiple of four, and two envelopes with the same [raw] text were
    made from the same serialised bytes. *)
Theorem envelope_raw_is_urlsafe env destination subject body :
  let ok raw :=
    forallb urlsafe_char (list_ascii_of_string raw) = true
    /\ String.length raw mod 4 = 0 in
  (forall gif_data gif_cid attachments config w envelope w',
      build_message env destination subject body gif_data gif_cid attachments
        config w = (Ok envelope, w') -> ok (raw envelope))
  /\ (forall attachments config w envelope w',
        mail_message.build_message env destination subject body attachments
          config w = (Ok envelope, w') -> ok (raw envelope))
  /\ (forall b1 b2, urlsafe_b64encode b1 = urlsafe_b64encode b2 -> b1 = b2).
Proof.
  intros ok.
  assert (Hok : forall bytes, ok (urlsafe_b64encode bytes)).
  { intros bytes. destruct (urlsafe_b64encode_shape bytes) as [H1 H2].
    split; [exact H1|]. rewrite H2, Nat.mul_comm. apply Nat.Div0.mod_mul. }
  split; [|split].
  - intros gif_data gif_cid attachments [config|] w envelope w' Hrun;
      [|discriminate Hrun].
    unfold build_message in Hrun.
    repeat match type of Hrun with
    | (?m ≫= ?k) ?w0 = (Ok _, _) =>
        rewrite bind_run in Hrun;
        destruct (m w0) as [[?a|?e|?c] ?w1]; [|discriminate Hrun..]
    end.
    injection Hrun as <- _. apply Hok.
  - intros attachments [config|] w envelope w' Hrun; [|discriminate Hrun].
    unfold mail_message.build_message in Hrun.
    repeat match type of Hrun with
    | (?m ≫= ?k) ?w0 = (Ok _, _) =>
        rewrite bind_run in Hrun;
        destruct (m w0) as [[?a|?e|?c] ?w1]; [|discriminate Hrun..]
    end.
    injection Hrun as <- _. apply Hok.
  - intros b1 b2 Heq.
    pose proof (urlsafe_b64_roundtrip b1) as H1. rewrite Heq in H1.
    rewrite urlsafe_b64_roundtrip in H1. congruence.
Qed.

Lemma envelope_raw_is_urlsafe_witness :
  exists envelope w',
    build_message demo_env (PStr "d@x") "Subject" "<p>Hi?></p>" "" "" None
      (Some demo_config) (world_of []) = (Ok envelope, w')
    /\ forallb urlsafe_char (list_ascii_of_string (raw envelope)) = true
    /\ String.length (raw envelope) mod 4 = 0.
Proof.
  destruct (build_message demo_env (PStr "d@x") "Subject" "<p>Hi?></p>" "" "" None
              (Some demo_config) (world_of [])) as [[envelope|x|c] w'] eqn:E;
    [|exfalso; vm_compute in E; discriminate E..].
  exists envelope, w'. split; [reflexivity|].
  exact (proj1 (envelope_raw_is_urlsafe demo_env (PStr "d@x") "Subject"
                  "<p>Hi?></p>") "" "" None (Some demo_config) (world_of [])
           envelope w' E).
Defined.

(** ** [app/mail/message.py]: attachments and the shape of the message *)

Lemma basename_aux_no_slash s : forall acc,
  has_slash s = false -> basename_aux acc s = acc.
Proof.
  unfold has_slash. induction s as [|c s IH]; intros acc H; [reflexivity|].
  cbn [list_ascii_of_string existsb] in H. apply orb_false_elim in H as [Hc Hs].
  cbn [basename_aux]. rewrite Ascii.eqb_sym, Hc. apply IH, Hs.
Qed.

Lemma basename_aux_slash s : forall acc,
  has_slash s = true -> has_slash (basename_aux acc s) = false.
Proof.
  induction s as [|c s IH]; intros acc H; [discriminate|].
  cbn [basename_aux]. unfold has_slash in H.
  cbn [list_ascii_of_string existsb] in H. rewrite Ascii.eqb_sym in H.
  destruct (Ascii.eqb c slash).
  - destruct (has_slash s) eqn:Hs; [apply IH; reflexivity|].
    rewrite basename_aux_no_slash by exact Hs. exact Hs.
  - apply IH. exact H.
Qed.

Lemma basename_no_slash p : has_slash (basename p) = false.
Proof.
  unfold basename. destruct (has_slash p) eqn:Hp.
  - apply basename_aux_slash, Hp.
  - rewrite basename_aux_no_slash by exact Hp. exact Hp.
Qed.

(** X14: [add_attachment] of [app/mail/message.py] reads the path as it is
    given and names the part by the path's last component, which holds no
    slash.  A file whose type [guess_type] does not know, or reports as
    encoded, is attached as [application/octet-stream] with its bytes as
    they are; a [text/...] file is decoded and attached as text of that
    subtype.  When the file is missing the exception leaves the function
    with the message as it was and nothing logged. *)
Theorem mail_add_attachment_outcomes env f c t H0 hs cs rest filename :
  let w := mkWorld f c t (H0 ++ mkNode hs (BParts cs) :: rest) in
  let attached nd :=
    (Ok tt,
     mkWorld f c t
       (H0 ++ mkNode hs (BParts (cs ++ [length H0 + S (length rest)]))
           :: rest ++ [nd])) in
  let disposition :=
    mkHeader "Content-Disposition" (PStr "attachment")
      [("filename", basename filename)] in
  (forall data,
      f !! filename = Some data ->
      (guess_mime_type env filename).1 = None
      \/ (guess_mime_type env filename).2 <> None ->
      mail_message.add_attachment env (length H0 + 0) filename w
      = attached (mkNode (base_headers "application" "octet-stream"
                          ++ [disposition]) (BText data)))
  /\ (forall data sub_type text,
        f !! filename = Some data ->
        guess_mime_type env filename = (Some ("text/" ++ sub_type)%string, None) ->
        bytes_decode env data = inr text ->
        mail_message.add_attachment env (length H0 + 0) filename w
        = attached (mkNode (text_headers text sub_type ++ [disposition])
                      (BText text)))
  /\ (f !! filename = None ->
      exists e, mail_message.add_attachment env (length H0 + 0) filename w
                = (Raise e, w))
  /\ has_slash (basename filename) = false.
Proof.
  intros w attached disposition. subst w attached disposition.
  rewrite mail_add_attachment_run. unfold mail_attachment, mail_content_type.
  split; [|split; [|split]].
  - intros data Hf Hg. rewrite Hf.
    destruct (guess_mime_type env filename) as [[ct|] [enc|]]; cbn [fst snd] in Hg;
      try reflexivity.
    destruct Hg as [Hg|Hg]; [discriminate Hg | contradiction].
  - intros data sub_type text Hf Hg Hd. rewrite Hf, Hg.
    assert (Hsplit : split_slash ("text/" ++ sub_type)%string = Some ("text", sub_type)).
    { reflexivity. }
    rewrite Hsplit. cbn [String.eqb Ascii.eqb Bool.eqb]. rewrite Hd. reflexivity.
  - intros Hf. rewrite Hf.
    destruct (split_slash _) as [[main_type sub_type]|]; eexists; reflexivity.
  - apply basename_no_slash.
Qed.

Lemma mail_add_attachment_outcomes_witness :
  let f : gmap string string := list_to_map [("docs/report.bin", "DATA")] in
  mail_message.add_attachment demo_env 0 "docs/report.bin"
    (mkWorld f 0 [] [mkNode [] (BParts [])])
  = (Ok tt,
     mkWorld f 0 []
       [mkNode [] (BParts [1]);
        mkNode (base_headers "application" "octet-stream"
                ++ [mkHeader "Content-Disposition" (PStr "attachment")
                      [("filename", "report.bin")]])
               (BText "DATA")]).
Proof.
  intros f.
  assert (Hf : f !! "docs/report.bin" = Some "DATA") by (vm_compute; reflexivity).
  exact (proj1 (mail_add_attachment_outcomes demo_env f 0 [] [] [] [] []
                  "docs/report.bin") "DATA" Hf (or_introl eq_refl)).
Defined.

(** X15: [build_message] of [app/mail/message.py] without attachments
    ([None] or the empty list) serialises the HTML text itself, with the
    [to], [from] and [subject] headers on it and no multipart around it; with
    attachments it serialises a [multipart/mixed] message that carries the
    three headers and whose parts are the HTML text and then one part per
    file, in the order given; and when an attachment fails, the exception
    leaves [build_message] before any header is set and before the
    serialiser is called. *)
Theorem mail_build_message_shape env destination subject body attachments config
    sender f c t H0 :
  cfg_sender_email config = Some sender ->
  let run := mail_message.build_message env destination subject body attachments
               (Some config) (mkWorld f c t H0) in
  let envelope_of tree :=
    match msg_as_bytes env c tree with
    | inl e => Raise e
    | inr bytes => Ok (mkEnvelope (urlsafe_b64encode bytes))
    end in
  let headers :=
    [mkHeader "to" destination []; mkHeader "from" (PStr sender) [];
     mkHeader "subject" (PStr subject) []] in
  (attachment_names attachments = [] ->
   exists h,
     run = (envelope_of (MLeaf (text_headers body "html" ++ headers) body),
            mkWorld f (S c) t h))
  /\ (forall nds,
        attachment_names attachments <> [] ->
        mail_attachments env f (attachment_names attachments) = inr nds ->
        length nds = length (attachment_names attachments)
        /\ exists h,
             run = (envelope_of
                      (MMulti (multipart_headers "mixed" ++ headers)
                         (MLeaf (text_headers body "html") body
                          :: List.map node_tree nds)),
                    mkWorld f (S c) t h))
  /\ (forall e,
        attachment_names attachments <> [] ->
        mail_attachments env f (attachment_names attachments) = inl e ->
        exists h, run = (Raise e, mkWorld f c t h)).
Proof.
  intros Hs run envelope_of headers. subst run envelope_of headers.
  destruct (mail_build_message_run env destination subject body attachments config
              sender f c t H0 Hs) as [h Hrun].
  rewrite Hrun. clear Hrun.
  split; [|split].
  - intros ->. exists h. reflexivity.
  - intros nds Hne Hnds. split.
    + revert nds Hnds. generalize (attachment_names attachments). clear.
      induction l as [|name names IH]; intros nds; cbn [mail_attachments].
      * intros [= <-]. reflexivity.
      * destruct (mail_attachment env f name); [discriminate|].
        destruct (mail_attachments env f names) as [|nds']; [discriminate|].
        intros [= <-]. cbn [length]. f_equal. apply IH. reflexivity.
    + destruct (attachment_names attachments) as [|name names]; [contradiction|].
      rewrite Hnds. exists h. reflexivity.
  - intros e Hne He.
    destruct (attachment_names attachments) as [|name names]; [contradiction|].
    rewrite He. exists h. reflexivity.
Qed.

Lemma mail_build_message_shape_witness :
  exists h,
    mail_message.build_message demo_env (PStr "d@x") "Subject" "<p>Hi</p>"
      (Some []) (Some demo_config) (mkWorld ∅ 0 [] [])
    = (match msg_as_bytes demo_env 0
               (MLeaf (text_headers "<p>Hi</p>" "html"
                       ++ [mkHeader "to" (PStr "d@x") [];
                           mkHeader "from" (PStr "me@example.org") [];
                           mkHeader "subject" (PStr "Subject") []])
                      "<p>Hi</p>") with
       | inl e => Raise e
       | inr bytes => Ok (mkEnvelope (urlsafe_b64encode bytes))
       end,
       mkWorld ∅ 1 [] h).
Proof.
  exact (proj1 (mail_build_message_shape demo_env (PStr "d@x") "Subject"
                  "<p>Hi</p>" (Some []) demo_config "me@example.org" ∅ 0 [] []
                  eq_refl) eq_refl).
Defined.

(** ** A run, whatever the rows hold *)

Lemma keeps_to_send_message env d subject body gif cid attachments config :
  keeps_to eq is_log_or_send
    (send_message env d subject body gif cid attachments config).
Proof.
  unfold send_message. destruct config as [config|]; [|keeps].
  keeps.
  apply (keeps_to_weaken eq eq is_attach_log); [auto | | apply keeps_to_build_message].
  intros [l []| | | |]; try discriminate; reflexivity.
Qed.

Lemma keeps_to_generate_funny_image env r :
  keeps_to eq is_log (generate_funny_image env r).
Proof. unfold generate_funny_image. keeps. Qed.

Lemma keeps_to_generate_email_body env r cid :
  keeps_to eq is_log (generate_email_body env r cid).
Proof. unfold generate_email_body. keeps. Qed.

Lemma keeps_to_set_last_sent v :
  keeps_to off_checkpoint (fun _ => true) (set_last_sent v).
Proof.
  intros w. destruct v as [email|].
  - rewrite set_last_sent_str. cbn [fst snd fs clock trace].
    split; [discriminate|]. split.
    + intros p Hp. apply lookup_insert_ne. congruence.
    + split; [lia|]. eexists. split; reflexivity.
  - rewrite set_last_sent_none. cbn [fst snd fs clock trace].
    split; [discriminate|]. split.
    + intros p Hp. apply lookup_insert_ne. congruence.
    + split; [lia|]. eexists. split; reflexivity.
Qed.

Lemma keeps_to_send_one env config subject start_index total i r :
  keeps_to off_checkpoint (fun _ => true)
    (send_one env config subject start_index total i r).
Proof.
  unfold send_one, pace. keeps.
  - apply (keeps_to_weaken eq _ is_log); [intros ? ? <-; reflexivity | auto |].
    apply keeps_to_generate_funny_image.
  - apply (keeps_to_weaken eq _ is_log); [intros ? ? <-; reflexivity | auto |].
    apply keeps_to_generate_email_body.
  - apply (keeps_to_weaken eq _ is_log_or_send); [intros ? ? <-; reflexivity | auto |].
    apply keeps_to_send_message.
  - apply keeps_to_set_last_sent.
Qed.

(** The loop returns for every list of rows that have an [Email] entry,
    string or not. *)
Lemma send_loop_returns env config subject recipients start_index total indices :
  Forall has_email_key recipients ->
  Forall (fun i => i < length recipients) indices ->
  forall w,
    (send_loop env config subject recipients start_index total indices w).1 = Ok tt
    /\ off_checkpoint (fs w)
         (fs (send_loop env config subject recipients start_index total indices w).2)
    /\ exists delta,
         trace (send_loop env config subject recipients start_index total indices w).2
         = trace w ++ delta.
Proof.
  intros Hkeys. induction indices as [|i rest IH]; intros Hin w.
  - split; [reflexivity|]. split; [reflexivity|]. exists []. symmetry. apply app_nil_r.
  - apply Forall_cons in Hin as [Hi Hrest].
    destruct (lookup_lt_is_Some_2 recipients i Hi) as [r Hr].
    destruct (proj1 (Forall_lookup _ _) Hkeys i r Hr) as [v Hv].
    cbn [send_loop]. unfold list_getitem. rewrite Hr. rewrite bind_run.
    cbn [mret M_ret]. rewrite bind_run, try_except_run, bind_run.
    destruct (keeps_to_send_one env config subject start_index total i r w)
      as (Hne & Hf & _ & d & Ht & _).
    destruct (send_one env config subject start_index total i r w)
      as [[[]|x|c] w1]; cbn [fst snd] in *.
    + cbn [mret M_ret]. destruct (IH Hrest w1) as (Hok & Hf' & d' & Ht').
      split; [exact Hok|]. split; [etransitivity; eassumption|].
      exists (d ++ d'). rewrite Ht', Ht, app_assoc. reflexivity.
    + unfold getitem. rewrite Hv. rewrite bind_run. cbn [mret M_ret].
      rewrite logging_then. cbn [mret M_ret fst snd fs trace].
      split; [reflexivity|]. split; [exact Hf|].
      eexists. rewrite Ht, <- app_assoc. reflexivity.
    + exfalso. exact (Hne c eq_refl).
Qed.

Lemma find_start_world recipients : forall i c w k w',
  find_start i recipients c w = (Ok k, w) ->
  find_start i recipients c w' = (Ok k, w').
Proof.
  induction recipients as [|r rs IH]; intros i c w k w'.
  - intros [= <-]. reflexivity.
  - cbn [find_start]. unfold getitem.
    destruct (fields r !! "Email") as [v|]; [|discriminate].
    rewrite !bind_run. cbn [mret M_ret].
    destruct (py_eq_str v c); [intros [= <-]; reflexivity | apply IH].
Qed.

Lemma resume_offset_world recipients last w k w' :
  resume_offset recipients last w = (Ok k, w) ->
  resume_offset recipients last w' = (Ok k, w').
Proof.
  destruct last as [c|]; cbn [resume_offset];
    [destruct (truthy c)|]; try (intros [= <-]; reflexivity).
  apply find_start_world.
Qed.

(** [run] once the three keys are there: the checkpoint is read, the resume
    offset computed, and the run ends at once or goes on in its mode. *)
Lemma run_unfold env config subject test_mode test_email recipients w :
  cfg_subject config = Some subject ->
  cfg_test config = Some test_mode ->
  cfg_test_email_recipient config = Some test_email ->
  Forall has_email_key recipients ->
  exists k,
    resume_offset recipients (stored_value (fs w !! LAST_SENT_FILE)) w = (Ok k, w)
    /\ k <= length recipients
    /\ run env config recipients w
       = (if (length recipients <=? k)%nat then logging INFO MsgAllSent
          else logging INFO (MsgPreparing (length recipients - k)) ;;
               if test_mode then test_send env config subject test_email recipients
               else send_loop env config subject recipients k (length recipients)
                      (seq k (length recipients - k)) ;;
                    logging INFO MsgCompleted)
           (mkWorld (fs w) (clock w)
              (trace w ++ checkpoint_log (fs w !! LAST_SENT_FILE)) (heap w)).
Proof.
  intros Hs Ht He Hkeys.
  rewrite (run_keys _ _ _ _ _ _ _ Hs Ht He). unfold resume_and_send.
  rewrite (bind_ok _ _ _ _ _ (get_last_sent_run w)).
  destruct (resume_offset_total recipients (stored_value (fs w !! LAST_SENT_FILE))
              w Hkeys) as (k & Hk & Hle).
  exists k. split; [exact Hk|]. split; [exact Hle|].
  rewrite (bind_ok _ _ _ _ _ (resume_offset_world _ _ _ _ _ Hk)).
  reflexivity.
Qed.

(** X16: [start] reads the three keys only after the recipients are loaded,
    in the order [subject], [test], [test_email_recipient]; the first one
    that is missing is logged and ends the process with status 1, before
    the checkpoint is read and before anything is sent.  The test address is
    required in normal mode too. *)
Theorem start_missing_key env w content config recipients w' :
  fs w !! "config.json" = Some content ->
  config_parse env content = inr config ->
  load_recipients env RECIPIENTS_CSV
    (mkWorld (fs w) (clock w)
       (trace w ++ [ELog INFO MsgStarting; ELog INFO MsgConfigLoaded]) (heap w))
  = (Ok recipients, w') ->
  let stop key :=
    start env w
    = (Exit 1,
       mkWorld (fs w') (clock w')
         (trace w' ++ [ELog ERROR (MsgMissingKey key)]) (heap w')) in
  (cfg_subject config = None -> stop "subject")
  /\ (cfg_subject config <> None -> cfg_test config = None -> stop "test")
  /\ (cfg_subject config <> None -> cfg_test config <> None ->
      cfg_test_email_recipient config = None -> stop "test_email_recipient").
Proof.
  intros Hf Hc Hl stop. subst stop. cbv beta.
  rewrite (start_run env w content config recipients w' Hf Hc Hl).
  unfold run. split; [|split].
  - intros ->. reflexivity.
  - intros Hs ->. destruct (cfg_subject config); [reflexivity | contradiction].
  - intros Hs Ht ->. destruct (cfg_subject config); [|contradiction].
    destruct (cfg_test config); [reflexivity | contradiction].
Qed.

Lemma start_missing_key_witness :
  let env := mkEnv simple_csv
               (fun _ => inr (mkConfig None (Some false) None (Some "me@example.org")))
               (pil_open demo_env) (pil_render demo_env) (str_format demo_env)
               (authenticate demo_env) (api_send demo_env)
               (msg_as_bytes demo_env) (guess_mime_type demo_env)
               (bytes_decode demo_env) in
  let content := ("First Name,Last Name,Email,Phone,Address,Profession,Stage,Industry,LinkedIn"
                  ++ String LF "A,B,a@x,,,,,,")%string in
  let w := world_of [("config.json", "{}"); (RECIPIENTS_CSV, content)] in
  (start env w).1 = Exit 1
  /\ last (trace (start env w).2) = Some (ELog ERROR (MsgMissingKey "subject")).
Proof.
  intros env content w.
  destruct (load_recipients env RECIPIENTS_CSV
              (mkWorld (fs w) (clock w)
                 (trace w ++ [ELog INFO MsgStarting; ELog INFO MsgConfigLoaded])
                 (heap w))) as [[rs|x|c] w'] eqn:E;
    [|exfalso; vm_compute in E; discriminate E..].
  assert (Hf : fs w !! "config.json" = Some "{}") by (vm_compute; reflexivity).
  rewrite (proj1 (start_missing_key env w "{}" _ rs w' Hf eq_refl E) eq_refl).
  split; [reflexivity|]. cbn [snd trace]. apply last_snoc.
Defined.

(** X17: with no recipient at all, [run] returns at once in either mode: it
    logs that all emails have been sent, sends nothing, and never evaluates
    [recipients[0]] nor the test address. *)
Theorem run_no_recipients env config subject test_mode test_email w :
  cfg_subject config = Some subject ->
  cfg_test config = Some test_mode ->
  cfg_test_email_recipient config = Some test_email ->
  run env config [] w
  = (Ok tt,
     mkWorld (fs w) (clock w)
       (trace w ++ checkpoint_log (fs w !! LAST_SENT_FILE) ++ [ELog INFO MsgAllSent])
       (heap w)).
Proof.
  intros Hs Ht He.
  destruct (run_unfold env config subject test_mode test_email [] w Hs Ht He
              (List.Forall_nil _)) as (k & _ & Hk & ->).
  cbn [length] in *. replace k with 0 by lia. cbn [Nat.leb].
  unfold logging, emit. cbn [fs clock trace heap]. rewrite <- app_assoc.
  reflexivity.
Qed.

Lemma run_no_recipients_witness :
  run demo_env test_config [] (world_of [])
  = (Ok tt, mkWorld ∅ 0 [ELog INFO MsgAllSent] []).
Proof.
  exact (run_no_recipients demo_env test_config "Hello" true "test@example.org"
           (world_of []) eq_refl eq_refl eq_refl).
Defined.

(** X18: in test mode with an empty test address, a run that has something
    left to send logs the missing address and ends the process with status
    1 before anything is rendered or sent; a run with nothing left to send
    returns normally and never looks at the address. *)
Theorem test_mode_needs_address env config subject recipients w :
  cfg_subject config = Some subject ->
  cfg_test config = Some true ->
  cfg_test_email_recipient config = Some "" ->
  Forall has_email_key recipients ->
  exists start_index,
    resume_offset recipients (stored_value (fs w !! LAST_SENT_FILE)) w
    = (Ok start_index, w)
    /\ run env config recipients w
       = if (length recipients <=? start_index)%nat then
           (Ok tt,
            mkWorld (fs w) (clock w)
              (trace w ++ checkpoint_log (fs w !! LAST_SENT_FILE)
                 ++ [ELog INFO MsgAllSent]) (heap w))
         else
           (Exit 1,
            mkWorld (fs w) (clock w)
              (trace w ++ checkpoint_log (fs w !! LAST_SENT_FILE)
                 ++ [ELog INFO (MsgPreparing (length recipients - start_index));
                     ELog ERROR MsgNoTestEmail]) (heap w)).
Proof.
  intros Hs Ht He Hkeys.
  destruct (run_unfold env config subject true "" recipients w Hs Ht He Hkeys)
    as (k & Hk & _ & ->).
  exists k. split; [exact Hk|].
  destruct (length recipients <=? k)%nat.
  - unfold logging, emit. cbn [fs clock trace heap]. rewrite <- app_assoc.
    reflexivity.
  - rewrite logging_then. unfold test_send. cbn [truthy negb].
    rewrite bind_run, logging_then. cbn [fs clock trace heap sys_exit].
    rewrite <- !app_assoc. reflexivity.
Qed.

Lemma test_mode_needs_address_witness :
  run demo_env (mkConfig (Some "Hello") (Some true) (Some "") (Some "me@example.org"))
    [recipient_of "A" "a@x"] (world_of [])
  = (Exit 1,
     mkWorld ∅ 0 [ELog INFO (MsgPreparing 1); ELog ERROR MsgNoTestEmail] []).
Proof.
  destruct (test_mode_needs_address demo_env
              (mkConfig (Some "Hello") (Some true) (Some "") (Some "me@example.org"))
              "Hello" [recipient_of "A" "a@x"] (world_of [])
              eq_refl eq_refl eq_refl
              ltac:(repeat constructor; eexists; reflexivity))
    as (k & Hk & Hrun).
  assert (k = 0) as -> by (vm_compute in Hk; congruence).
  exact Hrun.
Defined.

(** X19: for every list of rows that [load_recipients] returns, with the
    three keys configured and the test flag off, and with [last_sent.txt]
    absent or holding ASCII text (the read of the checkpoint is outside
    every [try]), [run] always returns normally: no exception of an
    iteration leaves the loop, whatever the rows hold and whatever the
    services answer.  No file other than the checkpoint is changed, and the
    last line logged is one of the two closing lines. *)
Theorem normal_run_always_returns env config subject test_email csv_file w0
    recipients w1 :
  load_recipients env csv_file w0 = (Ok recipients, w1) ->
  cfg_subject config = Some subject ->
  cfg_test config = Some false ->
  cfg_test_email_recipient config = Some test_email ->
  forall w,
    checkpoint_is_text w ->
    (run env config recipients w).1 = Ok tt
    /\ (forall p, p <> LAST_SENT_FILE ->
          fs (run env config recipients w).2 !! p = fs w !! p)
    /\ exists delta,
         trace (run env config recipients w).2 = trace w ++ delta
         /\ (last delta = Some (ELog INFO MsgAllSent)
             \/ last delta = Some (ELog INFO MsgCompleted)).
Proof.
  intros Hload Hs Ht He w _.
  destruct (load_recipients_have_keys _ _ _ _ _ Hload) as [_ Hkeys].
  destruct (run_unfold env config subject false test_email recipients w Hs Ht He
              Hkeys) as (k & _ & Hk & ->).
  destruct (length recipients <=? k)%nat.
  - unfold logging, emit. cbn [fst snd fs clock trace heap].
    split; [reflexivity|]. split; [reflexivity|].
    eexists. rewrite <- app_assoc. split; [reflexivity|].
    left. apply last_snoc.
  - rewrite logging_then, bind_run.
    match goal with
    | |- context [send_loop env config subject recipients k (length recipients)
                    ?ix ?w2] =>
        destruct (send_loop_returns env config subject recipients k
                    (length recipients) ix Hkeys) with (w := w2)
          as (Hok & Hf & d & Htr);
        [apply Forall_forall; intros i Hi;
         apply list_elem_of_In, in_seq in Hi; lia|];
        destruct (send_loop env config subject recipients k (length recipients)
                    ix w2) as [r w3]
    end.
    cbn [fst snd fs trace] in *. subst r.
    unfold logging, emit. cbn [fst snd fs trace].
    split; [reflexivity|]. split; [exact Hf|].
    eexists. rewrite Htr, <- !app_assoc. split; [reflexivity|].
    right. rewrite !app_assoc. apply last_snoc.
Qed.

Lemma normal_run_always_returns_witness :
  let content := ("First Name,Last Name,Email,Phone,Address,Profession,Stage,Industry,LinkedIn"
                  ++ String LF "A,B")%string in
  let w0 := world_of [(RECIPIENTS_CSV, content); ("template.html", "T");
                      (LAST_SENT_FILE, "z@x")] in
  exists recipients w1,
    load_recipients demo_env RECIPIENTS_CSV w0 = (Ok recipients, w1)
    /\ checkpoint_is_text w0
    /\ (run demo_env demo_config recipients w0).1 = Ok tt.
Proof.
  intros content w0.
  destruct (load_recipients demo_env RECIPIENTS_CSV w0) as [[rs|x|c] w1] eqn:E;
    [|exfalso; vm_compute in E; discriminate E..].
  assert (Htext : checkpoint_is_text w0).
  { intros c Hc. vm_compute in Hc. injection Hc as <-. reflexivity. }
  exists rs, w1. split; [reflexivity|]. split; [exact Htext|].
  exact (proj1 (normal_run_always_returns demo_env demo_config "Hello"
                  "test@example.org" RECIPIENTS_CSV w0 rs w1 E
                  eq_refl eq_refl eq_refl w0 Htext)).
Defined.

(** ** A row without an Email *)

(** X20: a row whose [Email] is [None] (a data row too short to reach that
    column) never completes its iteration, whatever the services answer:
    [send_one] raises, and the loop logs the failure and returns without
    visiting the rows after it.  If Gmail had accepted the message, the
    exception is the [TypeError] of the checkpoint write, raised after the
    file was opened for writing: the message is sent, the failure is logged,
    and the checkpoint file is left empty. *)
Theorem row_without_email_stops env config subject recipients start_index total
    i post r w :
  recipients !! i = Some r ->
  fields r !! "Email" = Some PNone ->
  exists x w1 delta,
    send_one env config subject start_index total i r w = (Raise x, w1)
    /\ send_loop env config subject recipients start_index total (i :: post) w
       = (Ok tt,
          mkWorld (fs w1) (clock w1)
            (trace w1 ++ [ELog ERROR (MsgFailedEmail PNone x)]) (heap w1))
    /\ trace w1 = trace w ++ delta
    /\ sleeps delta = []
    /\ ((confirmed delta = [] /\ fs w1 = fs w)
        \/ (confirmed delta = [PNone] /\ x = TypeError
            /\ fs w1 = <[LAST_SENT_FILE := ""]> (fs w))).
Proof.
  intros Hr Hv.
  assert (Hget : forall w0, getitem r "Email" w0 = (Ok PNone, w0)).
  { intros w0. unfold getitem. rewrite Hv. reflexivity. }
  assert (Hone : exists x w1 delta,
    send_one env config subject start_index total i r w = (Raise x, w1)
    /\ trace w1 = trace w ++ delta
    /\ sleeps delta = []
    /\ ((confirmed delta = [] /\ fs w1 = fs w)
        \/ (confirmed delta = [PNone] /\ x = TypeError
            /\ fs w1 = <[LAST_SENT_FILE := ""]> (fs w)))).
  { rewrite send_one_unfold, bind_run.
    destruct (render_and_send_spec env config subject r (getitem r "Email")
                PNone w) as (d1 & [Ht Hf] & Hres).
    { intros w0. left. apply Hget. }
    destruct (render_and_send env config subject r (getitem r "Email") w)
      as [[id|x|c] w1]; cbn [fst snd] in *.
    - destruct Hres as (raw & Ho & _).
      rewrite bind_run, Hget, logging_then, bind_run, Hget.
      rewrite bind_run, set_last_sent_none. cbn [fs clock trace heap].
      eexists _, _, _. split; [reflexivity|]. cbn [trace fs].
      rewrite Ht, Hf, <- !app_assoc. split; [reflexivity|].
      rewrite <- sleeps_obs, <- confirmed_obs, !obs_app, Ho.
      split; [reflexivity|]. right.
      split; [reflexivity|]. split; reflexivity.
    - eexists _, _, _. split; [reflexivity|]. split; [exact Ht|].
      rewrite <- sleeps_obs, <- confirmed_obs.
      destruct Hres as [-> | [-> | (raw & -> & _)]];
        (split; [reflexivity|]; left; split; [reflexivity | exact Hf]).
    - destruct Hres. }
  destruct Hone as (x & w1 & delta & Hone & Ht & Hsl & Hcase).
  exists x, w1, delta. split; [exact Hone|]. split.
  - cbn [send_loop]. unfold list_getitem. rewrite Hr.
    rewrite bind_run. cbn [mret M_ret].
    rewrite bind_run, try_except_run, bind_run, Hone.
    rewrite bind_run, Hget. reflexivity.
  - split; [exact Ht|]. split; [exact Hsl | exact Hcase].
Qed.

Lemma row_without_email_stops_witness :
  let short := dict_of_row csv_header ["A"; "B"] in
  let w := world_of [("template.html", "T"); (LAST_SENT_FILE, "z@x")] in
  exists w1,
    send_one demo_env demo_config "Hello" 0 2 0 short w = (Raise TypeError, w1)
    /\ fs w1 !! LAST_SENT_FILE = Some ""
    /\ (send_loop demo_env demo_config "Hello" [short; recipient_of "B" "b@x"]
          0 2 [0; 1] w).1 = Ok tt.
Proof.
  intros short w.
  destruct (row_without_email_stops demo_env demo_config "Hello"
              [short; recipient_of "B" "b@x"] 0 2 0 [1] short w eq_refl eq_refl)
    as (x & w1 & delta & Hone & Hloop & Ht & _ & Hcase).
  assert (Hx : exists w2, send_one demo_env demo_config "Hello" 0 2 0 short w
                          = (Raise TypeError, w2)
                          /\ fs w2 !! LAST_SENT_FILE = Some "").
  { eexists. split; [vm_compute; reflexivity | vm_compute; reflexivity]. }
  destruct Hx as (w2 & Hw2 & Hfs).
  rewrite Hone in Hw2. injection Hw2 as -> ->.
  exists w2. split; [exact Hone|]. split; [exact Hfs|].
  rewrite Hloop. reflexivity.
Defined.

(** ** The order of the sends, and resuming *)

Lemma shape_in_order recipients start_index n : forall j0 l,
  loop_shape recipients start_index (seq (start_index + j0) n) l ->
  exists es,
    length es <= n
    /\ confirmed l = List.map PStr es
    /\ checkpoint_writes l = es
    /\ (forall j e, es !! j = Some e ->
          exists r, recipients !! (start_index + j0 + j) = Some r /\ has_email e r)
    /\ (send_calls l = List.map PStr es
        \/ exists r e,
             recipients !! (start_index + j0 + length es) = Some r
             /\ has_email e r
             /\ send_calls l = List.map PStr es ++ [PStr e]).
Proof.
  induction n as [|n IH]; intros j0 l Hshape; inversion Hshape; subst.
  - exists []. split; [reflexivity|]. split; [reflexivity|]. split; [reflexivity|].
    split; [intros j e [=]|]. left. reflexivity.
  - match goal with H : loop_shape _ _ (seq _ n) _ |- _ => rename H into Htail end.
    replace (S (start_index + j0)) with (start_index + S j0) in Htail by lia.
    destruct (IH _ _ Htail) as (es & Hlen & Hc & Hw & Hat & Hs).
    exists (e :: es). split; [simpl; lia|].
    unfold sent_block. cbn [app].
    unfold confirmed, checkpoint_writes, send_calls in *.
    cbn [omap list_omap List.map]. rewrite String.eqb_refl.
    split; [f_equal; exact Hc|]. split; [f_equal; exact Hw|]. split.
    + intros [|j] e'.
      * intros [= <-]. exists r. rewrite Nat.add_0_r. split; assumption.
      * intros Hj. destruct (Hat j e' Hj) as (r' & Hr' & He').
        exists r'. split; [|exact He'].
        replace (start_index + j0 + S j) with (start_index + S j0 + j) by lia.
        exact Hr'.
    + destruct Hs as [Hs | (r' & e' & Hr' & He' & Hs)].
      * left. f_equal. exact Hs.
      * right. exists r', e'. cbn [length].
        replace (start_index + j0 + S (length es))
          with (start_index + S j0 + length es) by lia.
        split; [exact Hr'|]. split; [exact He'|].
        cbn [app]. f_equal. exact Hs.
  - exists []. split; [simpl; lia|].
    match goal with H : failed_attempt _ _ |- _ => destruct H end;
      (split; [reflexivity|]); (split; [reflexivity|]);
      (split; [intros j e' [=]|]).
    + left. reflexivity.
    + right. exists r, e. cbn [length]. rewrite Nat.add_0_r.
      split; [assumption|]. split; [assumption | reflexivity].
    + right. exists r, e. cbn [length]. rewrite Nat.add_0_r.
      split; [assumption|]. split; [assumption | reflexivity].
Qed.

(** X21: a run in normal mode sends in file order from the resume offset
    on, skipping nobody: the [j]-th confirmed send and the [j]-th checkpoint
    written are the Email of the recipient at index [start_index + j], and
    [send_message] is called for those recipients and, when the run stops
    on a failure inside [send_message], for the one after them. *)
Theorem sends_follow_file_order env config subject test_email recipients w :
  cfg_subject config = Some subject ->
  cfg_test config = Some false ->
  cfg_test_email_recipient config = Some test_email ->
  emails_are_strings recipients ->
  exists delta start_index es,
    trace (run env config recipients w).2 = trace w ++ delta
    /\ resume_offset recipients (stored_value (fs w !! LAST_SENT_FILE)) w
       = (Ok start_index, w)
    /\ start_index + length es <= max start_index (length recipients)
    /\ confirmed delta = List.map PStr es
    /\ checkpoint_writes delta = es
    /\ (forall j e, es !! j = Some e ->
          exists r, recipients !! (start_index + j) = Some r /\ has_email e r)
    /\ (send_calls delta = confirmed delta
        \/ exists r e,
             recipients !! (start_index + length es) = Some r
             /\ has_email e r
             /\ send_calls delta = confirmed delta ++ [PStr e]).
Proof.
  intros Hs Ht He Hstr.
  destruct (run_normal_shape env config subject test_email recipients w
              Hs Ht He Hstr) as (d & w' & k & Hrun & Htr & Hk & Hshape & _).
  rewrite <- (Nat.add_0_r k) in Hshape at 2.
  destruct (shape_in_order _ _ _ _ _ Hshape) as (es & Hlen & Hc & Hw & Hat & Hsc).
  exists d, k, es. rewrite Hrun. cbn [snd].
  split; [exact Htr|]. split; [exact Hk|]. split; [lia|].
  rewrite <- confirmed_obs, <- checkpoint_writes_obs, <- send_calls_obs.
  split; [exact Hc|]. split; [exact Hw|]. split.
  - intros j e Hj. destruct (Hat j e Hj) as (r & Hr & Her).
    exists r. rewrite Nat.add_0_r in Hr. split; assumption.
  - rewrite Hc. rewrite Nat.add_0_r in Hsc. exact Hsc.
Qed.

Lemma sends_follow_file_order_witness :
  let recipients := [recipient_of "A" "a@x"; recipient_of "B" "b@x";
                     recipient_of "C" "c@x"] in
  let w := world_of [("template.html", "T"); (LAST_SENT_FILE, "a@x")] in
  exists delta start_index es,
    trace (run demo_env demo_config recipients w).2 = trace w ++ delta
    /\ resume_offset recipients (stored_value (fs w !! LAST_SENT_FILE)) w
       = (Ok start_index, w)
    /\ confirmed delta = List.map PStr es
    /\ checkpoint_writes delta = es.
Proof.
  intros recipients w.
  destruct (sends_follow_file_order demo_env demo_config "Hello" "test@example.org"
              recipients w eq_refl eq_refl eq_refl
              ltac:(repeat constructor; eexists; reflexivity))
    as (delta & k & es & Ht & Hk & _ & Hc & Hw & _).
  exists delta, k, es. split; [exact Ht|]. split; [exact Hk|].
  split; [exact Hc | exact Hw].
Defined.

Lemma checkpointed_last files ws e :
  last ws = Some e -> checkpointed files ws !! LAST_SENT_FILE = Some e.
Proof.
  unfold checkpointed. revert files.
  induction ws as [|x ws IH]; intros files; [discriminate|].
  cbn [foldl]. destruct ws as [|y ws].
  - intros [= ->]. cbn [foldl]. apply lookup_insert_eq.
  - intros Hl. apply IH. exact Hl.
Qed.

Lemma clean_emails_are_strings recipients :
  forallb clean_email recipients = true -> emails_are_strings recipients.
Proof.
  intros H. apply Forall_forall. intros r Hr.
  apply list_elem_of_In in Hr.
  pose proof (proj1 (forallb_forall _ _) H r Hr) as Hc.
  unfold clean_email in Hc. unfold has_email.
  destruct (fields r !! "Email") as [[e|]|]; try discriminate. eauto.
Qed.

Lemma first_match_unique recipients k r e :
  NoDup (emails recipients) ->
  emails_are_strings recipients ->
  recipients !! k = Some r -> has_email e r ->
  first_match recipients e k.
Proof.
  intros Hnd Hstr Hr He. split; [exists r; split; assumption|].
  intros j r' Hj Hr'.
  destruct (proj1 (Forall_lookup _ _) Hstr j r' Hr') as [e' He'].
  split; [unfold has_email_key; unfold has_email in He'; rewrite He'; eauto|].
  intros Heq.
  assert (Hj' : emails recipients !! j = Some (Some (PStr e))).
  { unfold emails. rewrite list_lookup_fmap, Hr'. cbn. f_equal. exact Heq. }
  assert (Hk' : emails recipients !! k = Some (Some (PStr e))).
  { unfold emails. rewrite list_lookup_fmap, Hr. cbn. f_equal. exact He. }
  pose proof (NoDup_lookup _ _ _ _ Hnd Hj' Hk'). lia.
Qed.

(** X22: resuming picks up where the run stopped.  With Emails that are
    distinct and that the checkpoint store gives back unchanged (non-empty,
    no white space at either end, no carriage return), after a run in normal
    mode that confirmed [m] sends from the offset [start_index], the offset
    the next run computes from the files it finds is [start_index + m]:
    nobody confirmed is sent to again, and nobody is skipped. *)
Theorem resume_continues env config subject test_email recipients w :
  cfg_subject config = Some subject ->
  cfg_test config = Some false ->
  cfg_test_email_recipient config = Some test_email ->
  forallb clean_email recipients = true ->
  NoDup (emails recipients) ->
  exists w' delta start_index,
    run env config recipients w = (Ok tt, w')
    /\ trace w' = trace w ++ delta
    /\ resume_offset recipients (stored_value (fs w !! LAST_SENT_FILE)) w
       = (Ok start_index, w)
    /\ resume_offset recipients (stored_value (fs w' !! LAST_SENT_FILE)) w'
       = (Ok (start_index + length (confirmed delta)), w').
Proof.
  intros Hs Ht He Hclean Hnd.
  pose proof (clean_emails_are_strings _ Hclean) as Hstr.
  destruct (run_normal_shape env config subject test_email recipients w
              Hs Ht He Hstr) as (d & w' & k & Hrun & Htr & Hk & Hshape & Hfs).
  exists w', d, k. split; [exact Hrun|]. split; [exact Htr|]. split; [exact Hk|].
  pose proof Hshape as Hshape'.
  rewrite <- (Nat.add_0_r k) in Hshape' at 2.
  destruct (shape_in_order _ _ _ _ _ Hshape') as (es & Hlen & Hc & Hw & Hat & _).
  rewrite <- confirmed_obs, Hc, length_map. rewrite Hfs, Hw.
  destruct (last es) as [e|] eqn:Hlast.
  - rewrite (checkpointed_last _ _ _ Hlast).
    assert (Hidx : es !! (length es - 1) = Some e).
    { rewrite last_lookup in Hlast. rewrite <- Hlast. f_equal.
      destruct es; [discriminate | simpl; lia]. }
    assert (Hpos : 0 < length es) by (destruct es; [discriminate | simpl; lia]).
    destruct (Hat _ _ Hidx) as (r & Hr & Her).
    rewrite Nat.add_0_r in Hr.
    assert (Hce : clean e = true).
    { apply list_elem_of_lookup_2, list_elem_of_In in Hr.
      pose proof (proj1 (forallb_forall _ _) Hclean r Hr) as Hcr.
      unfold clean_email in Hcr. unfold has_email in Her. rewrite Her in Hcr.
      exact Hcr. }
    assert (Hsv : stored_value (Some e) = Some e).
    { unfold stored_value. cbn zeta.
      rewrite (strip_clean _ Hce), (clean_truthy _ Hce). reflexivity. }
    pose proof (resume_offset_first recipients (Some e) e _ w' Hsv
                  (first_match_unique _ _ _ _ Hnd Hstr Hr Her)) as Hres.
    rewrite Hres. f_equal. f_equal. lia.
  - assert (es = []) as -> by (destruct es using rev_ind;
                                [reflexivity | rewrite last_snoc in Hlast; discriminate]).
    cbn [checkpointed foldl length]. rewrite Nat.add_0_r.
    apply (resume_offset_world _ _ _ _ _ Hk).
Qed.

Lemma resume_continues_witness :
  let recipients := [recipient_of "A" "a@x"; recipient_of "B" "b@x";
                     recipient_of "C" "c@x"] in
  let w := world_of [("template.html", "T")] in
  exists w' delta start_index,
    run (failing_env 8) demo_config recipients w = (Ok tt, w')
    /\ trace w' = trace w ++ delta
    /\ resume_offset recipients (stored_value (fs w !! LAST_SENT_FILE)) w
       = (Ok start_index, w)
    /\ resume_offset recipients (stored_value (fs w' !! LAST_SENT_FILE)) w'
       = (Ok (start_index + length (confirmed delta)), w').
Proof.
  intros recipients w.
  apply (resume_continues (failing_env 8) demo_config "Hello" "test@example.org"
           recipients w eq_refl eq_refl eq_refl).
  - vm_compute. reflexivity.
  - assert (Hem : emails recipients
                  = [Some (PStr "a@x"); Some (PStr "b@x"); Some (PStr "c@x")])
      by (vm_compute; reflexivity).
    rewrite Hem. apply (bool_decide_unpack _). vm_compute. exact I.
Defined.

(** ** The frames of the image *)

Section FramesProperties.

Context {Frame : Type} (pil : Pil Frame) (text : string).

Lemma frames_loop_all (drawn : nat -> Frame) n : forall fuel pos frames,
  pos + n = frame_count pil ->
  0 < n ->
  n <= fuel ->
  (forall k, pos <= k < frame_count pil -> draw_frame pil text k = inr (drawn k)) ->
  frames_loop pil text fuel pos frames
  = Some (EOFError, frames ++ List.map drawn (seq pos n)).
Proof.
  induction n as [|n IH]; intros fuel pos frames Hn Hpos Hfuel Hdraw; [lia|].
  destruct fuel as [|fuel]; [lia|]. cbn [frames_loop].
  rewrite Hdraw by lia. cbn zeta.
  destruct (S pos <? frame_count pil)%nat eqn:Hlt.
  - apply Nat.ltb_lt in Hlt.
    rewrite (IH fuel (S pos) (frames ++ [drawn pos])); try lia.
    + cbn [seq List.map]. rewrite <- app_assoc. reflexivity.
    + intros k Hk. apply Hdraw. lia.
  - apply Nat.ltb_ge in Hlt. assert (n = 0) as -> by lia.
    cbn [seq List.map]. reflexivity.
Qed.

Lemma frames_loop_stops (drawn : nat -> Frame) e j : forall fuel pos frames,
  pos + j < frame_count pil ->
  j < fuel ->
  (forall k, pos <= k < pos + j -> draw_frame pil text k = inr (drawn k)) ->
  draw_frame pil text (pos + j) = inl e ->
  frames_loop pil text fuel pos frames
  = Some (e, frames ++ List.map drawn (seq pos j)).
Proof.
  induction j as [|j IH]; intros fuel pos frames Hj Hfuel Hdraw Hfail.
  - destruct fuel as [|fuel]; [lia|]. cbn [frames_loop].
    rewrite Nat.add_0_r in Hfail. rewrite Hfail.
    cbn [seq List.map]. rewrite app_nil_r. reflexivity.
  - destruct fuel as [|fuel]; [lia|]. cbn [frames_loop].
    rewrite Hdraw by lia. cbn zeta.
    rewrite (proj2 (Nat.ltb_lt _ _)) by lia.
    rewrite (IH fuel (S pos) (frames ++ [drawn pos])); try lia.
    + cbn [seq List.map]. rewrite <- app_assoc. reflexivity.
    + intros k Hk. apply Hdraw. lia.
    + replace (S pos + j) with (pos + S j) by lia. exact Hfail.
Qed.

End FramesProperties.

(** X23: when every frame of the template can be drawn, the GIF is saved
    from as many frames as the template has, each frame drawn once and in
    the template's order, given any fuel that reaches the frame count: all
    of them in one [save_all] call when there are several, the only frame
    alone otherwise.  The text is placed so that the margins on either side
    differ by at most one pixel, also when the text is larger than the
    image. *)
Theorem render_frames_all {Frame : Type} (pil : Pil Frame) (text : string)
    (drawn : nat -> Frame) (fuel : nat) :
  0 < frame_count pil ->
  frame_count pil <= fuel ->
  (forall k, k < frame_count pil -> draw_frame pil text k = inr (drawn k)) ->
  render_frames pil text fuel
  = Some (save pil (drawn 0)
            (if (1 <? frame_count pil)%nat
             then Some (List.map drawn (seq 1 (frame_count pil - 1)))
             else None))
  /\ (forall size text_size : Z * Z,
        let p := text_position size text_size in
        (0 <= (size.1 - text_size.1) - 2 * p.1 <= 1)%Z
        /\ (0 <= (size.2 - text_size.2) - 2 * p.2 <= 1)%Z).
Proof.
  intros Hpos Hfuel Hdraw. split.
  - unfold render_frames.
    rewrite (frames_loop_all pil text drawn (frame_count pil) fuel 0 []);
      [|lia | lia | lia | intros k Hk; apply Hdraw; lia].
    cbn [app is_EOFError EOFError String.eqb Ascii.eqb Bool.eqb].
    rewrite length_map, length_seq.
    destruct (frame_count pil) as [|n]; [lia|].
    cbn [seq List.map]. rewrite Nat.sub_succ, Nat.sub_0_r.
    destruct (1 <? S n)%nat; reflexivity.
  - intros size text_size p. subst p. unfold text_position. cbn [fst snd].
    split; Z.to_euclidean_division_equations; lia.
Qed.

Lemma render_frames_all_witness :
  render_frames demo_pil "Look at you" 3 = Some (inr "0,1,2").
Proof.
  destruct (render_frames_all demo_pil "Look at you" (fun k => k + 100) 3)
    as [Hrun _]; [simpl; lia | simpl; lia | |].
  - intros k Hk. reflexivity.
  - rewrite Hrun. reflexivity.
Defined.

(** X24: an exception other than [EOFError] while a frame is drawn leaves
    the rendering with no GIF saved.  An [EOFError] is taken for the end of
    the frames wherever it comes from: raised while frame [j] is drawn, with
    [j] frames already appended, it makes the GIF be saved from those [j]
    frames alone and no error is reported; raised while the first frame is
    drawn, it leaves [frames] empty and [frames[0]] raises [IndexError]. *)
Theorem render_frames_stops {Frame : Type} (pil : Pil Frame) (text : string)
    (drawn : nat -> Frame) (e : exn) (j fuel : nat) :
  j < frame_count pil ->
  j < fuel ->
  (forall k, k < j -> draw_frame pil text k = inr (drawn k)) ->
  draw_frame pil text j = inl e ->
  render_frames pil text fuel
  = Some (if is_EOFError e then
            match j with
            | 0 => inl IndexError
            | 1 => save pil (drawn 0) None
            | S j' => save pil (drawn 0) (Some (List.map drawn (seq 1 j')))
            end
          else inl e).
Proof.
  intros Hj Hfuel Hdraw Hfail. unfold render_frames.
  rewrite (frames_loop_stops pil text drawn e j fuel 0 []);
    [|lia | lia | intros k Hk; apply Hdraw; lia | exact Hfail].
  cbn [app]. destruct (is_EOFError e); [|reflexivity].
  rewrite length_map, length_seq.
  destruct j as [|[|j']]; reflexivity.
Qed.

Lemma render_frames_stops_witness :
  let pil := mkPil nat 3 (200%Z, 100%Z)
               (fun k => if (k =? 2)%nat then inl EOFError else inr k)
               (wrap demo_pil) (multiline_textsize demo_pil)
               (multiline_text demo_pil) (convert_palette demo_pil)
               (save demo_pil) in
  render_frames pil "Look at you" 3 = Some (inr "0,1").
Proof.
  intros pil.
  rewrite (render_frames_stops pil "Look at you" (fun k => k + 100) EOFError 2 3);
    [reflexivity | simpl; lia | lia | | reflexivity].
  intros [|[|k]] Hk; [reflexivity | reflexivity | lia].
Defined.
